(** * Field data capture: listing filters, analytics aggregation, form submission

    A shallow embedding of the non-presentational logic of the capture
    application:

    - [Analytics.fetchAnalytics] and the figures drawn from its result
      (components/dashboard/analytics.tsx)
    - [DataList.filteredCaptures], [DataList.fetchCaptures],
      [DataList.handleDelete], [DataList.getStatusColor]
      (the listing component)
    - [CaptureForm.handleSubmit], [CaptureForm.handleInputChange],
      [CaptureForm.handleFileUpload] and the removal of a photo
      (components/dashboard/capture-form.tsx)

    The components are TypeScript running on an ECMAScript host, so module
    [JS] first fixes the fragments of the host language they rely on:
    binary64 numbers, the string-to-number conversion behind [Number(...)],
    [parseInt], substring search, plain objects used as counters, the
    stable array sort, [filter] by index and [Math.max].

    Conventions.
    - Strings are sequences of bytes (UTF-8).
    - Measurements are binary64 numbers ([Floats.SpecFloat]); their sums and
      means are computed as the host computes them.
    - Counts, array lengths and time values are integers far below 2^53,
      where the host's arithmetic is exact; they are kept in [Z] and [nat],
      and the quotient of a time difference by the length of a day in [Q].
    - What the host provides and the code only calls (the date parser, the
      clock, lower-casing, the two remote services) enters as a [Variable]. *)

From Stdlib Require Import ZArith QArith Bool List Ascii String Lia.
From Stdlib Require Import Sorting.Sorted Sorting.Permutation.
From Stdlib Require Import Numbers.DecimalString.
From Stdlib Require Numbers.DecimalZ Numbers.DecimalPos.
From Stdlib Require Floats.SpecFloat.
Import ListNotations.

Local Open Scope string_scope.
Local Open Scope Z_scope.
Local Open Scope list_scope.

(* ===================================================================== *)
(** * The host language                                                   *)
(* ===================================================================== *)

Module JS.

(** ** Numbers: IEEE 754 binary64, one NaN *)

Definition number : Type := SpecFloat.spec_float.

Definition prec : Z := 53.
Definition emax : Z := 1024.

Definition NaN : number := SpecFloat.S754_nan.
Definition pos_zero : number := SpecFloat.S754_zero false.

(** An integer converted to the nearest binary64 value. *)
Definition of_Z (z : Z) : number := SpecFloat.binary_normalize prec emax z 0 false.

Definition add (x y : number) : number := SpecFloat.SFadd prec emax x y.
Definition sub (x y : number) : number := SpecFloat.SFsub prec emax x y.
Definition div (x y : number) : number := SpecFloat.SFdiv prec emax x y.

(** [0 < x]; false for NaN. *)
Definition is_positive (x : number) : bool := SpecFloat.SFltb pos_zero x.

(** [x <= y]; false when either is NaN. *)
Definition leb (x y : number) : bool := SpecFloat.SFleb x y.

Definition isNaN (x : number) : bool :=
  match x with SpecFloat.S754_nan => true | _ => false end.

(** ** Strings *)

(** [ToBoolean] on a string: only the empty string is falsy. *)
Definition truthy (s : string) : bool := negb (String.eqb s "").

Definition string_rev (s : string) : string :=
  string_of_list_ascii (rev (list_ascii_of_string s)).

Definition bytes (l : list nat) : string :=
  string_of_list_ascii (map ascii_of_nat l).

(** White space and line terminators, as UTF-8 byte sequences: TAB, LF, VT,
    FF, CR, SP, U+00A0, U+1680, U+2000..U+200A, U+2028, U+2029, U+202F,
    U+205F, U+3000, U+FEFF. *)
Definition StrWhiteSpaceChar : list string :=
  map bytes
    (([9] :: [10] :: [11] :: [12] :: [13] :: [32] :: [194; 160] :: [225; 154; 128]
      :: map (fun k => [226; 128; k]) [128; 129; 130; 131; 132; 133; 134; 135; 136; 137; 138])
     ++ [ [226; 128; 168]; [226; 128; 169]; [226; 128; 175]; [226; 129; 159];
          [227; 128; 128]; [239; 187; 191] ])%nat.

(** [strip p s] removes the prefix [p] of [s], if it is one. *)
Fixpoint strip (p s : string) : option string :=
  match p, s with
  | EmptyString, _ => Some s
  | String a p', String b s' => if Ascii.eqb a b then strip p' s' else None
  | String _ _, EmptyString => None
  end.

Fixpoint strip_any (ps : list string) (s : string) : option string :=
  match ps with
  | [] => None
  | p :: ps' => match strip p s with Some r => Some r | None => strip_any ps' s end
  end.

Fixpoint trim_with (ws : list string) (fuel : nat) (s : string) : string :=
  match fuel with
  | O => s
  | S fuel' => match strip_any ws s with
               | Some r => trim_with ws fuel' r
               | None => s
               end
  end.

Definition trimStart (s : string) : string :=
  trim_with StrWhiteSpaceChar (String.length s) s.

Definition trimEnd (s : string) : string :=
  string_rev (trim_with (map string_rev StrWhiteSpaceChar) (String.length s) (string_rev s)).

Definition trim (s : string) : string := trimEnd (trimStart s).

(** ** [Number(s)]: StringToNumber *)

Definition digit_value (radix : Z) (c : ascii) : option Z :=
  let n := Z.of_nat (nat_of_ascii c) in
  let v := if (48 <=? n) && (n <=? 57) then Some (n - 48)
           else if (97 <=? n) && (n <=? 122) then Some (n - 87)
           else if (65 <=? n) && (n <=? 90) then Some (n - 55)
           else None in
  match v with
  | Some d => if d <? radix then Some d else None
  | None => None
  end.

(** The longest run of digits at the head of [s]: its value on top of [acc],
    how many digits were read, and what follows. *)
Fixpoint read_digits (radix : Z) (s : string) (acc : Z) (n : nat) : Z * nat * string :=
  match s with
  | EmptyString => (acc, n, s)
  | String c s' =>
      match digit_value radix c with
      | Some d => read_digits radix s' (radix * acc + d) (S n)
      | None => (acc, n, s)
      end
  end.

(** A leading sign: whether it is a minus, and what follows. *)
Definition read_sign (s : string) : bool * string :=
  match strip "+" s with
  | Some r => (false, r)
  | None => match strip "-" s with
            | Some r => (true, r)
            | None => (false, s)
            end
  end.

(** The binary64 value nearest to [m * 10^e], ties to even.  Exponents that
    are out of range by a wide margin are settled without building the power
    of ten; [nd] bounds the number of decimal digits of [m]. *)
Definition round_decimal (neg : bool) (m : Z) (nd : nat) (e : Z) : number :=
  if m =? 0 then SpecFloat.S754_zero neg
  else if 310 <=? e then SpecFloat.S754_infinity neg
  else if e + Z.of_nat nd <=? -324 then SpecFloat.S754_zero neg
  else if 0 <=? e then
    SpecFloat.binary_normalize prec emax (if neg then - (m * 10 ^ e) else m * 10 ^ e) 0 neg
  else
    let '(q, e', l) := SpecFloat.SFdiv_core_binary prec emax m 0 (10 ^ (- e)) 0 in
    SpecFloat.binary_round_aux prec emax neg q e' l.

(** ExponentPart followed by the end of the string. *)
Definition read_exponent (s : string) : option Z :=
  match s with
  | EmptyString => Some 0
  | String c s' =>
      if (Ascii.eqb c "e" || Ascii.eqb c "E")%bool then
        let '(neg, s'') := read_sign s' in
        match read_digits 10 s'' 0 0 with
        | (_, O, _) => None
        | (v, _, EmptyString) => Some (if neg then - v else v)
        | _ => None
        end
      else None
  end.

(** StrUnsignedDecimalLiteral without the [Infinity] alternative: digits,
    then optionally a point and more digits, at least one digit in all, then
    optionally an exponent. *)
Definition read_decimal (neg : bool) (s : string) : number :=
  let '(ip, ni, r1) := read_digits 10 s 0 0 in
  let '(m, nf, r2) :=
    match strip "." r1 with
    | Some r => read_digits 10 r ip 0
    | None => (ip, O, r1)
    end in
  match (ni + nf)%nat with
  | O => NaN
  | _ => match read_exponent r2 with
         | Some x => round_decimal neg m (ni + nf) (x - Z.of_nat nf)
         | None => NaN
         end
  end.

(** NonDecimalIntegerLiteral after its prefix. *)
Definition read_radix (radix : Z) (s : string) : number :=
  match read_digits radix s 0 0 with
  | (_, O, _) => NaN
  | (v, _, EmptyString) => of_Z v
  | _ => NaN
  end.

(** The prefixes of the non-decimal literals, with their radix. *)
Definition radix_prefixes : list (string * Z) :=
  [("0x", 16); ("0X", 16); ("0o", 8); ("0O", 8); ("0b", 2); ("0B", 2)].

Fixpoint strip_radix (ps : list (string * Z)) (s : string) : option (Z * string) :=
  match ps with
  | [] => None
  | (p, radix) :: ps' =>
      match strip p s with
      | Some r => Some (radix, r)
      | None => strip_radix ps' s
      end
  end.

Definition Number (s : string) : number :=
  let t := trim s in
  if String.eqb t "" then pos_zero
  else match strip_radix radix_prefixes t with
       | Some (radix, r) => read_radix radix r
       | None =>
           let '(neg, r) := read_sign t in
           if String.eqb r "Infinity" then SpecFloat.S754_infinity neg
           else read_decimal neg r
       end.

(** ** [parseInt(s)] with no radix argument

    Leading white space, a sign, an optional [0x] prefix, then the longest run
    of digits; [None] stands for NaN.  The value is exact below 2^53. *)
Definition parseInt (s : string) : option Z :=
  let '(neg, r) := read_sign (trimStart s) in
  let '(radix, r') :=
    match strip_radix [("0x", 16); ("0X", 16)] r with
    | Some p => p
    | None => (10, r)
    end in
  match read_digits radix r' 0 0 with
  | (_, O, _) => None
  | (v, _, _) => Some (if neg then - v else v)
  end.

(** ** [s.includes(t)] *)

Fixpoint includes (s t : string) : bool :=
  match strip t s with
  | Some _ => true
  | None => match s with
            | EmptyString => false
            | String _ s' => includes s' t
            end
  end.

(** ** Plain objects used as counters

    The components build their tallies in object literals that start as [{}]
    and are only touched by [o[k] = (o[k] || 0) + 1].  Such an object holds
    numbers and, as the rules of [+] have it, strings.  Its own properties are
    kept in the order in which [Object.entries] lists them: array indices in
    ascending order first, then the other keys in creation order.  Reading a
    key that the object does not own falls through to [Object.prototype]. *)

Inductive value : Type :=
  | Num (n : Z)
  | Str (s : string).

Definition object : Type := list (string * value).

Definition empty_object : object := [].

Fixpoint own (o : object) (k : string) : option value :=
  match o with
  | [] => None
  | (k', v) :: o' => if String.eqb k' k then Some v else own o' k
  end.

(** The function-valued properties of [Object.prototype], each with the name
    of the built-in function it holds. *)
Definition prototype_methods : list (string * string) :=
  [ ("constructor", "Object");
    ("__defineGetter__", "__defineGetter__");
    ("__defineSetter__", "__defineSetter__");
    ("hasOwnProperty", "hasOwnProperty");
    ("__lookupGetter__", "__lookupGetter__");
    ("__lookupSetter__", "__lookupSetter__");
    ("isPrototypeOf", "isPrototypeOf");
    ("propertyIsEnumerable", "propertyIsEnumerable");
    ("toString", "toString");
    ("valueOf", "valueOf");
    ("toLocaleString", "toLocaleString") ].

Fixpoint assoc {A : Type} (l : list (string * A)) (k : string) : option A :=
  match l with
  | [] => None
  | (k', a) :: l' => if String.eqb k' k then Some a else assoc l' k
  end.

(** What [o[k]] evaluates to. *)
Inductive got : Type :=
  | GUndefined
  | GValue (v : value)
  | GFunction (name : string)
  | GObjectPrototype.

Definition Get (o : object) (k : string) : got :=
  match own o k with
  | Some v => GValue v
  | None =>
      match assoc prototype_methods k with
      | Some f => GFunction f
      | None => if String.eqb k "__proto__" then GObjectPrototype else GUndefined
      end
  end.

(** The source text a built-in function converts to. *)
Definition native_text (name : string) : string :=
  ("function " ++ name ++ "() { [native code] }")%string.

(** [(g || 0) + 1]: a falsy operand gives way to [0]; a number is
    incremented; anything else is converted to a string and ["1"] is
    appended. *)
Definition or_zero_plus_one (g : got) : value :=
  match g with
  | GUndefined => Num 1
  | GValue (Num n) => if n =? 0 then Num 1 else Num (n + 1)
  | GValue (Str s) => if String.eqb s "" then Num 1 else Str (s ++ "1")%string
  | GFunction f => Str (native_text f ++ "1")%string
  | GObjectPrototype => Str "[object Object]1"
  end.

(** A canonical numeric string below 2^32 - 1 is an array index. *)
Definition array_index (k : string) : option Z :=
  match read_digits 10 k 0 0 with
  | (v, S n, EmptyString) =>
      let canonical := match k with String "0" (String _ _) => false | _ => true end in
      if canonical && (v <=? 4294967294) then Some v else None
  | _ => None
  end.

Fixpoint replace (o : object) (k : string) (v : value) : object :=
  match o with
  | [] => []
  | (k', v') :: o' =>
      if String.eqb k' k then (k', v) :: o' else (k', v') :: replace o' k v
  end.

Fixpoint insert_index (i : Z) (k : string) (v : value) (o : object) : object :=
  match o with
  | [] => [(k, v)]
  | (k', v') :: o' =>
      match array_index k' with
      | Some j => if j <? i then (k', v') :: insert_index i k v o' else (k, v) :: o
      | None => (k, v) :: o
      end
  end.

(** [o[k] = v] for a primitive [v].  The inherited [__proto__] setter ignores
    a value that is neither an object nor null. *)
Definition Put (o : object) (k : string) (v : value) : object :=
  if String.eqb k "__proto__" then o
  else match own o k with
       | Some _ => replace o k v
       | None =>
           match array_index k with
           | Some i => insert_index i k v o
           | None => o ++ [(k, v)]
           end
       end.

(** [o[k] = (o[k] || 0) + 1] *)
Definition bump (o : object) (k : string) : object :=
  Put o k (or_zero_plus_one (Get o k)).

Definition entries (o : object) : list (string * value) := o.

(** ** Arithmetic on property values

    Counts are integers far below 2^53, where Number arithmetic is exact, so
    the difference of two numeric values is kept as an integer.  A string
    operand goes through [Number] and binary64 subtraction. *)

Inductive result : Type :=
  | Int (z : Z)
  | Flt (x : number).

Definition ToNumber (v : value) : number :=
  match v with
  | Num n => of_Z n
  | Str s => Number s
  end.

Definition minus (x y : value) : result :=
  match x, y with
  | Num a, Num b => Int (a - b)
  | _, _ => Flt (sub (ToNumber x) (ToNumber y))
  end.

(** [r > 0].  NaN is not. *)
Definition above_zero (r : result) : bool :=
  match r with
  | Int z => 0 <? z
  | Flt x => is_positive x
  end.

(** ** [Array.prototype.sort] with a comparator

    The sort is stable: [x] moves behind [y] only when [comparefn(x, y) > 0]
    (a NaN result counts as [+0]).  For a consistent comparator every stable
    sort yields this list. *)

Section Sort.
Context {A : Type} (comparefn : A -> A -> result).

Fixpoint insert_sorted (x : A) (l : list A) : list A :=
  match l with
  | [] => [x]
  | y :: l' => if above_zero (comparefn x y) then y :: insert_sorted x l' else x :: l
  end.

Definition sort (l : list A) : list A := fold_right insert_sorted [] l.
End Sort.

Definition slice {A : Type} (from to : nat) (l : list A) : list A :=
  firstn (to - from) (skipn from l).

(** ** [Array.prototype.filter] with a callback that looks at the index

    [l.filter((x, i) => p(x, i))], the callback running on the elements at
    positions [i], [i+1], ... *)

Fixpoint filter_from_index {A : Type} (p : A -> nat -> bool) (i : nat) (l : list A)
  : list A :=
  match l with
  | [] => []
  | x :: l' =>
      if p x i then x :: filter_from_index p (S i) l' else filter_from_index p (S i) l'
  end.

Definition filter_indexed {A : Type} (p : A -> nat -> bool) (l : list A) : list A :=
  filter_from_index p 0 l.

(** ** [Object.values] and [Math.max]

    [Math.max] converts every argument to a number and starts from
    [-Infinity]; a NaN among the arguments makes the result NaN, and [+0]
    counts as larger than [-0].  As for [minus], arguments that are all
    integers are compared as integers. *)

Definition values (o : object) : list value := map snd o.

Definition neg_infinity : number := SpecFloat.S754_infinity true.

Fixpoint integers (vs : list value) : option (list Z) :=
  match vs with
  | [] => Some []
  | Num n :: vs' => option_map (cons n) (integers vs')
  | Str _ :: _ => None
  end.

Definition is_zero (negative : bool) (x : number) : bool :=
  match x with
  | SpecFloat.S754_zero s => Bool.eqb s negative
  | _ => false
  end.

Fixpoint highest_of (numbers : list number) (highest : number) : number :=
  match numbers with
  | [] => highest
  | x :: rest =>
      if isNaN x then NaN
      else if (is_zero false x && is_zero true highest) || SpecFloat.SFltb highest x
           then highest_of rest x
           else highest_of rest highest
  end.

Definition Math_max (vs : list value) : result :=
  match integers vs with
  | Some (z :: zs) => Int (fold_left Z.max zs z)
  | _ => Flt (highest_of (map ToNumber vs) neg_infinity)
  end.

End JS.

(* ===================================================================== *)
(** * The capture record                                                  *)
(* ===================================================================== *)

Module Capture.

(** [status TEXT CHECK (status IN ('draft','submitted','approved','rejected'))] *)
Inductive Status : Type := draft | submitted | approved | rejected.

Definition status_string (s : Status) : string :=
  match s with
  | draft => "draft"
  | submitted => "submitted"
  | approved => "approved"
  | rejected => "rejected"
  end.

(** The [data] payload: every measurement is kept as the text that was typed. *)
Record CaptureData : Type := {
  location : string;
  date : string;
  time : string;
  temperature : string;
  humidity : string;
  windSpeed : string;
  waterLevel : string;
  waterQuality : string;
  observations : string;
  photoUrls : list string
}.

Record CaptureRecord : Type := {
  id : string;
  title : string;
  description : option string;
  status : Status;
  created_at : string;
  data : CaptureData
}.

End Capture.

(* ===================================================================== *)
(** * Analytics: components/dashboard/analytics.tsx                       *)
(* ===================================================================== *)

Module Analytics.
Import Capture.

Module TopLocation.
Record t : Type := { location : string; count : JS.value }.
End TopLocation.

Record AnalyticsData : Type := {
  totalCaptures : nat;
  capturesByStatus : JS.object;
  averageTemperature : JS.number;
  averageHumidity : JS.number;
  averageWindSpeed : JS.number;
  averageWaterLevel : JS.number;
  waterQualityDistribution : JS.object;
  capturesByMonth : JS.object;
  topLocations : list TopLocation.t
}.

(** What the component holds between renders. *)
Record State : Type := {
  analyticsData : option AnalyticsData;
  loading : bool
}.

(** The answer of the record store to the [select]. *)
Inductive Response : Type :=
  | Data (captures : list CaptureRecord)
  | Error (message : string).

(** [1000 * 60 * 60 * 24] *)
Definition msPerDay : Z := 1000 * 60 * 60 * 24.

(** [forEach] over a list, bumping the counter under [key c] for every
    record that passes [guard]. *)
Definition tally (guard : CaptureRecord -> bool) (key : CaptureRecord -> string)
    (l : list CaptureRecord) : JS.object :=
  fold_left (fun o c => if guard c then JS.bump o (key c) else o) l JS.empty_object.

(** The records whose [field] is non-empty and converts to a number. *)
Definition valid (field : CaptureRecord -> string) (l : list CaptureRecord)
  : list CaptureRecord :=
  filter (fun c => JS.truthy (field c) && negb (JS.isNaN (JS.Number (field c)))) l.

(** [valid.length > 0 ? valid.reduce((sum, c) => sum + Number(field), 0) / valid.length : 0] *)
Definition average (field : CaptureRecord -> string) (l : list CaptureRecord)
  : JS.number :=
  let v := valid field l in
  if (0 <? List.length v)%nat
  then JS.div (fold_left (fun sum c => JS.add sum (JS.Number (field c))) v JS.pos_zero)
              (JS.of_Z (Z.of_nat (List.length v)))
  else JS.pos_zero.

(** [(a, b) => b.count - a.count] *)
Definition by_count (a b : TopLocation.t) : JS.result :=
  JS.minus (TopLocation.count b) (TopLocation.count a).

Section Host.
(** [new Date(s).getTime()] in milliseconds; [None] for an invalid date. *)
Variable getTime : string -> option Z.
(** [new Date(s).toLocaleDateString('en-US', { month: 'short', year: 'numeric' })] *)
Variable toLocaleDateString : string -> string.
(** [Date.now()] as read while the [k]-th fetched record is examined. *)
Variable Date_now : nat -> Z.

(** [(Date.now() - captureDate.getTime()) / (1000 * 60 * 60 * 24)].  Time
    values are integers of at most 8.64e15 milliseconds; rounding their
    difference and the quotient to binary64 cannot carry the quotient across
    a bound of a few hundred days, so the quotient is kept exact. *)
Definition daysAgo (k : nat) (capture : CaptureRecord) : option Q :=
  match getTime (created_at capture) with
  | Some t => Some (inject_Z (Date_now k - t) / inject_Z msPerDay)%Q
  | None => None
  end.

(** [daysAgo <= parseInt(timeRange)]; a comparison with NaN is false. *)
Definition inRange (timeRange : string) (k : nat) (capture : CaptureRecord) : bool :=
  match daysAgo k capture, JS.parseInt timeRange with
  | Some d, Some w => Qle_bool d (inject_Z w)
  | _, _ => false
  end.

(** [captures.filter(capture => ...)], the callback running on the records
    at positions [k], [k+1], ... *)
Fixpoint filter_from (timeRange : string) (k : nat) (captures : list CaptureRecord)
  : list CaptureRecord :=
  match captures with
  | [] => []
  | capture :: rest =>
      if inRange timeRange k capture
      then capture :: filter_from timeRange (S k) rest
      else filter_from timeRange (S k) rest
  end.

Definition filteredCaptures (timeRange : string) (captures : list CaptureRecord)
  : list CaptureRecord :=
  filter_from timeRange 0 captures.

Definition locationCounts (filtered : list CaptureRecord) : JS.object :=
  tally (fun c => JS.truthy (location (data c))) (fun c => location (data c)) filtered.

(** The body of [fetchAnalytics] once the records have arrived. *)
Definition analytics (timeRange : string) (captures : list CaptureRecord)
  : AnalyticsData :=
  let filtered := filteredCaptures timeRange captures in
  {| totalCaptures := List.length filtered;
     capturesByStatus :=
       tally (fun _ => true) (fun c => status_string (status c)) filtered;
     averageTemperature := average (fun c => temperature (data c)) filtered;
     averageHumidity := average (fun c => humidity (data c)) filtered;
     averageWindSpeed := average (fun c => windSpeed (data c)) filtered;
     averageWaterLevel := average (fun c => waterLevel (data c)) filtered;
     waterQualityDistribution :=
       tally (fun c => JS.truthy (waterQuality (data c)))
             (fun c => waterQuality (data c)) filtered;
     capturesByMonth :=
       tally (fun _ => true) (fun c => toLocaleDateString (created_at c)) filtered;
     topLocations :=
       JS.slice 0 5
         (JS.sort by_count
            (map (fun '(location, count) => TopLocation.Build_t location count)
                 (JS.entries (locationCounts filtered)))) |}.

(** A failed fetch is logged and leaves the previous data in place. *)
Definition fetchAnalytics (timeRange : string) (r : Response) (st : State) : State :=
  match r with
  | Error _ => {| analyticsData := analyticsData st; loading := false |}
  | Data captures =>
      {| analyticsData := Some (analytics timeRange captures); loading := false |}
  end.
End Host.

(** ** What the component draws *)

(** [useState<AnalyticsData | null>(null)], [useState(true)] *)
Definition initial : State := {| analyticsData := None; loading := true |}.

(** The spinner, the notice "No analytics data available", or the report. *)
Inductive Screen : Type :=
  | Spinner
  | NoData
  | Report (a : AnalyticsData).

Definition render (st : State) : Screen :=
  if loading st then Spinner
  else match analyticsData st with
       | None => NoData
       | Some a => Report a
       end.

(** Most Active Location:
    [topLocations.length > 0 ? topLocations[0].location : 'N/A'] *)
Definition mostActiveLocation (a : AnalyticsData) : string :=
  match topLocations a with
  | first :: _ => TopLocation.location first
  | [] => "N/A"
  end.

(** Peak Monthly Captures: [Math.max(...Object.values(capturesByMonth))] *)
Definition peakMonthlyCaptures (a : AnalyticsData) : JS.result :=
  JS.Math_max (JS.values (capturesByMonth a)).

Section Calendar.
(** [new Date(s).getTime()], here applied to the month labels. *)
Variable getTime : string -> option Z.

(** [(a, b) => new Date(a[0]).getTime() - new Date(b[0]).getTime()].  The
    sort looks at the sign of the difference only, and rounding the
    difference of two time values to binary64 keeps its sign.  With an
    unreadable label the difference is NaN. *)
Definition by_month (a b : string * JS.value) : JS.result :=
  match getTime (fst a), getTime (fst b) with
  | Some x, Some y => JS.Int (x - y)
  | _, _ => JS.Flt JS.NaN
  end.

(** Monthly Trend: [Object.entries(capturesByMonth).sort(...)] *)
Definition monthlyTrend (a : AnalyticsData) : list (string * JS.value) :=
  JS.sort by_month (JS.entries (capturesByMonth a)).
End Calendar.

End Analytics.

(* ===================================================================== *)
(** * The listing component                                               *)
(* ===================================================================== *)

Module DataList.
Import Capture.

Section Host.
(** [String.prototype.toLowerCase] *)
Variable toLowerCase : string -> string.

Definition matchesSearch (searchTerm : string) (capture : CaptureRecord) : bool :=
  JS.includes (toLowerCase (title capture)) (toLowerCase searchTerm)
  || JS.includes (toLowerCase (location (data capture))) (toLowerCase searchTerm).

Definition matchesStatus (statusFilter : string) (capture : CaptureRecord) : bool :=
  String.eqb statusFilter "all"
  || String.eqb (status_string (status capture)) statusFilter.

Definition filteredCaptures (captures : list CaptureRecord)
    (searchTerm statusFilter : string) : list CaptureRecord :=
  filter (fun capture =>
            matchesSearch searchTerm capture && matchesStatus statusFilter capture)
         captures.
End Host.

(** Lower-casing of the letters A to Z, for running the filters on plain
    ASCII text. *)
Definition ascii_lower (c : ascii) : ascii :=
  let n := nat_of_ascii c in
  if ((65 <=? n) && (n <=? 90))%nat then ascii_of_nat (n + 32) else c.

Fixpoint ascii_toLowerCase (s : string) : string :=
  match s with
  | EmptyString => EmptyString
  | String c s' => String (ascii_lower c) (ascii_toLowerCase s')
  end.

(** ** Fetching and deleting *)

(** What the component holds between renders. *)
Record State : Type := {
  captures : list CaptureRecord;
  loading : bool;
  searchTerm : string;
  statusFilter : string;
  selectedCapture : option CaptureRecord
}.

Definition initial : State :=
  {| captures := []; loading := true; searchTerm := ""; statusFilter := "all";
     selectedCapture := None |}.

(** The answer of the record store to a [select]: [{ data, error }]. *)
Module Fetched.
Record t : Type := {
  data : option (list CaptureRecord);
  error : option string
}.
End Fetched.

(** [fetchCaptures] once the answer has arrived: an error is logged and
    leaves the list alone, otherwise [setCaptures(data || [])];
    [setLoading(false)] in either case. *)
Definition fetchCaptures (answer : Fetched.t) (st : State) : State :=
  match Fetched.error answer with
  | Some _ =>
      {| captures := captures st; loading := false; searchTerm := searchTerm st;
         statusFilter := statusFilter st; selectedCapture := selectedCapture st |}
  | None =>
      {| captures := match Fetched.data answer with
                     | Some rows => rows
                     | None => []
                     end;
         loading := false; searchTerm := searchTerm st;
         statusFilter := statusFilter st; selectedCapture := selectedCapture st |}
  end.

Definition getStatusColor (status : string) : string :=
  if String.eqb status "approved" then "bg-green-100 text-green-800"
  else if String.eqb status "rejected" then "bg-red-100 text-red-800"
  else if String.eqb status "submitted" then "bg-yellow-100 text-yellow-800"
  else if String.eqb status "draft" then "bg-gray-100 text-gray-800"
  else "bg-gray-100 text-gray-800".

(** A request made to the table [captures], with the error it answered. *)
Inductive Call : Type :=
  | Delete (id : string) (error : option string)
  | Select (user_id : option string).

(** The table as the component sees it, and the requests received so far. *)
Record World : Type := {
  rows : list CaptureRecord;
  calls : list Call
}.

Section Store.
(** [user?.id] *)
Variable user_id : option string.
(** The error, if any, with which the store answers a [delete]. *)
Variable delete_error : World -> string -> option string.
(** The answer to [select('*').eq('user_id', ...).order('created_at', ...)]. *)
Variable select : World -> option string -> Fetched.t.

(** [handleDelete]; [confirmed] is the answer given to [confirm(...)].  A
    delete that goes through removes the rows with that [id] and is followed
    by [fetchCaptures()]; a refused one is logged. *)
Definition handleDelete (confirmed : bool) (id : string) (st : State) (w : World)
  : State * World :=
  if confirmed then
    match delete_error w id with
    | Some e => (st, {| rows := rows w; calls := calls w ++ [Delete id (Some e)] |})
    | None =>
        let w1 :=
          {| rows := filter (fun c => negb (String.eqb (Capture.id c) id)) (rows w);
             calls := calls w ++ [Delete id None] |} in
        (fetchCaptures (select w1 user_id) st,
         {| rows := rows w1; calls := calls w1 ++ [Select user_id] |})
    end
  else (st, w).
End Store.

End DataList.

(* ===================================================================== *)
(** * The capture form: components/dashboard/capture-form.tsx             *)
(* ===================================================================== *)

Module CaptureForm.

Record File : Type := { name : string; contents : string }.

Record CaptureFormData : Type := {
  title : string;
  description : string;
  location : string;
  date : string;
  time : string;
  temperature : string;
  humidity : string;
  windSpeed : string;
  waterLevel : string;
  waterQuality : string;
  observations : string;
  photos : list File
}.

(** The argument of [insert]. *)
Module Row.
Record t : Type := {
  user_id : option string;
  title : string;
  description : string;
  data : Capture.CaptureData;
  status : Capture.Status
}.
End Row.

(** A call made to a collaborator, with the error it answered, if any. *)
Inductive Call : Type :=
  | Upload (fileName : string) (photo : File) (error : option string)
  | Insert (row : Row.t) (error : option string).

(** The two collaborators as the form sees them: the objects of the bucket
    [capture-photos], the rows of the table [captures], how often the clock
    has been read, and the calls received so far. *)
Record World : Type := {
  objects : list (string * File);
  captures : list Row.t;
  ticks : nat;
  calls : list Call
}.

(** The form's own state. [timers] holds the delays handed to [setTimeout]. *)
Record UI : Type := {
  loading : bool;
  error : option string;
  success : bool;
  timers : list Z
}.

(** A computation that may throw: the message of the error, or a result,
    together with the world it leaves behind. *)
Definition M (A : Type) : Type := World -> (string + A) * World.

Definition ret {A : Type} (a : A) : M A := fun w => (inr a, w).

Definition throw {A : Type} (message : string) : M A := fun w => (inl message, w).

Definition bind {A B : Type} (c : M A) (k : A -> M B) : M B :=
  fun w =>
    match c w with
    | (inr a, w') => k a w'
    | (inl message, w') => (inl message, w')
    end.

Declare Scope form_scope.
Delimit Scope form_scope with form.
Notation "x <- c ;; k" := (bind c (fun x => k))
  (at level 61, c at next level, right associativity) : form_scope.

(** The decimal text of an integer, as in a template literal. *)
Definition ToString (z : Z) : string := NilZero.string_of_int (Z.to_int z).

Section Host.
(** The [k]-th reading of [Date.now()]. *)
Variable Date_now : nat -> Z.
(** The error, if any, with which the object store answers an upload. *)
Variable upload_error : World -> string -> File -> option string.
(** The error, if any, with which the record store answers an insert. *)
Variable insert_error : World -> Row.t -> option string.
(** [supabase.storage.from('capture-photos').getPublicUrl(name).data.publicUrl] *)
Variable getPublicUrl : string -> string.

Definition now : M Z :=
  fun w => (inr (Date_now (ticks w)),
            {| objects := objects w; captures := captures w;
               ticks := S (ticks w); calls := calls w |}).

(** [await supabase.storage.from('capture-photos').upload(fileName, photo)]:
    the object is stored unless the store reports an error. *)
Definition upload (fileName : string) (photo : File) : M (option string) :=
  fun w =>
    let error := upload_error w fileName photo in
    (inr error,
     {| objects := match error with
                   | Some _ => objects w
                   | None => objects w ++ [(fileName, photo)]
                   end;
        captures := captures w;
        ticks := ticks w;
        calls := calls w ++ [Upload fileName photo error] |}).

(** [await supabase.from('captures').insert(row)] *)
Definition insert (row : Row.t) : M (option string) :=
  fun w =>
    let error := insert_error w row in
    (inr error,
     {| objects := objects w;
        captures := match error with
                    | Some _ => captures w
                    | None => captures w ++ [row]
                    end;
        ticks := ticks w;
        calls := calls w ++ [Insert row error] |}).

(** [for (const photo of formData.photos) { ... photoUrls.push(publicUrl) }] *)
Fixpoint upload_photos (photos : list File) (photoUrls : list string)
  : M (list string) :=
  match photos with
  | [] => ret photoUrls
  | photo :: rest =>
      (t <- now ;;
       let fileName := (ToString t ++ "-" ++ name photo)%string in
       error <- upload fileName photo ;;
       match error with
       | Some e => throw e
       | None => upload_photos rest (photoUrls ++ [getPublicUrl fileName])
       end)%form
  end.

(** The [try] block. *)
Definition submit (user_id : option string) (formData : CaptureFormData) : M unit :=
  (photoUrls <- upload_photos (photos formData) [] ;;
   error <- insert
     {| Row.user_id := user_id;
        Row.title := title formData;
        Row.description := description formData;
        Row.data :=
          {| Capture.location := location formData;
             Capture.date := date formData;
             Capture.time := time formData;
             Capture.temperature := temperature formData;
             Capture.humidity := humidity formData;
             Capture.windSpeed := windSpeed formData;
             Capture.waterLevel := waterLevel formData;
             Capture.waterQuality := waterQuality formData;
             Capture.observations := observations formData;
             Capture.photoUrls := photoUrls |};
        Row.status := Capture.draft |} ;;
   match error with
   | Some e => throw e
   | None => ret tt
   end)%form.

(** [handleSubmit]: [setLoading(true); setError(null)], the [try] block,
    then [setSuccess(true)] and the redirect timer, or [setError(message)];
    [setLoading(false)] in either case. *)
Definition handleSubmit (user_id : option string) (formData : CaptureFormData)
    (ui : UI) (w : World) : UI * World :=
  match submit user_id formData w with
  | (inr _, w') =>
      ({| loading := false; error := None; success := true;
          timers := timers ui ++ [2000] |}, w')
  | (inl message, w') =>
      ({| loading := false; error := Some message; success := success ui;
          timers := timers ui |}, w')
  end.
End Host.

(** ** Editing the form *)

(** [keyof CaptureFormData] *)
Module Key.
Inductive t : Type :=
  | title | description | location | date | time | temperature | humidity
  | windSpeed | waterLevel | waterQuality | observations | photos.
End Key.

(** [string | File[]]: every call passes a text for a text field and a list
    of files for [photos]. *)
Definition Value (field : Key.t) : Type :=
  match field with
  | Key.photos => list File
  | _ => string
  end.

(** [setFormData(prev => ({ ...prev, [field]: value }))] *)
Definition handleInputChange (field : Key.t)
  : Value field -> CaptureFormData -> CaptureFormData :=
  match field return Value field -> CaptureFormData -> CaptureFormData with
  | Key.title =>
      fun value prev =>
         {| title := value; description := description prev;
            location := location prev; date := date prev; time := time prev;
            temperature := temperature prev; humidity := humidity prev;
            windSpeed := windSpeed prev; waterLevel := waterLevel prev;
            waterQuality := waterQuality prev; observations := observations prev;
            photos := photos prev |}
  | Key.description =>
      fun value prev =>
         {| title := title prev; description := value; location := location prev;
            date := date prev; time := time prev; temperature := temperature prev;
            humidity := humidity prev; windSpeed := windSpeed prev;
            waterLevel := waterLevel prev; waterQuality := waterQuality prev;
            observations := observations prev; photos := photos prev |}
  | Key.location =>
      fun value prev =>
         {| title := title prev; description := description prev;
            location := value; date := date prev; time := time prev;
            temperature := temperature prev; humidity := humidity prev;
            windSpeed := windSpeed prev; waterLevel := waterLevel prev;
            waterQuality := waterQuality prev; observations := observations prev;
            photos := photos prev |}
  | Key.date =>
      fun value prev =>
         {| title := title prev; description := description prev;
            location := location prev; date := value; time := time prev;
            temperature := temperature prev; humidity := humidity prev;
            windSpeed := windSpeed prev; waterLevel := waterLevel prev;
            waterQuality := waterQuality prev; observations := observations prev;
            photos := photos prev |}
  | Key.time =>
      fun value prev =>
         {| title := title prev; description := description prev;
            location := location prev; date := date prev; time := value;
            temperature := temperature prev; humidity := humidity prev;
            windSpeed := windSpeed prev; waterLevel := waterLevel prev;
            waterQuality := waterQuality prev; observations := observations prev;
            photos := photos prev |}
  | Key.temperature =>
      fun value prev =>
         {| title := title prev; description := description prev;
            location := location prev; date := date prev; time := time prev;
            temperature := value; humidity := humidity prev;
            windSpeed := windSpeed prev; waterLevel := waterLevel prev;
            waterQuality := waterQuality prev; observations := observations prev;
            photos := photos prev |}
  | Key.humidity =>
      fun value prev =>
         {| title := title prev; description := description prev;
            location := location prev; date := date prev; time := time prev;
            temperature := temperature prev; humidity := value;
            windSpeed := windSpeed prev; waterLevel := waterLevel prev;
            waterQuality := waterQuality prev; observations := observations prev;
            photos := photos prev |}
  | Key.windSpeed =>
      fun value prev =>
         {| title := title prev; description := description prev;
            location := location prev; date := date prev; time := time prev;
            temperature := temperature prev; humidity := humidity prev;
            windSpeed := value; waterLevel := waterLevel prev;
            waterQuality := waterQuality prev; observations := observations prev;
            photos := photos prev |}
  | Key.waterLevel =>
      fun value prev =>
         {| title := title prev; description := description prev;
            location := location prev; date := date prev; time := time prev;
            temperature := temperature prev; humidity := humidity prev;
            windSpeed := windSpeed prev; waterLevel := value;
            waterQuality := waterQuality prev; observations := observations prev;
            photos := photos prev |}
  | Key.waterQuality =>
      fun value prev =>
         {| title := title prev; description := description prev;
            location := location prev; date := date prev; time := time prev;
            temperature := temperature prev; humidity := humidity prev;
            windSpeed := windSpeed prev; waterLevel := waterLevel prev;
            waterQuality := value; observations := observations prev;
            photos := photos prev |}
  | Key.observations =>
      fun value prev =>
         {| title := title prev; description := description prev;
            location := location prev; date := date prev; time := time prev;
            temperature := temperature prev; humidity := humidity prev;
            windSpeed := windSpeed prev; waterLevel := waterLevel prev;
            waterQuality := waterQuality prev; observations := value;
            photos := photos prev |}
  | Key.photos =>
      fun value prev =>
         {| title := title prev; description := description prev;
            location := location prev; date := date prev; time := time prev;
            temperature := temperature prev; humidity := humidity prev;
            windSpeed := windSpeed prev; waterLevel := waterLevel prev;
            waterQuality := waterQuality prev; observations := observations prev;
            photos := value |}
  end.

(** [handleFileUpload]: [files] is [e.target.files], which may be null;
    [setFormData(prev => ({ ...prev, photos: [...prev.photos, ...files] }))] *)
Definition handleFileUpload (files : option (list File)) (prev : CaptureFormData)
  : CaptureFormData :=
  let files := match files with Some l => l | None => [] end in
  {| title := title prev; description := description prev;
     location := location prev; date := date prev; time := time prev;
     temperature := temperature prev; humidity := humidity prev;
     windSpeed := windSpeed prev; waterLevel := waterLevel prev;
     waterQuality := waterQuality prev; observations := observations prev;
     photos := photos prev ++ files |}.

(** The button on the photo at position [index] of the rendered [formData]:
    [handleInputChange('photos', formData.photos.filter((_, i) => i !== index))] *)
Definition removePhoto (index : nat) (formData prev : CaptureFormData)
  : CaptureFormData :=
  let newPhotos :=
    JS.filter_indexed (fun _ i => negb (Nat.eqb i index)) (photos formData) in
  handleInputChange Key.photos newPhotos prev.

End CaptureForm.

(* ===================================================================== *)
(** * Vocabulary of the statements                                        *)
(* ===================================================================== *)

Module Spec.
Import Capture.

(** A key that a fresh object already answers to through its prototype. *)
Definition inherited (k : string) : bool :=
  match JS.assoc JS.prototype_methods k with
  | Some _ => true
  | None => String.eqb k "__proto__"
  end.

(** The number stored under [k], or [0] when there is none. *)
Definition tallied (o : JS.object) (k : string) : Z :=
  match JS.own o k with
  | Some (JS.Num n) => n
  | _ => 0
  end.

(** Every property is a positive number. *)
Definition counter (o : JS.object) : Prop :=
  Forall (fun e => exists n, snd e = JS.Num n /\ 0 < n) o.

(** The counts of the groups of [o], when every group holds a number. *)
Fixpoint counts (o : list (string * JS.value)) : option (list Z) :=
  match o with
  | [] => Some []
  | (_, JS.Num n) :: o' => option_map (cons n) (counts o')
  | (_, JS.Str _) :: _ => None
  end.

Definition sum (l : list Z) : Z := fold_right Z.add 0 l.

(** The numbers stored in [o], added up. *)
Fixpoint total (o : JS.object) : Z :=
  match o with
  | [] => 0
  | (_, JS.Num n) :: o' => n + total o'
  | (_, JS.Str _) :: o' => total o'
  end.

(** How many records of [l] satisfy [p]. *)
Definition how_many {A : Type} (p : A -> bool) (l : list A) : Z :=
  Z.of_nat (List.length (filter p l)).

(** [t] occurs in [s]. *)
Definition substring (t s : string) : Prop :=
  exists before behind, s = (before ++ t ++ behind)%string.



(** The arithmetic mean of a list of numbers as the component computes it:
    summed from the left starting at [0], divided by the length, and [0] for
    the empty list. *)
Definition mean (xs : list JS.number) : JS.number :=
  match xs with
  | [] => JS.pos_zero
  | _ => JS.div (fold_left JS.add xs JS.pos_zero) (JS.of_Z (Z.of_nat (List.length xs)))
  end.

(** *** The numerals of the host language (StringNumericLiteral) *)

(** The digits of a radix. *)
Definition alphabet (radix : Z) : string :=
  if radix =? 2 then "01"
  else if radix =? 8 then "01234567"
  else if radix =? 10 then "0123456789"
  else "0123456789abcdefABCDEF".

Definition digit (radix : Z) (c : ascii) : Prop :=
  In c (list_ascii_of_string (alphabet radix)).

(** One or more digits. *)
Inductive digits (radix : Z) : string -> Prop :=
  | digits_last (c : ascii) :
      digit radix c -> digits radix (String c "")
  | digits_more (c : ascii) (s : string) :
      digit radix c -> digits radix s -> digits radix (String c s).

Definition optional (P : string -> Prop) (s : string) : Prop := s = "" \/ P s.

Definition sign (s : string) : Prop := s = "" \/ s = "+" \/ s = "-".

Inductive ExponentPart : string -> Prop :=
  | exponent_part (e sg ds : string) :
      e = "e" \/ e = "E" -> sign sg -> digits 10 ds ->
      ExponentPart (e ++ sg ++ ds)%string.

Inductive StrUnsignedDecimalLiteral : string -> Prop :=
  | literal_Infinity :
      StrUnsignedDecimalLiteral "Infinity"
  | literal_digits_point (i f x : string) :
      digits 10 i -> optional (digits 10) f -> optional ExponentPart x ->
      StrUnsignedDecimalLiteral (i ++ "." ++ f ++ x)%string
  | literal_point_digits (f x : string) :
      digits 10 f -> optional ExponentPart x ->
      StrUnsignedDecimalLiteral ("." ++ f ++ x)%string
  | literal_digits (i x : string) :
      digits 10 i -> optional ExponentPart x ->
      StrUnsignedDecimalLiteral (i ++ x)%string.

Inductive StrNumericLiteral : string -> Prop :=
  | literal_decimal (sg u : string) :
      sign sg -> StrUnsignedDecimalLiteral u ->
      StrNumericLiteral (sg ++ u)%string
  | literal_non_decimal (p : string) (radix : Z) (ds : string) :
      In (p, radix) JS.radix_prefixes -> digits radix ds ->
      StrNumericLiteral (p ++ ds)%string.

(** A run of texts taken from [ws]. *)
Inductive run_of (ws : list string) : string -> Prop :=
  | run_nil : run_of ws ""
  | run_cons (p s : string) :
      In p ws -> run_of ws s -> run_of ws (p ++ s)%string.

Definition StrWhiteSpace : string -> Prop := run_of JS.StrWhiteSpaceChar.

(** White space, optionally a numeral, white space. *)
Definition StringNumericLiteral (s : string) : Prop :=
  exists a l b,
    s = (a ++ l ++ b)%string
    /\ StrWhiteSpace a /\ optional StrNumericLiteral l /\ StrWhiteSpace b.

(** [s] is empty or begins with a character that is no digit. *)
Definition no_digit_ahead (radix : Z) (s : string) : Prop :=
  match s with
  | EmptyString => True
  | String c _ => JS.digit_value radix c = None
  end.

(** [s] begins with one of the characters of [cs]. *)
Definition begins_with (cs : string) (s : string) : Prop :=
  exists c r, s = String c r /\ In c (list_ascii_of_string cs).

(** A measurement text that is not a numeral. *)
Definition non_numeric (s : string) : Prop := ~ StringNumericLiteral s.

Inductive Measurement : Type := Temperature | Humidity | WindSpeed | WaterLevel.

Definition reading (m : Measurement) (c : CaptureRecord) : string :=
  match m with
  | Temperature => temperature (data c)
  | Humidity => humidity (data c)
  | WindSpeed => windSpeed (data c)
  | WaterLevel => waterLevel (data c)
  end.

Definition averageOf (m : Measurement) (a : Analytics.AnalyticsData) : JS.number :=
  match m with
  | Temperature => Analytics.averageTemperature a
  | Humidity => Analytics.averageHumidity a
  | WindSpeed => Analytics.averageWindSpeed a
  | WaterLevel => Analytics.averageWaterLevel a
  end.

(** [x] may stand before [y] in a list ordered by descending count. *)
Definition descending (x y : Analytics.TopLocation.t) : Prop :=
  exists a b,
    Analytics.TopLocation.count x = JS.Num a
    /\ Analytics.TopLocation.count y = JS.Num b
    /\ b <= a.

(** The count of [e] is the number [n]. *)
Definition has_count (n : Z) (e : Analytics.TopLocation.t) : bool :=
  match Analytics.TopLocation.count e with
  | JS.Num a => a =? n
  | JS.Str _ => false
  end.

(** The options of the time-range selector, with the day counts they
    stand for. *)
Definition ranges : list (string * Z) :=
  [("7", 7); ("30", 30); ("90", 90); ("365", 365)].

(** The records of [l] with their positions [k], [k+1], ... *)
Definition numbered {A : Type} (k : nat) (l : list A) : list (nat * A) :=
  combine (seq k (List.length l)) l.

Section Window.
Variable getTime : string -> option Z.
Variable Date_now : nat -> Z.

(** The record was created no more than [days] days before the clock
    reading taken for position [k]. *)
Definition within (days : Z) (k : nat) (c : CaptureRecord) : bool :=
  match getTime (created_at c) with
  | Some t => Date_now k - t <=? days * Analytics.msPerDay
  | None => false
  end.
End Window.

(** *** Rows, months and refreshes *)

(** The keys of [l] in the order in which they first occur: the first key,
    then the others in the order in which they first occur behind it. *)
Fixpoint distinct (l : list string) : list string :=
  match l with
  | [] => []
  | k :: l' => k :: filter (fun k' => negb (String.eqb k' k)) (distinct l')
  end.

(** The label of [x] reads as a time no later than that of [y]. *)
Definition earlier (getTime : string -> option Z) (x y : string * JS.value) : Prop :=
  exists tx ty, getTime (fst x) = Some tx /\ getTime (fst y) = Some ty /\ tx <= ty.

(** The last fetch of a series that was answered with records. *)
Fixpoint last_success (fetches : list (string * Analytics.Response))
  : option (string * list CaptureRecord) :=
  match fetches with
  | [] => None
  | (timeRange, r) :: rest =>
      match last_success rest, r with
      | Some found, _ => Some found
      | None, Analytics.Data captures => Some (timeRange, captures)
      | None, Analytics.Error _ => None
      end
  end.

End Spec.

Module FormSpec.
Import CaptureForm.

Definition failed (c : Call) : bool :=
  match c with
  | Upload _ _ (Some _) | Insert _ (Some _) => true
  | _ => false
  end.

(** The objects that a run of calls has put into the bucket. *)
Definition stored (made : list Call) : list (string * File) :=
  flat_map (fun c => match c with Upload n p None => [(n, p)] | _ => [] end) made.

(** The rows that a run of calls has put into the table. *)
Definition inserted (made : list Call) : list Row.t :=
  flat_map (fun c => match c with Insert r None => [r] | _ => [] end) made.

(** Uploads that went through, one per photo, in order. *)
Definition uploads (names : list string) (photos : list File) : list Call :=
  map (fun '(n, p) => Upload n p None) (combine names photos).

(** [row] carries every value collected by the form. *)
Definition collects (formData : CaptureFormData) (row : Row.t) : Prop :=
  Row.title row = title formData
  /\ Row.description row = description formData
  /\ Capture.location (Row.data row) = location formData
  /\ Capture.date (Row.data row) = date formData
  /\ Capture.time (Row.data row) = time formData
  /\ Capture.temperature (Row.data row) = temperature formData
  /\ Capture.humidity (Row.data row) = humidity formData
  /\ Capture.windSpeed (Row.data row) = windSpeed formData
  /\ Capture.waterLevel (Row.data row) = waterLevel formData
  /\ Capture.waterQuality (Row.data row) = waterQuality formData
  /\ Capture.observations (Row.data row) = observations formData.

(** The form of the scenario: a title, a location, the date and time the
    form was opened with, nothing else. *)
Definition site_A (date time : string) : CaptureFormData :=
  {| title := "Site A"; description := ""; location := "Lake X";
     date := date; time := time;
     temperature := ""; humidity := ""; windSpeed := ""; waterLevel := "";
     waterQuality := ""; observations := ""; photos := [] |}.

Section Host.
Variable Date_now : nat -> Z.

(** The names under which [photos] are uploaded when the clock has been
    read [tick] times before. *)
Fixpoint fileNames (tick : nat) (photos : list File) : list string :=
  match photos with
  | [] => []
  | photo :: rest =>
      (ToString (Date_now tick) ++ "-" ++ name photo)%string
      :: fileNames (S tick) rest
  end.
End Host.

(** [d'] has the texts of [d]. *)
Definition same_texts (d d' : CaptureFormData) : Prop :=
  title d' = title d
  /\ description d' = description d
  /\ location d' = location d
  /\ date d' = date d
  /\ time d' = time d
  /\ temperature d' = temperature d
  /\ humidity d' = humidity d
  /\ windSpeed d' = windSpeed d
  /\ waterLevel d' = waterLevel d
  /\ waterQuality d' = waterQuality d
  /\ observations d' = observations d.

(** [l] without the element at position [index]. *)
Definition without {A : Type} (index : nat) (l : list A) : list A :=
  firstn index l ++ skipn (S index) l.

(** The photos handed to the object store by a run of calls. *)
Definition uploaded (made : list Call) : list File :=
  flat_map (fun c => match c with Upload _ p _ => [p] | _ => [] end) made.

End FormSpec.

(** Concrete records and a concrete host, for running the components. *)
Module Sample.
Import Capture.

(** The time values of the timestamps used below. *)
Definition epoch : list (string * Z) :=
  [ ("2024-01-01T00:00:00+00:00", 1704067200000);
    ("2024-01-05T00:00:00+00:00", 1704412800000);
    ("2024-01-09T12:00:00+00:00", 1704801600000);
    ("2024-01-10T00:00:00+00:00", 1704844800000) ].

Definition getTime (s : string) : option Z := JS.assoc epoch s.

Definition toLocaleDateString (s : string) : string :=
  match getTime s with
  | Some _ => "Jan 2024"
  | None => "Invalid Date"
  end.

(** A clock that stands at 2024-01-10T00:00:00Z while the records are
    examined. *)
Definition Date_now (k : nat) : Z := 1704844800000.

Definition capture (created_at location temperature waterQuality : string)
    (status : Status) : CaptureRecord :=
  {| id := "";
     title := "Reading";
     description := None;
     status := status;
     created_at := created_at;
     data := {| location := location; date := "2024-01-10"; time := "08:00";
                temperature := temperature; humidity := ""; windSpeed := "";
                waterLevel := ""; waterQuality := waterQuality;
                observations := ""; photoUrls := [] |} |}.

(** Three records, the third older than a week, and one taken at a place
    called "constructor". *)
Definition recent : CaptureRecord :=
  capture "2024-01-09T12:00:00+00:00" "Lake X" "20" "good" draft.

Definition last_week : CaptureRecord :=
  capture "2024-01-05T00:00:00+00:00" "Lake X" "bad" "murky" submitted.

Definition stale : CaptureRecord :=
  capture "2024-01-01T00:00:00+00:00" "Pond" "31.5" "" approved.

Definition at_constructor : CaptureRecord :=
  capture "2024-01-09T12:00:00+00:00" "constructor" "" "" draft.

(** A record whose temperature is a single space. *)
Definition blank : CaptureRecord :=
  capture "2024-01-09T12:00:00+00:00" "Lake X" " " "" draft.

Definition analytics : string -> list CaptureRecord -> Analytics.AnalyticsData :=
  Analytics.analytics getTime toLocaleDateString Date_now.

(** A backend that accepts every call. *)
Definition accept_upload (w : CaptureForm.World) (fileName : string)
    (photo : CaptureForm.File) : option string := None.

Definition accept_insert (w : CaptureForm.World) (row : CaptureForm.Row.t)
  : option string := None.

(** A bucket that refuses the second object. *)
Definition full_after_one (w : CaptureForm.World) (fileName : string)
    (photo : CaptureForm.File) : option string :=
  match CaptureForm.objects w with
  | [] => None
  | _ => Some "Payload too large"
  end.

Definition clock (k : nat) : Z := 1704844800000 + Z.of_nat k.

Definition getPublicUrl (fileName : string) : string :=
  ("https://example.supabase.co/storage/v1/object/public/capture-photos/" ++ fileName)%string.

Definition nothing : CaptureForm.World :=
  {| CaptureForm.objects := []; CaptureForm.captures := [];
     CaptureForm.ticks := 0; CaptureForm.calls := [] |}.

Definition idle : CaptureForm.UI :=
  {| CaptureForm.loading := false; CaptureForm.error := None;
     CaptureForm.success := false; CaptureForm.timers := [] |}.

Definition two_photos : CaptureForm.CaptureFormData :=
  {| CaptureForm.title := "Site A"; CaptureForm.description := "";
     CaptureForm.location := "Lake X";
     CaptureForm.date := "2024-01-10"; CaptureForm.time := "08:00";
     CaptureForm.temperature := "20"; CaptureForm.humidity := "";
     CaptureForm.windSpeed := ""; CaptureForm.waterLevel := "";
     CaptureForm.waterQuality := "good"; CaptureForm.observations := "";
     CaptureForm.photos :=
       [ {| CaptureForm.name := "shore.jpg"; CaptureForm.contents := "a" |};
         {| CaptureForm.name := "gauge.jpg"; CaptureForm.contents := "b" |} ] |}.

(** The same record under another [id]. *)
Definition with_id (id : string) (c : CaptureRecord) : CaptureRecord :=
  {| id := id; title := title c; description := description c; status := status c;
     created_at := created_at c; data := data c |}.

(** A table of two records and a store that accepts every delete and
    answers every select with the rows it holds. *)
Definition table : DataList.World :=
  {| DataList.rows := [with_id "a" recent; with_id "b" last_week];
     DataList.calls := [] |}.

Definition accept_delete (w : DataList.World) (id : string) : option string := None.

Definition select_all (w : DataList.World) (user_id : option string)
  : DataList.Fetched.t :=
  {| DataList.Fetched.data := Some (DataList.rows w);
     DataList.Fetched.error := None |}.

(** A connection that drops the second request it carries. *)
Definition drop_second_call (w : CaptureForm.World) (fileName : string)
    (photo : CaptureForm.File) : option string :=
  if Nat.eqb (List.length (CaptureForm.calls w)) 1 then Some "Failed to fetch" else None.

End Sample.

(* ===================================================================== *)
(** * Facts about the host language                                       *)
(* ===================================================================== *)

Module JSFacts.
Import JS Spec.

Lemma strip_spec (p s r : string) :
  strip p s = Some r <-> s = (p ++ r)%string.
Proof.
  revert s; induction p as [|a p IH]; intros s; simpl.
  - split; [now intros [= ->] | now intros ->].
  - destruct s as [|b s]; [split; discriminate|].
    destruct (Ascii.eqb a b) eqn:E.
    + apply Ascii.eqb_eq in E. subst b. rewrite IH.
      split; [now intros -> | now intros [= ->]].
    + apply Ascii.eqb_neq in E. split; [discriminate | intros [= -> _]; contradiction].
Qed.

(** [includes] decides the substring relation. *)
Lemma includes_spec (s t : string) :
  includes s t = true <-> substring t s.
Proof.
  induction s as [|c s IH]; simpl.
  - destruct (strip t "") as [r|] eqn:P.
    + split; [intros _ | reflexivity].
      apply strip_spec in P. now exists "", r.
    + split; [discriminate|].
      intros [a [b H]]. destruct a; [|discriminate].
      simpl in H. apply strip_spec in H. congruence.
  - destruct (strip t (String c s)) as [r|] eqn:P.
    + split; [intros _ | reflexivity].
      apply strip_spec in P. now exists "", r.
    + rewrite IH. split.
      * intros [a [b H]]. exists (String c a), b. now rewrite H.
      * intros [a [b H]]. destruct a as [|c' a].
        -- simpl in H. apply strip_spec in H. congruence.
        -- inversion H. now exists a, b.
Qed.

(** White space is stripped for as long as there is some: the length of the
    text is fuel enough. *)
Lemma strip_length (p : string) :
  forall s r, strip p s = Some r ->
              String.length s = (String.length p + String.length r)%nat.
Proof.
  induction p as [|a p IH]; intros s r; simpl.
  - now intros [= ->].
  - destruct s as [|b s]; [discriminate|].
    destruct (Ascii.eqb a b); [|discriminate].
    intros H. simpl. now rewrite (IH _ _ H).
Qed.

Lemma strip_shorter (p s r : string) :
  p <> "" -> strip p s = Some r -> (String.length r < String.length s)%nat.
Proof.
  intros Hp H. apply strip_length in H. rewrite H.
  destruct p as [|a p]; [contradiction | simpl; lia].
Qed.

Lemma strip_any_shorter (ws : list string) (s r : string) :
  Forall (fun p => p <> "") ws ->
  strip_any ws s = Some r -> (String.length r < String.length s)%nat.
Proof.
  intros F. induction F as [|p ws Hp F IH]; simpl; [discriminate|].
  destruct (strip p s) as [r'|] eqn:E; [|exact IH].
  intros [= <-]. now apply (strip_shorter p).
Qed.

Lemma trim_with_done (ws : list string) (fuel : nat) :
  Forall (fun p => p <> "") ws ->
  forall s, (String.length s <= fuel)%nat ->
            strip_any ws (trim_with ws fuel s) = None.
Proof.
  intros F. induction fuel as [|fuel IH]; intros s Hs; simpl.
  - destruct s; [|simpl in Hs; lia].
    clear Hs. induction F as [|p ws Hp F IHws]; simpl; [reflexivity|].
    destruct p; [contradiction | exact IHws].
  - destruct (strip_any ws s) as [r|] eqn:E; [|exact E].
    apply IH. pose proof (strip_any_shorter _ _ _ F E). lia.
Qed.

Lemma StrWhiteSpaceChar_nonempty : Forall (fun p => p <> "") StrWhiteSpaceChar.
Proof. repeat constructor; discriminate. Qed.

(** No white space is left at the head of a text trimmed at the start. *)
Lemma trimStart_done (s : string) : strip_any StrWhiteSpaceChar (trimStart s) = None.
Proof.
  apply trim_with_done; [apply StrWhiteSpaceChar_nonempty | apply Nat.le_refl].
Qed.

(** *** Reading a property after a write *)

(** The step shared by the lemmas below: a key other than the one written
    reads as before. *)
Ltac other_key k0 k' E :=
  let E' := fresh "E" in
  destruct (String.eqb k0 k') eqn:E'; [|reflexivity];
  apply String.eqb_eq in E'; subst k'; rewrite String.eqb_sym; now rewrite E.

Lemma own_replace o k v k' :
  own o k <> None ->
  own (replace o k v) k' = if String.eqb k k' then Some v else own o k'.
Proof.
  induction o as [|[k0 v0] o IH]; simpl; intros H; [congruence|].
  destruct (String.eqb k0 k) eqn:E; simpl.
  - apply String.eqb_eq in E. subst k0. now destruct (String.eqb k k').
  - rewrite (IH H). other_key k0 k' E.
Qed.

Lemma own_insert_index i k v o k' :
  own o k = None ->
  own (insert_index i k v o) k' = if String.eqb k k' then Some v else own o k'.
Proof.
  induction o as [|[k0 v0] o IH]; simpl; intros H; [reflexivity|].
  destruct (String.eqb k0 k) eqn:E; [discriminate|].
  destruct (array_index k0) as [j|]; [destruct (j <? i)|]; simpl; try reflexivity.
  rewrite (IH H). other_key k0 k' E.
Qed.

Lemma own_append o k v k' :
  own o k = None ->
  own (o ++ [(k, v)]) k' = if String.eqb k k' then Some v else own o k'.
Proof.
  induction o as [|[k0 v0] o IH]; simpl; intros H; [reflexivity|].
  destruct (String.eqb k0 k) eqn:E; [discriminate|].
  rewrite (IH H). other_key k0 k' E.
Qed.

Lemma own_Put o k v k' :
  String.eqb k "__proto__" = false ->
  own (Put o k v) k' = if String.eqb k k' then Some v else own o k'.
Proof.
  intros P. unfold Put. rewrite P.
  destruct (own o k) eqn:O.
  - apply own_replace. congruence.
  - destruct (array_index k); [now apply own_insert_index | now apply own_append].
Qed.

(** *** Counters under plain keys *)

Lemma Get_plain o k :
  inherited k = false ->
  Get o k = match own o k with Some v => GValue v | None => GUndefined end.
Proof.
  unfold Get, inherited. intros H. destruct (own o k); [reflexivity|].
  destruct (assoc prototype_methods k); [discriminate|]. now rewrite H.
Qed.

Lemma inherited_proto k : inherited k = false -> String.eqb k "__proto__" = false.
Proof. unfold inherited. now destruct (assoc prototype_methods k). Qed.

Lemma counter_own o k v :
  counter o -> own o k = Some v -> exists n, v = Num n /\ 0 < n.
Proof.
  intros C. induction C as [|[k0 v0] o H C IH]; simpl; [discriminate|].
  destruct (String.eqb k0 k); [intros [= <-]; exact H | exact IH].
Qed.

Lemma counter_own_none o k :
  counter o -> (own o k = None <-> tallied o k = 0).
Proof.
  intros C. unfold tallied. destruct (own o k) as [v|] eqn:O.
  - destruct (counter_own _ _ _ C O) as [n [-> Hn]]. split; [discriminate | lia].
  - split; reflexivity.
Qed.

Lemma counter_counts o :
  counter o -> exists ns, counts o = Some ns /\ sum ns = total o.
Proof.
  intros C. induction C as [|[k0 v0] o H C IH]; simpl.
  - now exists [].
  - destruct H as [n [H _]]. simpl in H. subst v0.
    destruct IH as [ns [-> Hs]]. exists (n :: ns). simpl. now rewrite Hs.
Qed.

Lemma counter_replace o k n :
  counter o -> 0 < n -> counter (replace o k (Num n)).
Proof.
  intros C Hn. induction C as [|[k0 v0] o H C IH]; simpl; [constructor|].
  destruct (String.eqb k0 k); constructor; try assumption.
  now exists n.
Qed.

Lemma counter_insert_index i o k n :
  counter o -> 0 < n -> counter (insert_index i k (Num n) o).
Proof.
  intros C Hn. assert (E : exists m, snd (k, Num n) = Num m /\ 0 < m) by now exists n.
  induction C as [|[k0 v0] o H C IH]; simpl.
  - now repeat constructor.
  - destruct (array_index k0) as [j|]; [destruct (j <? i)|];
      repeat (constructor; try assumption).
Qed.

Lemma counter_Put o k n :
  counter o -> 0 < n -> counter (Put o k (Num n)).
Proof.
  intros C Hn. unfold Put. destruct (String.eqb k "__proto__"); [assumption|].
  destruct (own o k); [now apply counter_replace|].
  destruct (array_index k); [now apply counter_insert_index|].
  apply Forall_app. split; [assumption|]. repeat constructor. now exists n.
Qed.

Lemma total_replace o k n m :
  own o k = Some (Num n) -> total (replace o k (Num m)) = total o - n + m.
Proof.
  induction o as [|[k0 v0] o IH]; simpl; [discriminate|].
  destruct (String.eqb k0 k).
  - intros [= ->]. simpl. lia.
  - intros H. simpl. rewrite (IH H). destruct v0; lia.
Qed.

Lemma total_insert_index i o k m :
  total (insert_index i k (Num m) o) = total o + m.
Proof.
  induction o as [|[k0 v0] o IH]; simpl; [lia|].
  destruct (array_index k0) as [j|]; [destruct (j <? i)|]; simpl;
    try rewrite IH; destruct v0; lia.
Qed.

Lemma total_append o k m : total (o ++ [(k, Num m)]) = total o + m.
Proof.
  induction o as [|[k0 v0] o IH]; simpl; [lia|]. rewrite IH. destruct v0; lia.
Qed.

(** Under a plain key a counter is bumped by one. *)
Lemma bump_plain o k :
  inherited k = false -> counter o -> bump o k = Put o k (Num (tallied o k + 1)).
Proof.
  intros P C. unfold bump, tallied. rewrite (Get_plain _ _ P).
  destruct (own o k) as [v|] eqn:O; [|reflexivity].
  destruct (counter_own _ _ _ C O) as [n [-> Hn]]. simpl.
  destruct (n =? 0) eqn:E; [apply Z.eqb_eq in E; lia | reflexivity].
Qed.

Lemma tallied_nonneg o k : counter o -> 0 <= tallied o k.
Proof.
  intros C. unfold tallied. destruct (own o k) as [v|] eqn:O; [|lia].
  destruct (counter_own _ _ _ C O) as [n [-> Hn]]. lia.
Qed.

Lemma counter_bump o k :
  inherited k = false -> counter o -> counter (bump o k).
Proof.
  intros P C. rewrite (bump_plain _ _ P C). apply counter_Put; [assumption|].
  pose proof (tallied_nonneg o k C). lia.
Qed.

Lemma total_bump o k :
  inherited k = false -> counter o -> total (bump o k) = total o + 1.
Proof.
  intros P C. rewrite (bump_plain _ _ P C). unfold Put, tallied.
  rewrite (inherited_proto _ P).
  destruct (own o k) as [v|] eqn:O.
  - destruct (counter_own _ _ _ C O) as [n [-> Hn]].
    rewrite (total_replace _ _ n) by assumption. lia.
  - destruct (array_index k); [rewrite total_insert_index | rewrite total_append]; lia.
Qed.

Lemma tallied_bump o k k' :
  inherited k = false -> counter o ->
  tallied (bump o k) k' = tallied o k' + (if String.eqb k k' then 1 else 0).
Proof.
  intros P C. rewrite (bump_plain _ _ P C). unfold tallied at 1.
  rewrite (own_Put _ _ _ _ (inherited_proto _ P)).
  destruct (String.eqb k k') eqn:E.
  - apply String.eqb_eq in E. now subst k'.
  - fold (tallied o k'). lia.
Qed.

Lemma how_many_cons {A : Type} (p : A -> bool) (a : A) (l : list A) :
  how_many p (a :: l) = (if p a then 1 else 0) + how_many p l.
Proof.
  unfold how_many. cbn [filter]. destruct (p a); cbn [List.length]; lia.
Qed.

Lemma how_many_nonneg {A : Type} (p : A -> bool) (l : list A) : 0 <= how_many p l.
Proof. unfold how_many. lia. Qed.

(** *** Keys stay distinct *)

Lemma own_None_keys o k : own o k = None <-> ~ In k (map fst o).
Proof.
  induction o as [|[k0 v0] o IH]; simpl; [tauto|].
  destruct (String.eqb k0 k) eqn:E.
  - apply String.eqb_eq in E. split; [discriminate | intros H; exfalso; apply H; now left].
  - apply String.eqb_neq in E. rewrite IH. tauto.
Qed.

Lemma own_In o k v : NoDup (map fst o) -> In (k, v) o -> own o k = Some v.
Proof.
  induction o as [|[k0 v0] o IH]; simpl; [tauto|].
  intros N [H|H]; inversion N as [|? ? Hn N']; subst.
  - inversion H; subst. now rewrite String.eqb_refl.
  - destruct (String.eqb k0 k) eqn:E; [|now apply IH].
    apply String.eqb_eq in E. subst k0. exfalso. apply Hn.
    apply (in_map fst) in H. exact H.
Qed.

Lemma keys_replace o k v : map fst (replace o k v) = map fst o.
Proof.
  induction o as [|[k0 v0] o IH]; simpl; [reflexivity|].
  destruct (String.eqb k0 k); simpl; [reflexivity | now rewrite IH].
Qed.

Lemma keys_insert_index i o k v :
  forall k', In k' (map fst (insert_index i k v o)) <-> k' = k \/ In k' (map fst o).
Proof.
  intros k'. induction o as [|[k0 v0] o IH]; simpl; [intuition|].
  destruct (array_index k0) as [j|]; [destruct (j <? i)|]; simpl; rewrite ?IH; intuition.
Qed.

Lemma NoDup_insert_index i o k v :
  NoDup (map fst o) -> ~ In k (map fst o) -> NoDup (map fst (insert_index i k v o)).
Proof.
  induction o as [|[k0 v0] o IH]; simpl; intros N H.
  - repeat constructor. intros [].
  - inversion N as [|? ? Hn N']; subst.
    assert (NoDup (k :: k0 :: map fst o)) by (constructor; [exact H | exact N]).
    destruct (array_index k0) as [j|]; [destruct (j <? i)|]; simpl; try assumption.
    constructor.
    + rewrite keys_insert_index. intros [->|Hin]; [apply H; now left | now apply Hn].
    + apply IH; [assumption | intros Hin; apply H; now right].
Qed.

Lemma NoDup_Put o k v : NoDup (map fst o) -> NoDup (map fst (Put o k v)).
Proof.
  intros N. unfold Put. destruct (String.eqb k "__proto__"); [assumption|].
  destruct (own o k) eqn:O; [now rewrite keys_replace|].
  apply own_None_keys in O.
  destruct (array_index k); [now apply NoDup_insert_index|].
  rewrite map_app. cbn [map fst]. apply NoDup_app; [assumption | repeat constructor; intros [] |].
  intros x Hx [<-|[]]. contradiction.
Qed.

(** *** The stable sort *)

Lemma insert_sorted_In {A : Type} (cmp : A -> A -> result) (x z : A) (l : list A) :
  In z (insert_sorted cmp x l) <-> z = x \/ In z l.
Proof.
  induction l as [|y l IH]; simpl; [intuition|].
  destruct (above_zero (cmp x y)); simpl; rewrite ?IH; intuition.
Qed.

Lemma insert_sorted_perm {A : Type} (cmp : A -> A -> result) (x : A) (l : list A) :
  Permutation (insert_sorted cmp x l) (x :: l).
Proof.
  induction l as [|y l IH]; simpl; [reflexivity|].
  destruct (above_zero (cmp x y)); [|reflexivity].
  rewrite IH. apply perm_swap.
Qed.

Lemma sort_perm {A : Type} (cmp : A -> A -> result) (l : list A) :
  Permutation (sort cmp l) l.
Proof.
  induction l as [|x l IH]; simpl; [reflexivity|].
  rewrite insert_sorted_perm. now constructor.
Qed.

Lemma StronglySorted_firstn {A : Type} (R : A -> A -> Prop) (n : nat) (l : list A) :
  StronglySorted R l -> StronglySorted R (firstn n l).
Proof.
  intros S. revert n. induction S as [|x l S IH F]; intros [|n]; simpl; try constructor.
  - apply IH.
  - rewrite Forall_forall in *. intros y Hy. apply F.
    rewrite <- (firstn_skipn n l). apply in_or_app. now left.
Qed.

End JSFacts.

(* ===================================================================== *)
(** * Rounding never yields NaN                                           *)
(* ===================================================================== *)

Module RoundingFacts.
Import SpecFloat.

(** Shifting and rounding a mantissa that is not negative gives a mantissa
    that is not negative, so the result of rounding is a number. *)

Lemma shr_1_nonneg mrs : 0 <= shr_m mrs -> 0 <= shr_m (shr_1 mrs).
Proof.
  destruct mrs as [m r s]. cbn [shr_m]. intros H. unfold shr_1.
  destruct m as [|p|p]; [cbn; lia | | lia].
  destruct p; cbn; lia.
Qed.

Lemma iter_shr_1_nonneg (p : positive) :
  forall mrs, 0 <= shr_m mrs -> 0 <= shr_m (iter_pos shr_1 p mrs).
Proof.
  induction p as [p IH|p IH|]; intros mrs H; cbn [iter_pos].
  - apply IH, IH, shr_1_nonneg, H.
  - apply IH, IH, H.
  - apply shr_1_nonneg, H.
Qed.

Lemma shr_fexp_nonneg prec emax m e l :
  0 <= m -> 0 <= shr_m (fst (shr_fexp prec emax m e l)).
Proof.
  intros H. unfold shr_fexp, shr.
  assert (M : shr_m (shr_record_of_loc m l) = m) by (destruct l as [|[]]; reflexivity).
  destruct (fexp prec emax (Zdigits2 m + e) - e) as [|p|p]; cbn [fst]; rewrite ?M; try assumption.
  apply iter_shr_1_nonneg. now rewrite M.
Qed.

Lemma round_nearest_even_nonneg m l : 0 <= m -> 0 <= round_nearest_even m l.
Proof.
  intros H. unfold round_nearest_even. destruct l as [|[]]; try assumption; [|lia].
  destruct (Z.even m); lia.
Qed.

Lemma binary_round_aux_number prec emax sx mx ex lx :
  0 <= mx -> JS.isNaN (binary_round_aux prec emax sx mx ex lx) = false.
Proof.
  intros H. unfold binary_round_aux.
  pose proof (shr_fexp_nonneg prec emax mx ex lx H) as H1.
  destruct (shr_fexp prec emax mx ex lx) as [mrs' e']. cbn [fst] in H1.
  pose proof (shr_fexp_nonneg prec emax _ e' loc_Exact
                (round_nearest_even_nonneg _ (loc_of_shr_record mrs') H1)) as H2.
  destruct (shr_fexp prec emax (round_nearest_even (shr_m mrs') (loc_of_shr_record mrs')) e' loc_Exact)
    as [mrs'' e'']. cbn [fst] in H2.
  destruct (shr_m mrs'') as [|p|p]; [reflexivity | | lia].
  now destruct (e'' <=? emax - prec).
Qed.

Lemma binary_round_number prec emax sx mx ex :
  JS.isNaN (binary_round prec emax sx mx ex) = false.
Proof.
  unfold binary_round. destruct (shl_align mx ex _) as [mz ez].
  apply binary_round_aux_number. lia.
Qed.

Lemma binary_normalize_number prec emax z e sz :
  JS.isNaN (binary_normalize prec emax z e sz) = false.
Proof.
  unfold binary_normalize. destruct z; [reflexivity | |]; apply binary_round_number.
Qed.

Lemma of_Z_number z : JS.isNaN (JS.of_Z z) = false.
Proof. apply binary_normalize_number. Qed.

Lemma SFdiv_core_nonneg prec emax m1 e1 m2 e2 :
  0 <= m1 -> 0 < m2 ->
  0 <= fst (fst (SFdiv_core_binary prec emax m1 e1 m2 e2)).
Proof.
  intros H1 H2. unfold SFdiv_core_binary.
  set (s := e1 - e2 - _).
  set (m' := match s with Z0 => m1 | Zpos _ => Z.shiftl m1 s | Zneg _ => 0 end).
  assert (M : 0 <= m').
  { unfold m'. destruct s; [assumption | | lia]. now apply Z.shiftl_nonneg. }
  pose proof (Z.div_pos m' m2 M H2) as Q. unfold Z.div in Q.
  destruct (Z.div_eucl m' m2) as [q r]. exact Q.
Qed.

Lemma round_decimal_number neg m nd e : 0 <= m -> JS.isNaN (JS.round_decimal neg m nd e) = false.
Proof.
  intros H. unfold JS.round_decimal.
  destruct (m =? 0); [reflexivity|].
  destruct (310 <=? e); [reflexivity|].
  destruct (e + Z.of_nat nd <=? -324); [reflexivity|].
  destruct (0 <=? e) eqn:E; [apply binary_normalize_number|].
  apply Z.leb_gt in E.
  pose proof (SFdiv_core_nonneg JS.prec JS.emax m 0 (10 ^ (- e)) 0 H) as Q.
  destruct (SFdiv_core_binary JS.prec JS.emax m 0 (10 ^ (- e)) 0) as [[q e'] l].
  apply binary_round_aux_number. apply Q. apply Z.pow_pos_nonneg; lia.
Qed.

End RoundingFacts.

(* ===================================================================== *)
(** * What [Number] reads is a numeral                                    *)
(* ===================================================================== *)

Module NumeralFacts.
Import JS Spec JSFacts RoundingFacts.

Lemma append_assoc (a b c : string) : ((a ++ b) ++ c = a ++ b ++ c)%string.
Proof. induction a as [|x a IH]; simpl; [reflexivity | now rewrite IH]. Qed.

Lemma append_nil_r (a : string) : (a ++ "" = a)%string.
Proof. induction a as [|x a IH]; simpl; [reflexivity | now rewrite IH]. Qed.

(** Every character with a digit value is in the alphabet of the radix. *)
Lemma digit_value_digit (radix : Z) (c : ascii) (d : Z) :
  In radix [2; 8; 10; 16] -> digit_value radix c = Some d -> digit radix c.
Proof.
  intros R D.
  assert (T : forallb
                (fun n => match digit_value radix (ascii_of_nat n) with
                          | Some _ => existsb (Ascii.eqb (ascii_of_nat n))
                                              (list_ascii_of_string (alphabet radix))
                          | None => true
                          end) (seq 0 256) = true).
  { destruct R as [<-|[<-|[<-|[<-|[]]]]]; vm_compute; reflexivity. }
  rewrite forallb_forall in T. specialize (T (nat_of_ascii c)).
  rewrite ascii_nat_embedding, D in T.
  assert (B : In (nat_of_ascii c) (seq 0 256))
    by (apply in_seq; pose proof (nat_ascii_bounded c); lia).
  apply T, existsb_exists in B. destruct B as [c' [Hin E]].
  apply Ascii.eqb_eq in E. subst c'. exact Hin.
Qed.

Lemma read_digits_sound (radix : Z) :
  In radix [2; 8; 10; 16] ->
  forall (s : string) (acc : Z) (n : nat) (v : Z) (n' : nat) (rest : string),
    read_digits radix s acc n = (v, n', rest) ->
    exists ds, s = (ds ++ rest)%string
               /\ n' = (n + String.length ds)%nat
               /\ optional (digits radix) ds.
Proof.
  intros R. induction s as [|c s IH]; intros acc n v n' rest; simpl.
  - intros [= <- <- <-]. exists "".
    split; [reflexivity|]. split; [simpl; lia | now left].
  - destruct (digit_value radix c) as [d|] eqn:D.
    + intros H. apply IH in H. destruct H as (ds & -> & -> & O).
      exists (String c ds). split; [reflexivity|]. split; [simpl; lia|].
      right. pose proof (digit_value_digit _ _ _ R D).
      destruct O as [->|O]; [now apply digits_last | now apply digits_more].
    + intros [= <- <- <-]. exists "".
      split; [reflexivity|]. split; [simpl; lia | now left].
Qed.

(** A non-empty reading is a run of digits. *)
Lemma read_digits_some (radix : Z) (s : string) (v : Z) (k : nat) (rest : string) :
  In radix [2; 8; 10; 16] ->
  read_digits radix s 0 0 = (v, S k, rest) ->
  exists ds, s = (ds ++ rest)%string /\ digits radix ds.
Proof.
  intros R H. destruct (read_digits_sound _ R _ _ _ _ _ _ H) as (ds & E & L & [->|O]).
  - discriminate.
  - now exists ds.
Qed.

Lemma read_sign_sound (s : string) (neg : bool) (r : string) :
  read_sign s = (neg, r) -> exists sg, sign sg /\ s = (sg ++ r)%string.
Proof.
  unfold read_sign.
  destruct (strip "+" s) as [r'|] eqn:P; [|destruct (strip "-" s) as [r'|] eqn:M].
  - intros [= <- <-]. apply strip_spec in P. exists "+". split; [right; now left | exact P].
  - intros [= <- <-]. apply strip_spec in M. exists "-". split; [right; now right | exact M].
  - intros [= <- <-]. exists "". split; [now left | reflexivity].
Qed.

Lemma read_exponent_sound (s : string) (x : Z) :
  read_exponent s = Some x -> optional ExponentPart s.
Proof.
  destruct s as [|c s]; [now left|]. right. revert H. unfold read_exponent.
  destruct (Ascii.eqb c "e" || Ascii.eqb c "E")%bool eqn:E; [|discriminate].
  destruct (read_sign s) as [neg r] eqn:Sg.
  destruct (read_digits 10 r 0 0) as [[v [|k]] rest] eqn:D; [discriminate|].
  destruct rest; [|discriminate]. intros _.
  apply read_sign_sound in Sg. destruct Sg as (sg & Hsg & ->).
  apply read_digits_some in D; [|cbn; tauto]. destruct D as (ds & -> & Hds).
  rewrite append_nil_r.
  change (String c (sg ++ ds)) with (String c "" ++ sg ++ ds)%string.
  apply exponent_part; try assumption.
  apply orb_true_iff in E. destruct E as [E|E]; apply Ascii.eqb_eq in E; subst c; tauto.
Qed.

Lemma read_decimal_sound (neg : bool) (s : string) :
  isNaN (read_decimal neg s) = false -> StrUnsignedDecimalLiteral s.
Proof.
  unfold read_decimal.
  destruct (read_digits 10 s 0 0) as [[ip ni] r1] eqn:D1.
  assert (R : In 10 [2; 8; 10; 16]) by (cbn; tauto).
  destruct (read_digits_sound _ R _ _ _ _ _ _ D1) as (i & -> & -> & Oi).
  cbn [Nat.add].
  destruct (strip "." r1) as [r|] eqn:P.
  - apply strip_spec in P. subst r1.
    destruct (read_digits 10 r ip 0) as [[m nf] r2] eqn:D2.
    destruct (read_digits_sound _ R _ _ _ _ _ _ D2) as (f & -> & -> & Of).
    cbn [Nat.add].
    destruct (String.length i + String.length f)%nat eqn:L; [discriminate|].
    destruct (read_exponent r2) as [x|] eqn:X; [|discriminate]. intros _.
    apply read_exponent_sound in X.
    destruct Oi as [->|Oi].
    + destruct Of as [->|Of]; [discriminate|]. now apply literal_point_digits.
    + now apply literal_digits_point.
  - destruct (String.length i + 0)%nat eqn:L; [discriminate|].
    destruct (read_exponent r1) as [x|] eqn:X; [|discriminate]. intros _.
    apply read_exponent_sound in X.
    destruct Oi as [->|Oi]; [discriminate|]. now apply literal_digits.
Qed.

Lemma read_radix_sound (radix : Z) (s : string) :
  In radix [2; 8; 10; 16] -> isNaN (read_radix radix s) = false -> digits radix s.
Proof.
  intros R. unfold read_radix.
  destruct (read_digits radix s 0 0) as [[v [|k]] rest] eqn:D; [discriminate|].
  destruct rest; [|discriminate]. intros _.
  apply read_digits_some in D; [|exact R]. destruct D as (ds & -> & Hds).
  now rewrite append_nil_r.
Qed.

Lemma strip_radix_sound (ps : list (string * Z)) (t : string) (radix : Z) (r : string) :
  strip_radix ps t = Some (radix, r) ->
  exists p, In (p, radix) ps /\ t = (p ++ r)%string.
Proof.
  induction ps as [|[p x] ps IH]; simpl; [discriminate|].
  destruct (strip p t) as [r'|] eqn:P.
  - intros [= <- <-]. apply strip_spec in P. exists p. split; [now left | exact P].
  - intros H. destruct (IH H) as (p' & Hin & E). exists p'. split; [now right | exact E].
Qed.

(** *** Trimming takes white space away, and nothing else *)

Lemma run_of_snoc (ws : list string) (a p : string) :
  run_of ws a -> In p ws -> run_of ws (a ++ p)%string.
Proof.
  intros Ra Hp. induction Ra as [|q s Hq Rs IH]; simpl.
  - rewrite <- (append_nil_r p). apply run_cons; [exact Hp | constructor].
  - rewrite append_assoc. now apply run_cons.
Qed.

Lemma trim_with_sound (ws : list string) (fuel : nat) :
  forall s, exists a, run_of ws a /\ s = (a ++ trim_with ws fuel s)%string.
Proof.
  induction fuel as [|fuel IH]; intros s; simpl.
  - exists "". split; [constructor | reflexivity].
  - destruct (strip_any ws s) as [r|] eqn:E.
    + assert (exists p, In p ws /\ s = (p ++ r)%string) as (p & Hp & ->).
      { clear IH. induction ws as [|q ws IHws]; simpl in E; [discriminate|].
        destruct (strip q s) as [r'|] eqn:Q.
        - inversion E; subst. apply strip_spec in Q. exists q. split; [now left | exact Q].
        - destruct (IHws E) as (p & Hp & Hs). exists p. split; [now right | exact Hs]. }
      destruct (IH r) as (a & Ra & Hr). exists (p ++ a)%string.
      split; [now apply run_cons|]. rewrite append_assoc. now rewrite <- Hr.
    + exists "". split; [constructor | reflexivity].
Qed.

Lemma list_ascii_of_string_app (a b : string) :
  list_ascii_of_string (a ++ b) = list_ascii_of_string a ++ list_ascii_of_string b.
Proof. induction a as [|x a IH]; simpl; [reflexivity | now rewrite IH]. Qed.

Lemma string_of_list_ascii_app (l1 l2 : list ascii) :
  string_of_list_ascii (l1 ++ l2)
  = (string_of_list_ascii l1 ++ string_of_list_ascii l2)%string.
Proof. induction l1 as [|x l1 IH]; simpl; [reflexivity | now rewrite IH]. Qed.

Lemma string_rev_app (a b : string) :
  string_rev (a ++ b) = (string_rev b ++ string_rev a)%string.
Proof.
  unfold string_rev. now rewrite list_ascii_of_string_app, rev_app_distr,
    string_of_list_ascii_app.
Qed.

Lemma string_rev_involutive (s : string) : string_rev (string_rev s) = s.
Proof.
  unfold string_rev. rewrite list_ascii_of_string_of_list_ascii, rev_involutive.
  apply string_of_list_ascii_of_string.
Qed.

Lemma run_of_rev (ws : list string) (a : string) :
  run_of (map string_rev ws) a -> run_of ws (string_rev a).
Proof.
  intros Ra. induction Ra as [|q s Hq Rs IH]; [constructor|].
  apply in_map_iff in Hq. destruct Hq as (p & <- & Hp).
  rewrite string_rev_app, string_rev_involutive. now apply run_of_snoc.
Qed.

Lemma trim_sound (s : string) :
  exists a b, StrWhiteSpace a /\ StrWhiteSpace b /\ s = (a ++ trim s ++ b)%string.
Proof.
  unfold trim, trimStart.
  destruct (trim_with_sound StrWhiteSpaceChar (String.length s) s) as (a & Ra & Hs).
  set (t := trim_with StrWhiteSpaceChar (String.length s) s) in *.
  unfold trimEnd.
  destruct (trim_with_sound (map string_rev StrWhiteSpaceChar) (String.length t)
              (string_rev t)) as (b' & Rb & Ht).
  set (u := trim_with (map string_rev StrWhiteSpaceChar) (String.length t) (string_rev t)) in *.
  exists a, (string_rev b'). split; [exact Ra|]. split; [now apply run_of_rev|].
  rewrite <- string_rev_app, <- Ht, string_rev_involutive. exact Hs.
Qed.

(** Whatever [Number] reads as a number is a numeral of the language: a text
    that is not one reads as NaN. *)
Lemma Number_sound (s : string) :
  isNaN (Number s) = false -> StringNumericLiteral s.
Proof.
  unfold Number. destruct (trim_sound s) as (a & b & Ra & Rb & Hs).
  set (t := trim s) in *. intros H.
  exists a. destruct (String.eqb t "") eqn:E.
  - apply String.eqb_eq in E. exists "", b. rewrite E in Hs.
    repeat split; try assumption. now left.
  - exists t, b. repeat split; try assumption. right.
    destruct (strip_radix radix_prefixes t) as [[radix r]|] eqn:P.
    + apply strip_radix_sound in P. destruct P as (p & Hin & ->).
      apply literal_non_decimal with (radix := radix); [exact Hin|].
      apply read_radix_sound; [|exact H].
      cbn in Hin. cbn.
      repeat (destruct Hin as [Hin|Hin]; [inversion Hin; tauto|]). contradiction.
    + destruct (read_sign t) as [neg r] eqn:Sg.
      apply read_sign_sound in Sg. destruct Sg as (sg & Hsg & ->).
      apply literal_decimal; [exact Hsg|].
      destruct (String.eqb r "Infinity") eqn:I.
      * apply String.eqb_eq in I. subst r. constructor.
      * now apply (read_decimal_sound neg).
Qed.

(** *** Every numeral is read *)

Lemma digit_digit_value (radix : Z) (c : ascii) :
  In radix [2; 8; 10; 16] -> digit radix c -> exists d, digit_value radix c = Some d.
Proof.
  unfold digit. intros R H.
  destruct R as [<-|[<-|[<-|[<-|[]]]]]; cbn in H;
    repeat (destruct H as [<-|H]; [eexists; reflexivity|]); contradiction.
Qed.

Lemma digit_value_nonneg (radix : Z) (c : ascii) (d : Z) :
  digit_value radix c = Some d -> 0 <= d.
Proof.
  unfold digit_value. set (n := Z.of_nat (nat_of_ascii c)).
  destruct ((48 <=? n) && (n <=? 57)) eqn:A;
    [|destruct ((97 <=? n) && (n <=? 122)) eqn:B;
      [|destruct ((65 <=? n) && (n <=? 90)) eqn:C; [|discriminate]]];
    match goal with |- context [?x <? radix] => destruct (x <? radix) end;
    try discriminate; intros [= <-];
    match goal with H : _ && _ = true |- _ => apply andb_true_iff in H; destruct H as [H _];
      apply Z.leb_le in H end; lia.
Qed.

Lemma read_digits_nonneg (radix : Z) :
  0 <= radix ->
  forall s acc n v n' rest,
    read_digits radix s acc n = (v, n', rest) -> 0 <= acc -> 0 <= v.
Proof.
  intros R. induction s as [|c s IH]; intros acc n v n' rest; simpl.
  - now intros [= <- _ _].
  - destruct (digit_value radix c) as [d|] eqn:D.
    + intros H A. apply (IH _ _ _ _ _ H).
      pose proof (digit_value_nonneg _ _ _ D). nia.
    + now intros [= <- _ _].
Qed.

Lemma read_digits_stop (radix : Z) (s : string) (acc : Z) (n : nat) :
  no_digit_ahead radix s -> read_digits radix s acc n = (acc, n, s).
Proof. destruct s as [|c s]; simpl; [reflexivity | now intros ->]. Qed.

Lemma read_digits_complete (radix : Z) (ds rest : string) :
  In radix [2; 8; 10; 16] -> digits radix ds -> no_digit_ahead radix rest ->
  forall acc n, exists v,
    read_digits radix (ds ++ rest) acc n = (v, (n + String.length ds)%nat, rest).
Proof.
  intros R D Hs. induction D as [c Hc|c s Hc D IH]; intros acc n; simpl;
    destruct (digit_digit_value _ _ R Hc) as [d ->].
  - rewrite (read_digits_stop _ _ _ _ Hs). eexists. f_equal. f_equal. lia.
  - destruct (IH (radix * acc + d) (S n)) as [v ->]. eexists. f_equal. f_equal. lia.
Qed.

Lemma digits_first (radix : Z) (ds : string) :
  digits radix ds -> exists c r, ds = String c r /\ digit radix c.
Proof. intros [c H|c s H _]; eexists; eexists; split; eauto. Qed.

Lemma digits_length (radix : Z) (ds : string) :
  digits radix ds -> exists k, String.length ds = S k.
Proof. intros [c H|c s H _]; simpl; eauto. Qed.

Lemma exponent_first (x : string) :
  ExponentPart x -> exists c r, x = String c r /\ (c = "e" \/ c = "E")%char.
Proof.
  intros [e sg ds [->| ->] _ _]; simpl; eauto.
Qed.

Lemma optional_exponent_ahead (x : string) :
  optional ExponentPart x -> no_digit_ahead 10 x /\ strip "." x = None.
Proof.
  intros [->|H]; [split; reflexivity|].
  destruct (exponent_first _ H) as (c & r & -> & [->| ->]); split; reflexivity.
Qed.

Lemma decimal_digit_no_sign (c : ascii) (r : string) :
  digit 10 c -> strip "+" (String c r) = None /\ strip "-" (String c r) = None
                /\ strip "." (String c r) = None.
Proof.
  unfold digit. cbn. intros H.
  repeat (destruct H as [<-|H]; [repeat split; reflexivity|]). contradiction.
Qed.

Lemma read_sign_complete (sg r : string) :
  sign sg -> strip "+" r = None -> strip "-" r = None ->
  exists neg, read_sign (sg ++ r) = (neg, r).
Proof.
  intros [->|[->| ->]] P M; unfold read_sign; cbn [append].
  - rewrite P, M. now exists false.
  - exists false. reflexivity.
  - exists true. reflexivity.
Qed.

Lemma read_exponent_complete (x : string) :
  optional ExponentPart x -> exists z, read_exponent x = Some z.
Proof.
  intros [->|H]; [now exists 0|].
  destruct H as [e sg ds He Hs Hd].
  destruct (digits_first _ _ Hd) as (c & r & E & Hc).
  destruct (decimal_digit_no_sign c r Hc) as (P & M & _). rewrite <- E in P, M.
  destruct (read_sign_complete sg ds Hs P M) as [neg Sg].
  assert (R : In 10 [2; 8; 10; 16]) by (cbn; tauto).
  destruct (read_digits_complete 10 ds "" R Hd I 0 0%nat) as [v D].
  rewrite append_nil_r in D. destruct (digits_length _ _ Hd) as [k L].
  rewrite L in D. cbn [Nat.add] in D.
  destruct He as [->| ->]; cbn [append read_exponent Ascii.eqb orb];
    cbn; rewrite Sg, D; eexists; reflexivity.
Qed.

(** A decimal literal other than [Infinity] is read to the end and rounded. *)
Lemma read_decimal_complete (neg : bool) (u : string) :
  StrUnsignedDecimalLiteral u ->
  u = "Infinity" \/ isNaN (read_decimal neg u) = false.
Proof.
  assert (R : In 10 [2; 8; 10; 16]) by (cbn; tauto).
  assert (R0 : 0 <= 10) by lia.
  intros [ | i f x Hi Hf Hx | f x Hf Hx | i x Hi Hx ]; [now left | right ..];
    unfold read_decimal;
    destruct (optional_exponent_ahead _ Hx) as [Ax Px];
    destruct (read_exponent_complete _ Hx) as [z Z].
  - destruct (read_digits_complete 10 i ("." ++ f ++ x) R Hi eq_refl 0 0%nat) as [ip D1].
    rewrite D1. cbv beta iota zeta.
    change (strip "." ("." ++ f ++ x)) with (Some (f ++ x)%string). cbv beta iota zeta.
    destruct (digits_length _ _ Hi) as [k L]. rewrite L.
    pose proof (read_digits_nonneg 10 R0 _ _ _ _ _ _ D1 (Z.le_refl 0)) as Nip.
    destruct Hf as [->|Hf].
    + cbn [append]. rewrite (read_digits_stop _ _ _ _ Ax). cbv beta iota zeta.
      cbn [Nat.add]. rewrite Z. now apply round_decimal_number.
    + destruct (read_digits_complete 10 f x R Hf Ax ip 0%nat) as [m D2].
      rewrite D2. cbv beta iota zeta. cbn [Nat.add]. rewrite Z.
      apply round_decimal_number.
      exact (read_digits_nonneg 10 R0 _ _ _ _ _ _ D2 Nip).
  - cbn [append]. rewrite (read_digits_stop 10 (String "." (f ++ x)) 0 0 eq_refl).
    cbv beta iota zeta.
    change (strip "." (String "." (f ++ x))) with (Some (f ++ x)%string).
    cbv beta iota zeta.
    destruct (read_digits_complete 10 f x R Hf Ax 0 0%nat) as [m D2].
    rewrite D2. cbv beta iota zeta.
    destruct (digits_length _ _ Hf) as [k L]. rewrite L. cbn [Nat.add]. rewrite Z.
    apply round_decimal_number.
    exact (read_digits_nonneg 10 R0 _ _ _ _ _ _ D2 (Z.le_refl 0)).
  - destruct (read_digits_complete 10 i x R Hi Ax 0 0%nat) as [ip D1].
    rewrite D1. cbv beta iota zeta. rewrite Px. cbv beta iota zeta.
    destruct (digits_length _ _ Hi) as [k L]. rewrite L. cbn [Nat.add]. rewrite Z.
    apply round_decimal_number.
    exact (read_digits_nonneg 10 R0 _ _ _ _ _ _ D1 (Z.le_refl 0)).
Qed.

Lemma unsigned_first (u : string) :
  StrUnsignedDecimalLiteral u ->
  exists c r, u = String c r /\ (c = "I" \/ c = "." \/ digit 10 c)%char.
Proof.
  intros [ | i f x Hi Hf Hx | f x Hf Hx | i x Hi Hx ].
  - eexists; eexists; split; [reflexivity | now left].
  - destruct (digits_first _ _ Hi) as (c & r & -> & Hc).
    eexists; eexists; split; [reflexivity | now right; right].
  - eexists; eexists; split; [reflexivity | now right; left].
  - destruct (digits_first _ _ Hi) as (c & r & -> & Hc).
    eexists; eexists; split; [reflexivity | now right; right].
Qed.

(** After a leading [0] a decimal literal goes on with a digit, a point or
    an exponent, never with the letter of a radix prefix. *)
Lemma unsigned_second (c2 : ascii) (r : string) :
  StrUnsignedDecimalLiteral (String "0" (String c2 r)) ->
  (digit 10 c2 \/ c2 = "." \/ c2 = "e" \/ c2 = "E")%char.
Proof.
  remember (String "0" (String c2 r)) as u eqn:E.
  intros H. destruct H as [ | i f x Hi Hf Hx | f x Hf Hx | i x Hi Hx ].
  - discriminate.
  - destruct Hi as [c Hc|c s Hc Hs].
    + cbn in E. inversion E. tauto.
    + destruct (digits_first _ _ Hs) as (b & s' & -> & Hb). cbn in E. inversion E; subst.
      now left.
  - cbn in E. discriminate.
  - destruct Hi as [c Hc|c s Hc Hs].
    + cbn in E. inversion E; subst. destruct Hx as [Hx|Hx]; [discriminate|].
      destruct (exponent_first _ Hx) as (c & r' & Ex & Hc'). inversion Ex; subst. tauto.
    + destruct (digits_first _ _ Hs) as (b & s' & -> & Hb). cbn in E. inversion E; subst.
      now left.
Qed.

Lemma decimal_not_radix (sg u : string) :
  sign sg -> StrUnsignedDecimalLiteral u ->
  strip_radix radix_prefixes (sg ++ u) = None.
Proof.
  intros [->|[->| ->]] H; [|reflexivity..]. cbn [append].
  destruct (strip_radix radix_prefixes u) as [[radix r]|] eqn:P; [|reflexivity].
  exfalso. apply strip_radix_sound in P. destruct P as (p & Hin & ->).
  cbn in Hin.
  repeat (destruct Hin as [Hin|Hin];
          [inversion Hin; subst; cbn [append] in H; apply unsigned_second in H;
           unfold digit in H; cbn in H; intuition discriminate|]).
  contradiction.
Qed.

Lemma Number_of_blank (s : string) : trim s = "" -> Number s = pos_zero.
Proof. unfold Number. now intros ->. Qed.

Lemma Number_of_literal (s l : string) :
  trim s = l -> StrNumericLiteral l -> isNaN (Number s) = false.
Proof.
  unfold Number. intros -> [sg u Hs Hu | p radix ds Hp Hd].
  - destruct (unsigned_first _ Hu) as (c & r & E & Hc).
    assert (N : String.eqb (sg ++ u) "" = false).
    { apply String.eqb_neq. rewrite E. destruct Hs as [->|[->| ->]]; discriminate. }
    rewrite N, (decimal_not_radix _ _ Hs Hu).
    assert (P : strip "+" u = None /\ strip "-" u = None).
    { rewrite E. destruct Hc as [->|[->|Hc]]; [split; reflexivity.. |].
      destruct (decimal_digit_no_sign c r Hc) as (P & M & _). now split. }
    destruct (read_sign_complete sg u Hs (proj1 P) (proj2 P)) as [neg ->].
    destruct (String.eqb u "Infinity") eqn:I; [reflexivity|].
    apply String.eqb_neq in I.
    destruct (read_decimal_complete neg u Hu) as [->|H]; [contradiction | exact H].
  - assert (R : In radix [2; 8; 10; 16]).
    { cbn in Hp. cbn.
      repeat (destruct Hp as [Hp|Hp]; [inversion Hp; tauto|]). contradiction. }
    destruct (read_digits_complete radix ds "" R Hd I 0 0%nat) as [v D].
    rewrite append_nil_r in D. destruct (digits_length _ _ Hd) as [k L].
    rewrite L in D. cbn [Nat.add] in D.
    cbn in Hp.
    repeat (destruct Hp as [Hp|Hp];
            [inversion Hp; subst; cbn; unfold read_radix; rewrite D; apply of_Z_number|]).
    contradiction.
Qed.

(** *** Trimming a numeral between white space leaves the numeral *)

Lemma append_inv_head (p r r' : string) : (p ++ r = p ++ r')%string -> r = r'.
Proof. induction p as [|a p IH]; simpl; [tauto | intros [= H]; now apply IH]. Qed.

Lemma length_append (a b : string) :
  String.length (a ++ b) = (String.length a + String.length b)%nat.
Proof. induction a as [|x a IH]; simpl; [reflexivity | now rewrite IH]. Qed.

(** Of two texts with a common extension one is a prefix of the other. *)
Lemma append_comparable (p : string) :
  forall q x y, (p ++ x = q ++ y)%string ->
                (exists z, strip p q = Some z) \/ (exists z, strip q p = Some z).
Proof.
  induction p as [|a p IH]; intros q x y E.
  - left. now exists q.
  - destruct q as [|b q]; [right; now exists (String a p)|].
    cbn in E. inversion E as [[Eab E']]. subst b.
    cbn [strip]. rewrite Ascii.eqb_refl. exact (IH _ _ _ E').
Qed.

(** When no text of [ws] is a proper prefix of another, the text stripped
    from [p ++ r] is [p]. *)
Lemma strip_any_run (ws : list string) (p r : string) :
  (forall p q z, In p ws -> In q ws -> strip p q = Some z -> z = "") ->
  In p ws -> strip_any ws (p ++ r) = Some r.
Proof.
  induction ws as [|q ws IH]; intros F Hp; [contradiction|]. cbn [strip_any].
  destruct (strip q (p ++ r)) as [r'|] eqn:Q.
  - apply strip_spec in Q.
    assert (p = q) as <-.
    { destruct (append_comparable _ _ _ _ Q) as [[z Z]|[z Z]].
      - pose proof (F _ _ _ Hp (or_introl eq_refl) Z). subst z.
        apply strip_spec in Z. now rewrite append_nil_r in Z.
      - pose proof (F _ _ _ (or_introl eq_refl) Hp Z). subst z.
        apply strip_spec in Z. now rewrite append_nil_r in Z. }
    apply append_inv_head in Q. now subst.
  - destruct Hp as [->|Hp].
    + assert (strip p (p ++ r) = Some r) by now apply strip_spec. congruence.
    + apply IH; [|exact Hp]. intros p' q' z Hp' Hq'. apply F; now right.
Qed.

Lemma trim_with_run (ws : list string) (a r : string) :
  (forall p q z, In p ws -> In q ws -> strip p q = Some z -> z = "") ->
  Forall (fun p => p <> "") ws ->
  run_of ws a -> strip_any ws r = None ->
  forall fuel, (String.length (a ++ r) <= fuel)%nat -> trim_with ws fuel (a ++ r) = r.
Proof.
  intros F N Ra Hr. induction Ra as [|p a Hp Ra IH]; intros fuel L.
  - cbn [append]. destruct fuel; cbn [trim_with]; [reflexivity | now rewrite Hr].
  - rewrite append_assoc in *. rewrite length_append in L.
    assert (p <> "") by (rewrite Forall_forall in N; now apply N).
    destruct p as [|c p]; [contradiction|]. cbn [String.length] in L.
    destruct fuel as [|fuel]; [lia|]. cbn [trim_with].
    rewrite (strip_any_run ws _ _ F Hp). apply IH. lia.
Qed.

(** No white space sequence is a proper prefix, or a proper suffix, of
    another. *)
Lemma white_prefix_free :
  forall p q z, In p StrWhiteSpaceChar -> In q StrWhiteSpaceChar ->
                strip p q = Some z -> z = "".
Proof.
  assert (T : forallb (fun p => forallb (fun q => match strip p q with
                                                  | Some z => String.eqb z ""
                                                  | None => true
                                                  end) StrWhiteSpaceChar)
                      StrWhiteSpaceChar = true) by (vm_compute; reflexivity).
  intros p q z Hp Hq E. rewrite forallb_forall in T. specialize (T p Hp).
  rewrite forallb_forall in T. specialize (T q Hq). rewrite E in T.
  now apply String.eqb_eq.
Qed.

Lemma white_suffix_free :
  forall p q z, In p (map string_rev StrWhiteSpaceChar) ->
                In q (map string_rev StrWhiteSpaceChar) ->
                strip p q = Some z -> z = "".
Proof.
  assert (T : forallb (fun p => forallb (fun q => match strip p q with
                                                  | Some z => String.eqb z ""
                                                  | None => true
                                                  end) (map string_rev StrWhiteSpaceChar))
                      (map string_rev StrWhiteSpaceChar) = true) by (vm_compute; reflexivity).
  intros p q z Hp Hq E. rewrite forallb_forall in T. specialize (T p Hp).
  rewrite forallb_forall in T. specialize (T q Hq). rewrite E in T.
  now apply String.eqb_eq.
Qed.

Lemma white_rev_nonempty : Forall (fun p => p <> "") (map string_rev StrWhiteSpaceChar).
Proof.
  assert (T : forallb (fun p => negb (String.eqb p "")) (map string_rev StrWhiteSpaceChar)
              = true) by (vm_compute; reflexivity).
  rewrite forallb_forall in T. apply Forall_forall. intros p Hp.
  specialize (T p Hp). apply negb_true_iff in T. now apply String.eqb_neq.
Qed.

Lemma begins_with_app (cs a b : string) :
  begins_with cs a -> begins_with cs (a ++ b).
Proof. intros (c & r & -> & H). now exists c, (r ++ b)%string. Qed.

Lemma literal_begins (l : string) :
  StrNumericLiteral l -> begins_with "+-I.0123456789" l.
Proof.
  intros [sg u Hs Hu | p radix ds Hp Hd].
  - destruct (unsigned_first _ Hu) as (c & r & -> & Hc).
    destruct Hs as [->|[->| ->]]; cbn [append];
      try (eexists; eexists; split; [reflexivity | cbn; tauto]).
    exists c, r. split; [reflexivity|].
    destruct Hc as [->|[->|Hc]]; [cbn; tauto | cbn; tauto |].
    unfold digit in Hc. cbn in Hc |- *. tauto.
  - cbn in Hp.
    repeat (destruct Hp as [Hp|Hp];
            [inversion Hp; subst; eexists; eexists; split; [reflexivity | cbn; tauto]|]).
    contradiction.
Qed.

Lemma not_white_ahead (l : string) :
  begins_with "+-I.0123456789" l -> strip_any StrWhiteSpaceChar l = None.
Proof.
  intros (c & r & -> & H). cbn in H.
  repeat (destruct H as [<-|H]; [vm_compute; reflexivity|]). contradiction.
Qed.

Lemma string_rev_cons (c : ascii) (s : string) :
  string_rev (String c s) = (string_rev s ++ String c "")%string.
Proof. exact (string_rev_app (String c "") s). Qed.

Lemma digits_end (radix : Z) (ds : string) :
  digits radix ds -> exists c r, string_rev ds = String c r /\ digit radix c.
Proof.
  induction 1 as [c Hc|c s Hc Hs IH].
  - now exists c, "".
  - destruct IH as (c' & r' & E & Hc'). rewrite string_rev_cons, E.
    now exists c', (r' ++ String c "")%string.
Qed.

Lemma digit_hex (radix : Z) (c : ascii) :
  In radix [2; 8; 10; 16] -> digit radix c ->
  In c (list_ascii_of_string "y.0123456789abcdefABCDEF").
Proof.
  unfold digit. intros R H.
  destruct R as [<-|[<-|[<-|[<-|[]]]]]; cbn in H |- *; tauto.
Qed.

Lemma digits_ends (radix : Z) (ds : string) :
  In radix [2; 8; 10; 16] -> digits radix ds ->
  begins_with "y.0123456789abcdefABCDEF" (string_rev ds).
Proof.
  intros R H. destruct (digits_end _ _ H) as (c & r & E & Hc).
  exists c, r. split; [exact E | now apply (digit_hex radix)].
Qed.

Lemma exponent_ends (x : string) :
  ExponentPart x -> begins_with "y.0123456789abcdefABCDEF" (string_rev x).
Proof.
  intros [e sg ds He Hs Hd]. rewrite !string_rev_app, !append_assoc.
  apply begins_with_app, (digits_ends 10); [cbn; tauto | exact Hd].
Qed.

Lemma unsigned_ends (u : string) :
  StrUnsignedDecimalLiteral u -> begins_with "y.0123456789abcdefABCDEF" (string_rev u).
Proof.
  assert (R : In 10 [2; 8; 10; 16]) by (cbn; tauto).
  intros [ | i f x Hi Hf Hx | f x Hf Hx | i x Hi Hx ].
  - exists "y"%char, "tinifnI". split; [reflexivity | cbn; tauto].
  - rewrite !string_rev_app, !append_assoc.
    destruct Hx as [->|Hx]; [|now apply begins_with_app, exponent_ends].
    change (string_rev "") with "". cbn [append].
    destruct Hf as [->|Hf]; [|now apply begins_with_app, (digits_ends 10)].
    eexists; eexists; split; [reflexivity | cbn; tauto].
  - rewrite !string_rev_app, !append_assoc.
    destruct Hx as [->|Hx]; [|now apply begins_with_app, exponent_ends].
    change (string_rev "") with "". cbn [append].
    now apply begins_with_app, (digits_ends 10).
  - rewrite !string_rev_app.
    destruct Hx as [->|Hx]; [|now apply begins_with_app, exponent_ends].
    change (string_rev "") with "". cbn [append].
    now apply (digits_ends 10).
Qed.

Lemma literal_ends (l : string) :
  StrNumericLiteral l -> begins_with "y.0123456789abcdefABCDEF" (string_rev l).
Proof.
  intros [sg u Hs Hu | p radix ds Hp Hd]; rewrite string_rev_app.
  - now apply begins_with_app, unsigned_ends.
  - apply begins_with_app, (digits_ends radix); [|exact Hd].
    cbn in Hp |- *.
    repeat (destruct Hp as [Hp|Hp]; [inversion Hp; tauto|]). contradiction.
Qed.

Lemma not_white_behind (l : string) :
  begins_with "y.0123456789abcdefABCDEF" l ->
  strip_any (map string_rev StrWhiteSpaceChar) l = None.
Proof.
  intros (c & r & -> & H). cbn in H.
  repeat (destruct H as [<-|H]; [vm_compute; reflexivity|]). contradiction.
Qed.

Lemma run_of_app (ws : list string) (a b : string) :
  run_of ws a -> run_of ws b -> run_of ws (a ++ b).
Proof.
  intros Ra Rb. induction Ra as [|p s Hp Rs IH]; [exact Rb|].
  rewrite append_assoc. now apply run_cons.
Qed.

Lemma run_of_rev_map (ws : list string) (b : string) :
  run_of ws b -> run_of (map string_rev ws) (string_rev b).
Proof.
  intros Rb. induction Rb as [|p s Hp Rs IH]; [constructor|].
  rewrite string_rev_app. apply run_of_snoc; [exact IH | now apply in_map].
Qed.

Lemma length_string_rev (s : string) : String.length (string_rev s) = String.length s.
Proof.
  assert (L1 : forall l, String.length (string_of_list_ascii l) = List.length l)
    by (induction l as [|x l IH]; simpl; [reflexivity | now rewrite IH]).
  assert (L2 : forall t, List.length (list_ascii_of_string t) = String.length t)
    by (induction t as [|x t IH]; simpl; [reflexivity | now rewrite IH]).
  unfold string_rev. now rewrite L1, length_rev, L2.
Qed.

Lemma trim_complete (s : string) :
  StringNumericLiteral s -> optional StrNumericLiteral (trim s).
Proof.
  intros (a & l & b & -> & Ra & [->|Hl] & Rb); unfold trim, trimStart.
  - left. cbn [append].
    rewrite <- (append_nil_r (a ++ b)) at 2.
    rewrite (trim_with_run StrWhiteSpaceChar (a ++ b) "" white_prefix_free
               StrWhiteSpaceChar_nonempty (run_of_app _ _ _ Ra Rb) eq_refl);
      [reflexivity | now rewrite append_nil_r].
  - right.
    rewrite (trim_with_run _ _ _ white_prefix_free StrWhiteSpaceChar_nonempty Ra
               (not_white_ahead _ (begins_with_app _ _ _ (literal_begins _ Hl))));
      [|apply Nat.le_refl].
    unfold trimEnd. rewrite string_rev_app.
    rewrite (trim_with_run _ _ _ white_suffix_free white_rev_nonempty
               (run_of_rev_map _ _ Rb) (not_white_behind _ (literal_ends _ Hl))).
    + now rewrite string_rev_involutive.
    + rewrite <- string_rev_app, length_string_rev. apply Nat.le_refl.
Qed.

(** [Number] reads exactly the numerals of the language. *)
Theorem Number_reads_numerals (s : string) :
  isNaN (Number s) = false <-> StringNumericLiteral s.
Proof.
  split; [apply Number_sound|].
  intros H. destruct (trim_complete s H) as [E|L].
  - now rewrite (Number_of_blank s E).
  - now apply (Number_of_literal s (trim s)).
Qed.

Lemma non_numeric_NaN (s : string) : non_numeric s <-> isNaN (Number s) = true.
Proof.
  unfold non_numeric. rewrite <- Number_reads_numerals.
  destruct (isNaN (Number s)); split; congruence.
Qed.

End NumeralFacts.

(* ===================================================================== *)
(** * The listing filters                                                 *)
(* ===================================================================== *)

Module DataListFacts.
Import Capture DataList Spec.

Lemma status_string_inj (s s' : Status) :
  status_string s = status_string s' -> s = s'.
Proof. destruct s, s'; simpl; intros H; try reflexivity; discriminate. Qed.

Lemma status_string_not_all (s : Status) : status_string s <> "all".
Proof. destruct s; discriminate. Qed.

Section Host.
Variable toLowerCase : string -> string.

Lemma matchesStatus_spec (statusFilter : string) (c : CaptureRecord) :
  matchesStatus statusFilter c = true <->
  statusFilter = "all" \/ status_string (status c) = statusFilter.
Proof.
  unfold matchesStatus. rewrite orb_true_iff, !String.eqb_eq. reflexivity.
Qed.

(** C7. Filtering the listing by a status value keeps only records with
    that status; the value "all" puts no restriction on the status; and a
    record is listed exactly when it passes the search filter and the
    status filter. *)
Theorem status_filter (captures : list CaptureRecord) (searchTerm : string) :
  (forall (s : Status) (c : CaptureRecord),
      In c (filteredCaptures toLowerCase captures searchTerm (status_string s)) ->
      status c = s)
  /\ filteredCaptures toLowerCase captures searchTerm "all"
     = filter (matchesSearch toLowerCase searchTerm) captures
  /\ (forall (statusFilter : string) (c : CaptureRecord),
        In c (filteredCaptures toLowerCase captures searchTerm statusFilter) <->
        In c captures
        /\ matchesSearch toLowerCase searchTerm c = true
        /\ (statusFilter = "all" \/ status_string (status c) = statusFilter))
  /\ (forall statusFilter : string,
        filteredCaptures toLowerCase captures searchTerm statusFilter
        = filter (matchesStatus statusFilter)
                 (filter (matchesSearch toLowerCase searchTerm) captures)).
Proof.
  assert (iff_part : forall statusFilter c,
    In c (filteredCaptures toLowerCase captures searchTerm statusFilter) <->
    In c captures /\ matchesSearch toLowerCase searchTerm c = true
    /\ (statusFilter = "all" \/ status_string (status c) = statusFilter)).
  { intros sf c. unfold filteredCaptures.
    rewrite filter_In, andb_true_iff, matchesStatus_spec. reflexivity. }
  split; [|split; [|split]].
  - intros s c H. apply iff_part in H. destruct H as [_ [_ [H|H]]].
    + now apply status_string_not_all in H.
    + now apply status_string_inj.
  - unfold filteredCaptures. apply filter_ext. intros c.
    unfold matchesStatus. simpl. now rewrite andb_true_r.
  - exact iff_part.
  - intros sf. clear iff_part. unfold filteredCaptures.
    induction captures as [|c l IH]; simpl; [reflexivity|].
    destruct (matchesSearch toLowerCase searchTerm c); simpl;
      [destruct (matchesStatus sf c)|]; rewrite IH; reflexivity.
Qed.

End Host.

(** ** The listing as a whole, colours, deleting *)

Lemma filter_refines {A : Type} (p q : A -> bool) (l : list A) :
  (forall a, q a = true -> p a = true) -> filter q l = filter q (filter p l).
Proof.
  intros H. induction l as [|a l IH]; cbn [filter]; [reflexivity|].
  destruct (p a) eqn:P; cbn [filter].
  - destruct (q a); now rewrite IH.
  - destruct (q a) eqn:Q; [|exact IH]. apply H in Q. congruence.
Qed.

Lemma substring_trans (a b c : string) : substring a b -> substring b c -> substring a c.
Proof.
  intros (x & y & ->) (u & v & ->). exists (u ++ x)%string, (y ++ v)%string.
  now rewrite !NumeralFacts.append_assoc.
Qed.

Section Listing.
Variable toLowerCase : string -> string.

Local Abbreviation filteredCaptures := (filteredCaptures toLowerCase).

(** X1. Before anything is typed into the search box and with the status
    selector at "all", the listing is the list of fetched records,
    unchanged. *)
Theorem untouched_filters_list_every_record (rows : list CaptureRecord) :
  toLowerCase "" = "" ->
  filteredCaptures rows (searchTerm initial) (statusFilter initial) = rows
  /\ (forall st, filteredCaptures
                   (captures (fetchCaptures {| Fetched.data := Some rows;
                                               Fetched.error := None |} st))
                   "" "all" = rows).
Proof.
  intros E.
  assert (G : filteredCaptures rows "" "all" = rows).
  { unfold DataList.filteredCaptures.
    rewrite (filter_ext _ (fun _ => true)); [now apply forallb_filter_id, forallb_forall|].
    intros c. unfold DataList.matchesSearch, matchesStatus. rewrite E.
    now destruct (toLowerCase (title c)). }
  split; [exact G|]. intros st. exact G.
Qed.

(** X2. Extending the search term narrows the listing: when the lower-cased
    term occurs in the lower-cased new term, the new listing is the old
    listing filtered once more, so no record appears that was not listed
    before. *)
Theorem longer_search_term_narrows (rows : list CaptureRecord)
    (searchTerm searchTerm' statusFilter : string) :
  substring (toLowerCase searchTerm) (toLowerCase searchTerm') ->
  filteredCaptures rows searchTerm' statusFilter
  = filteredCaptures (filteredCaptures rows searchTerm statusFilter)
      searchTerm' statusFilter
  /\ incl (filteredCaptures rows searchTerm' statusFilter)
          (filteredCaptures rows searchTerm statusFilter).
Proof.
  intros S.
  assert (E : filteredCaptures rows searchTerm' statusFilter
              = filteredCaptures (filteredCaptures rows searchTerm statusFilter)
                  searchTerm' statusFilter).
  { unfold DataList.filteredCaptures. apply filter_refines. intros c.
    rewrite !andb_true_iff. intros [M ->]. split; [|reflexivity].
    unfold DataList.matchesSearch in *. rewrite orb_true_iff in *.
    rewrite !JSFacts.includes_spec in *.
    destruct M as [M|M]; [left | right]; exact (substring_trans _ _ _ S M). }
  split; [exact E|].
  rewrite E. intros c H. unfold DataList.filteredCaptures in H at 1.
  now apply filter_In in H.
Qed.

(** X3. The four status values split the listing: what is listed under
    "all" is, up to order, what is listed under "draft", "submitted",
    "approved" and "rejected" together, no record twice.  Any other value
    of the status filter lists nothing. *)
Theorem status_filters_split_the_listing (rows : list CaptureRecord)
    (searchTerm : string) :
  Permutation
    (filteredCaptures rows searchTerm "all")
    (filteredCaptures rows searchTerm "draft"
     ++ filteredCaptures rows searchTerm "submitted"
     ++ filteredCaptures rows searchTerm "approved"
     ++ filteredCaptures rows searchTerm "rejected")
  /\ forall statusFilter : string,
       statusFilter <> "all" ->
       (forall s : Status, status_string s <> statusFilter) ->
       filteredCaptures rows searchTerm statusFilter = [].
Proof.
  split.
  - unfold DataList.filteredCaptures.
    induction rows as [|c l IH]; cbn [filter]; [constructor|].
    destruct (DataList.matchesSearch toLowerCase searchTerm c); cbn [andb]; [|exact IH].
    assert (M : forall f, matchesStatus f c
                          = (String.eqb f "all" || String.eqb (status_string (status c)) f))
      by reflexivity.
    rewrite !M. clear M.
    destruct (status c); cbn [status_string String.eqb Ascii.eqb Bool.eqb orb app].
    + now constructor.
    + now apply Permutation_cons_app.
    + rewrite app_assoc. apply Permutation_cons_app. now rewrite <- app_assoc.
    + rewrite !app_assoc. apply Permutation_cons_app. now rewrite <- !app_assoc.
  - intros sf Hall Hs. unfold DataList.filteredCaptures.
    induction rows as [|c l IH]; cbn [filter]; [reflexivity|].
    replace (matchesStatus sf c) with false; [now rewrite andb_false_r|].
    symmetry. unfold matchesStatus. apply orb_false_iff.
    split; apply String.eqb_neq; [exact Hall | apply Hs].
Qed.
End Listing.

(** X4. The badge colour tells approved, rejected and submitted records
    apart; a draft gets the colour of the default branch, so any other
    status text is drawn like a draft, and no two of the four status values
    share a colour. *)
Theorem status_colour_tells_statuses_apart :
  (forall status : string,
      getStatusColor status = getStatusColor "draft" <->
      status <> "approved" /\ status <> "rejected" /\ status <> "submitted")
  /\ (forall s s' : Status,
        getStatusColor (status_string s) = getStatusColor (status_string s') -> s = s').
Proof.
  split.
  - intros status. unfold getStatusColor.
    destruct (String.eqb status "approved") eqn:A.
    { apply String.eqb_eq in A. subst. cbn.
      split; [discriminate | intros [H _]; now elim H]. }
    destruct (String.eqb status "rejected") eqn:R.
    { apply String.eqb_eq in R. subst. cbn.
      split; [discriminate | intros [_ [H _]]; now elim H]. }
    destruct (String.eqb status "submitted") eqn:S.
    { apply String.eqb_eq in S. subst. cbn.
      split; [discriminate | intros [_ [_ H]]; now elim H]. }
    apply String.eqb_neq in A, R, S.
    destruct (String.eqb status "draft"); cbn; split; auto.
  - intros [] []; cbn; intros H; try reflexivity; discriminate.
Qed.

Section Store.
Variable toLowerCase : string -> string.
Variable user_id : option string.
Variable delete_error : World -> string -> option string.
Variable select : World -> option string -> Fetched.t.

Local Abbreviation handleDelete := (handleDelete user_id delete_error select).

(** X5. Deleting asks first and fails quietly.  A declined confirmation
    makes no request and changes nothing.  A refused delete is the only
    request made: table, list and loading flag stay as they were.  A delete
    that goes through removes exactly the rows with that id and is followed
    by one select, whose answer replaces the list unless it is an error.  In
    no case are the search term, the status filter or the record open in the
    detail view touched. *)
Theorem delete_asks_first_and_fails_quietly (id : string) (st : State) (w : World) :
  handleDelete false id st w = (st, w)
  /\ (forall e, delete_error w id = Some e ->
        handleDelete true id st w
        = (st, {| rows := rows w; calls := calls w ++ [Delete id (Some e)] |}))
  /\ (delete_error w id = None ->
        let (st', w') := handleDelete true id st w in
        rows w' = filter (fun c => negb (String.eqb (Capture.id c) id)) (rows w)
        /\ (forall c, In c (rows w') <-> In c (rows w) /\ Capture.id c <> id)
        /\ calls w' = calls w ++ [Delete id None; Select user_id]
        /\ loading st' = false
        /\ let answer :=
             select {| rows := rows w'; calls := calls w ++ [Delete id None] |} user_id in
           (Fetched.error answer <> None -> captures st' = captures st)
           /\ (Fetched.error answer = None ->
               captures st' = match Fetched.data answer with
                              | Some l => l
                              | None => []
                              end))
  /\ (forall confirmed,
        let st' := fst (handleDelete confirmed id st w) in
        searchTerm st' = searchTerm st
        /\ statusFilter st' = statusFilter st
        /\ selectedCapture st' = selectedCapture st).
Proof.
  unfold DataList.handleDelete.
  split; [reflexivity|]. split; [now intros e ->|]. split.
  - intros ->. cbv zeta. cbn [rows calls].
    split; [reflexivity|]. split.
    { intros c. rewrite filter_In, negb_true_iff, String.eqb_neq. reflexivity. }
    split; [now rewrite <- app_assoc|].
    split; [unfold fetchCaptures; now destruct (Fetched.error _)|].
    unfold fetchCaptures. destruct (Fetched.error _); cbn [captures]; split; congruence.
  - intros [|]; [|now cbn].
    destruct (delete_error w id); cbn [fst]; [now repeat split|].
    unfold fetchCaptures. now destruct (Fetched.error _).
Qed.

(** X6. A record that was deleted is no longer listed, provided the select
    that follows the delete is answered without error and with rows of the
    table only. *)
Theorem deleted_record_is_not_listed (id : string) (st : State) (w : World)
    (searchTerm statusFilter : string) :
  let deleted :=
    {| rows := filter (fun c => negb (String.eqb (Capture.id c) id)) (rows w);
       calls := calls w ++ [Delete id None] |} in
  delete_error w id = None ->
  Fetched.error (select deleted user_id) = None ->
  (forall l, Fetched.data (select deleted user_id) = Some l -> incl l (rows deleted)) ->
  forall c,
    In c (filteredCaptures toLowerCase
            (captures (fst (handleDelete true id st w))) searchTerm statusFilter) ->
    Capture.id c <> id.
Proof.
  cbv zeta. intros Hdel Hok Honest c Hin.
  unfold DataList.filteredCaptures in Hin. apply filter_In in Hin. destruct Hin as [Hin _].
  unfold DataList.handleDelete in Hin. rewrite Hdel in Hin. cbn [fst] in Hin.
  unfold fetchCaptures in Hin. rewrite Hok in Hin. cbn [captures] in Hin.
  match type of Hin with context [select ?x _] => set (w1 := x) in * end.
  destruct (Fetched.data (select w1 user_id)) as [l|] eqn:E; [|contradiction].
  apply (Honest _ eq_refl) in Hin. unfold w1 in Hin. cbn [rows] in Hin.
  apply filter_In in Hin. destruct Hin as [_ Hin].
  now rewrite negb_true_iff, String.eqb_neq in Hin.
Qed.
End Store.

End DataListFacts.

(* ===================================================================== *)
(** * Submitting the form                                                 *)
(* ===================================================================== *)

Module CaptureFormFacts.
Import CaptureForm FormSpec.

Lemma stored_app (a b : list Call) : stored (a ++ b) = stored a ++ stored b.
Proof. apply flat_map_app. Qed.

Lemma inserted_app (a b : list Call) : inserted (a ++ b) = inserted a ++ inserted b.
Proof. apply flat_map_app. Qed.

Lemma stored_uploads (names : list string) (photos : list File) :
  stored (uploads names photos) = combine names photos.
Proof.
  unfold uploads. revert photos.
  induction names as [|n names IH]; intros [|p photos]; simpl; try reflexivity.
  now rewrite IH.
Qed.

Lemma inserted_uploads (names : list string) (photos : list File) :
  inserted (uploads names photos) = [].
Proof.
  unfold uploads. revert photos.
  induction names as [|n names IH]; intros [|p photos]; simpl; try reflexivity.
  apply IH.
Qed.

Lemma failed_uploads (names : list string) (photos : list File) :
  forallb (fun c => negb (failed c)) (uploads names photos) = true.
Proof.
  unfold uploads. revert photos.
  induction names as [|n names IH]; intros [|p photos]; simpl; try reflexivity.
  apply IH.
Qed.

Section Host.
Variable Date_now : nat -> Z.
Variable upload_error : World -> string -> File -> option string.
Variable insert_error : World -> Row.t -> option string.
Variable getPublicUrl : string -> string.

Local Abbreviation upload_photos := (upload_photos Date_now upload_error getPublicUrl).
Local Abbreviation submit := (submit Date_now upload_error insert_error getPublicUrl).
Local Abbreviation handleSubmit :=
  (handleSubmit Date_now upload_error insert_error getPublicUrl).
Local Abbreviation fileNames := (fileNames Date_now).

(** The upload loop either stores every photo and returns their public
    addresses in order, or stops at the first upload that is refused. *)
Lemma upload_photos_run (photos : list File) :
  forall (photoUrls : list string) (w : World),
    match upload_photos photos photoUrls w with
    | (inr urls, w') =>
        urls = photoUrls ++ map getPublicUrl (fileNames (ticks w) photos)
        /\ objects w' = objects w ++ combine (fileNames (ticks w) photos) photos
        /\ captures w' = captures w
        /\ calls w' = calls w ++ uploads (fileNames (ticks w) photos) photos
    | (inl e, w') =>
        exists done photo rest fileName,
          photos = done ++ photo :: rest
          /\ objects w' = objects w ++ combine (fileNames (ticks w) done) done
          /\ captures w' = captures w
          /\ calls w' = calls w ++ uploads (fileNames (ticks w) done) done
                                ++ [Upload fileName photo (Some e)]
    end.
Proof.
  induction photos as [|photo rest IH]; intros photoUrls w.
  - simpl. now rewrite !app_nil_r.
  - cbn [CaptureForm.upload_photos]. unfold bind at 1. unfold now at 1.
    unfold bind at 1. unfold upload at 1. cbn [ticks objects captures calls].
    set (fileName := (ToString (Date_now (ticks w)) ++ "-" ++ name photo)%string).
    set (w1 := {| objects := objects w; captures := captures w;
                  ticks := S (ticks w); calls := calls w |}).
    destruct (upload_error w1 fileName photo) as [e|] eqn:E.
    + unfold throw. exists [], photo, rest, fileName. cbn.
      now rewrite app_nil_r.
    + match goal with |- context [upload_photos rest ?u ?w2] =>
        specialize (IH u w2); destruct (upload_photos rest u w2) as [[e|urls] w']
      end; cbn [ticks objects captures calls] in IH.
      * destruct IH as (done & p & rest' & fn & -> & Ho & Hc & Hk).
        exists (photo :: done), p, rest', fn. cbn [fileNames combine uploads map].
        fold fileName. rewrite Ho, Hc, Hk. unfold uploads.
        cbn [combine map app]. rewrite <- !app_assoc. now cbn.
      * destruct IH as (-> & Ho & Hc & Hk).
        cbn [fileNames combine uploads map]. fold fileName.
        rewrite Ho, Hc, Hk. unfold uploads. rewrite <- !app_assoc. now cbn.
Qed.

(** What a whole run of the [try] block does to the collaborators. *)
Lemma submit_run (user_id : option string) (formData : CaptureFormData) (w : World) :
  match submit user_id formData w with
  | (inr _, w') =>
      let names := fileNames (ticks w) (photos formData) in
      exists row,
        Row.user_id row = user_id
        /\ Row.status row = Capture.draft
        /\ collects formData row
        /\ Capture.photoUrls (Row.data row) = map getPublicUrl names
        /\ objects w' = objects w ++ combine names (photos formData)
        /\ captures w' = captures w ++ [row]
        /\ calls w' = calls w ++ uploads names (photos formData) ++ [Insert row None]
  | (inl e, w') =>
      exists done rest last,
        photos formData = done ++ rest
        /\ failed last = true
        /\ objects w' = objects w ++ combine (fileNames (ticks w) done) done
        /\ captures w' = captures w
        /\ calls w' = calls w ++ uploads (fileNames (ticks w) done) done ++ [last]
  end.
Proof.
  unfold CaptureForm.submit. unfold bind at 1.
  pose proof (upload_photos_run (photos formData) [] w) as U.
  destruct (upload_photos (photos formData) [] w) as [[e|urls] w1].
  - destruct U as (done & photo & rest & fn & Hp & Ho & Hc & Hk).
    exists done, (photo :: rest), (Upload fn photo (Some e)).
    repeat split; assumption.
  - destruct U as (-> & Ho & Hc & Hk). cbn [app].
    unfold bind, insert. cbn [objects captures calls ticks].
    match goal with |- context [insert_error w1 ?r] => set (row := r) end.
    destruct (insert_error w1 row) as [e|] eqn:E; unfold throw, ret.
    + exists (photos formData), [], (Insert row (Some e)).
      cbn [objects captures calls]. rewrite app_nil_r, Hk, <- app_assoc.
      repeat split; assumption.
    + exists row. cbn [objects captures calls]. rewrite Hk, Hc, <- app_assoc.
      repeat split; assumption.
Qed.

(** C3. When a photo upload or the insert is refused, the submission stops
    there: the refused call is the last one made, no record has been
    inserted, the form shows the error instead of the confirmation, and
    every photo uploaded before is still in the bucket. *)
Theorem failed_submission_leaves_no_record
    (user_id : option string) (formData : CaptureFormData) (ui ui' : UI)
    (w w' : World) (made : list Call) :
  handleSubmit user_id formData ui w = (ui', w') ->
  calls w' = calls w ++ made ->
  existsb failed made = true ->
  (exists before last,
      made = before ++ [last] /\ failed last = true
      /\ forallb (fun c => negb (failed c)) before = true)
  /\ captures w' = captures w
  /\ inserted made = []
  /\ objects w' = objects w ++ stored made
  /\ (exists message, error ui' = Some message)
  /\ success ui' = success ui
  /\ timers ui' = timers ui.
Proof.
  unfold CaptureForm.handleSubmit. intros H Hmade Hfail.
  pose proof (submit_run user_id formData w) as R.
  destruct (submit user_id formData w) as [[e|u] w1]; inversion H; subst; clear H.
  - destruct R as (done & rest & last & Hp & Hl & Ho & Hc & Hk).
    rewrite Hk in Hmade. apply app_inv_head in Hmade. subst made.
    split; [exists (uploads (fileNames (ticks w) done) done), last;
            repeat split; [assumption | apply failed_uploads]|].
    cbn [error success timers].
    rewrite stored_app, inserted_app, stored_uploads, inserted_uploads.
    destruct last as [fn p [m|] | r [m|]]; try discriminate; cbn;
      rewrite ?app_nil_r; repeat split; try assumption; now exists e.
  - destruct R as (row & _ & _ & _ & _ & _ & _ & Hk).
    rewrite Hk in Hmade. apply app_inv_head in Hmade. subst made.
    rewrite existsb_app in Hfail. cbn in Hfail. rewrite orb_false_r in Hfail.
    pose proof (failed_uploads (fileNames (ticks w) (photos formData)) (photos formData)) as F.
    exfalso. clear - Hfail F.
    induction (uploads (fileNames (ticks w) (photos formData)) (photos formData)) as [|c l IH];
      cbn in *; [discriminate|].
    destruct (failed c); cbn in *; [discriminate | now apply IH].
Qed.

(** C4. A submission that goes through inserts exactly one record: its
    status is "draft", it carries every value collected by the form, and its
    photo addresses are the public addresses of the uploaded images in the
    order of upload.  In particular the form with title "Site A", location
    "Lake X", nothing else filled in and no photo yields a draft record with
    no photo address and empty measurement texts. *)
Theorem successful_submission_inserts_draft :
  (forall (user_id : option string) (formData : CaptureFormData) (ui ui' : UI)
          (w w' : World),
      handleSubmit user_id formData ui w = (ui', w') ->
      error ui' = None ->
      let names := fileNames (ticks w) (photos formData) in
      exists row,
        captures w' = captures w ++ [row]
        /\ Row.status row = Capture.draft
        /\ Row.user_id row = user_id
        /\ collects formData row
        /\ Capture.photoUrls (Row.data row) = map getPublicUrl names
        /\ objects w' = objects w ++ combine names (photos formData)
        /\ calls w' = calls w ++ uploads names (photos formData) ++ [Insert row None]
        /\ success ui' = true)
  /\ (forall (user_id : option string) (date time : string) (ui ui' : UI)
            (w w' : World),
        handleSubmit user_id (site_A date time) ui w = (ui', w') ->
        error ui' = None ->
        captures w' = captures w ++
          [ {| Row.user_id := user_id; Row.title := "Site A"; Row.description := "";
               Row.data :=
                 {| Capture.location := "Lake X";
                    Capture.date := date; Capture.time := time;
                    Capture.temperature := ""; Capture.humidity := "";
                    Capture.windSpeed := ""; Capture.waterLevel := "";
                    Capture.waterQuality := ""; Capture.observations := "";
                    Capture.photoUrls := [] |};
               Row.status := Capture.draft |} ]).
Proof.
  assert (general : forall user_id formData ui ui' w w',
    handleSubmit user_id formData ui w = (ui', w') ->
    error ui' = None ->
    let names := fileNames (ticks w) (photos formData) in
    exists row,
      captures w' = captures w ++ [row]
      /\ Row.status row = Capture.draft
      /\ Row.user_id row = user_id
      /\ collects formData row
      /\ Capture.photoUrls (Row.data row) = map getPublicUrl names
      /\ objects w' = objects w ++ combine names (photos formData)
      /\ calls w' = calls w ++ uploads names (photos formData) ++ [Insert row None]
      /\ success ui' = true).
  { unfold CaptureForm.handleSubmit. intros user_id formData ui ui' w w' H He.
    pose proof (submit_run user_id formData w) as R.
    destruct (submit user_id formData w) as [[e|u] w1]; inversion H; subst; clear H;
      [discriminate|].
    destruct R as (row & Hu & Hs & Hcol & Hurls & Ho & Hc & Hk).
    exists row. cbn [success]. repeat split; try assumption; apply Hcol. }
  split; [exact general|].
  intros user_id date time ui ui' w w' H He.
  destruct (general _ _ _ _ _ _ H He) as (row & Hc & Hs & Hu & Hcol & Hurls & _).
  rewrite Hc. f_equal. f_equal.
  destruct row as [u t d [l dt tm te hu ws wl wq ob ph] st].
  unfold collects in Hcol. cbn in *.
  destruct Hcol as (-> & -> & -> & -> & -> & -> & -> & -> & -> & -> & ->).
  now subst.
Qed.
End Host.

(** ** Choosing and removing photos *)

Lemma filter_from_index_past {A : Type} (index : nat) (l : list A) :
  forall i : nat,
    (index < i)%nat ->
    JS.filter_from_index (fun _ j => negb (Nat.eqb j index)) i l = l.
Proof.
  induction l as [|x l IH]; intros i Hi; cbn [JS.filter_from_index]; [reflexivity|].
  destruct (Nat.eqb i index) eqn:E; [apply Nat.eqb_eq in E; lia|].
  cbn [negb]. now rewrite IH by lia.
Qed.

Lemma filter_from_index_without {A : Type} (index : nat) (l : list A) :
  forall i : nat,
    (i <= index)%nat ->
    JS.filter_from_index (fun _ j => negb (Nat.eqb j index)) i l = without (index - i) l.
Proof.
  unfold without.
  induction l as [|x l IH]; intros i Hi; cbn [JS.filter_from_index].
  - now rewrite firstn_nil, skipn_nil.
  - destruct (Nat.eqb i index) eqn:E; cbn [negb].
    + apply Nat.eqb_eq in E. subst i. rewrite Nat.sub_diag. cbn [firstn skipn app].
      apply filter_from_index_past. lia.
    + apply Nat.eqb_neq in E. rewrite IH by lia.
      replace (index - i)%nat with (S (index - S i)) by lia. reflexivity.
Qed.

Lemma without_length {A : Type} (index : nat) (l : list A) :
  (index < List.length l)%nat -> S (List.length (without index l)) = List.length l.
Proof.
  intros H. unfold without. rewrite length_app, length_firstn, length_skipn. lia.
Qed.

Lemma without_beyond {A : Type} (index : nat) (l : list A) :
  (List.length l <= index)%nat -> without index l = l.
Proof.
  intros H. unfold without. rewrite firstn_all2 by exact H.
  rewrite skipn_all2 by lia. apply app_nil_r.
Qed.

Lemma without_app {A : Type} (j : nat) (l files : list A) :
  without (List.length l + j) (l ++ files) = l ++ without j files.
Proof.
  unfold without. rewrite firstn_app_2.
  replace (S (List.length l + j)) with (List.length l + S j)%nat by lia.
  rewrite skipn_app, skipn_all2 by lia.
  replace (List.length l + S j - List.length l)%nat with (S j) by lia.
  now rewrite <- app_assoc.
Qed.

Lemma removePhoto_photos (index : nat) (formData prev : CaptureFormData) :
  photos (removePhoto index formData prev) = without index (photos formData).
Proof.
  unfold removePhoto, JS.filter_indexed.
  rewrite filter_from_index_without by lia. now rewrite Nat.sub_0_r.
Qed.

(** X7. The button on a photo removes the photo at that position and no
    other: the photos before it and behind it stay, in order, the texts of
    the form are untouched. *)
Theorem remove_photo_drops_that_photo (index : nat) (formData : CaptureFormData) :
  let after := removePhoto index formData formData in
  photos after = without index (photos formData)
  /\ same_texts formData after
  /\ ((index < List.length (photos formData))%nat ->
      S (List.length (photos after)) = List.length (photos formData)
      /\ (forall j, (j < index)%nat ->
            nth_error (photos after) j = nth_error (photos formData) j)
      /\ (forall j, (index <= j)%nat ->
            nth_error (photos after) j = nth_error (photos formData) (S j)))
  /\ ((List.length (photos formData) <= index)%nat -> after = formData).
Proof.
  cbv zeta. unfold removePhoto, JS.filter_indexed.
  rewrite filter_from_index_without by lia. rewrite Nat.sub_0_r.
  cbn [handleInputChange photos].
  split; [reflexivity|]. split; [now repeat split|]. split.
  - intros H. split; [now apply without_length|]. unfold without. split.
    + intros j Hj. rewrite nth_error_app1 by (rewrite length_firstn; lia).
      now rewrite nth_error_firstn, (proj2 (Nat.ltb_lt _ _) Hj).
    + intros j Hj. rewrite nth_error_app2 by (rewrite length_firstn; lia).
      rewrite length_firstn, Nat.min_l by lia.
      rewrite nth_error_skipn. f_equal. lia.
  - intros H. rewrite without_beyond by exact H. now destruct formData.
Qed.

(** X8. Files chosen in the file input are appended behind the photos
    already chosen, the texts are untouched, a null selection adds nothing,
    and removing one of the files just added leaves the form as if the
    other files alone had been chosen; so adding one photo and removing it
    again restores the form. *)
Theorem added_photo_can_be_removed (files : list File) (prev : CaptureFormData) :
  let added := handleFileUpload (Some files) prev in
  photos added = photos prev ++ files
  /\ same_texts prev added
  /\ handleFileUpload None prev = prev
  /\ (forall j,
        removePhoto (List.length (photos prev) + j) added added
        = handleFileUpload (Some (without j files)) prev)
  /\ (forall photo,
        let one := handleFileUpload (Some [photo]) prev in
        removePhoto (List.length (photos prev)) one one = prev).
Proof.
  cbv zeta. unfold removePhoto, JS.filter_indexed, handleFileUpload.
  cbn [handleInputChange photos title description location date time temperature
       humidity windSpeed waterLevel waterQuality observations].
  split; [reflexivity|]. split; [now repeat split|]. split.
  { rewrite app_nil_r. now destruct prev. }
  split.
  - intros j. rewrite filter_from_index_without by lia. rewrite Nat.sub_0_r.
    now rewrite without_app.
  - intros photo. rewrite filter_from_index_without by lia. rewrite Nat.sub_0_r.
    rewrite <- (Nat.add_0_r (List.length (photos prev))), without_app.
    unfold without. cbn [firstn skipn app]. rewrite app_nil_r. now destruct prev.
Qed.


Lemma uploaded_app (a b : list Call) : uploaded (a ++ b) = uploaded a ++ uploaded b.
Proof. apply flat_map_app. Qed.

Lemma fileNames_length (Date_now : nat -> Z) (photos : list File) :
  forall tick, List.length (fileNames Date_now tick photos) = List.length photos.
Proof.
  induction photos as [|p l IH]; intros tick; cbn [fileNames List.length]; [reflexivity|].
  now rewrite IH.
Qed.

Lemma uploaded_uploads (names : list string) (photos : list File) :
  List.length names = List.length photos -> uploaded (uploads names photos) = photos.
Proof.
  unfold uploads. revert photos.
  induction names as [|n names IH]; intros [|p photos] H; try discriminate; [reflexivity|].
  cbn [combine map uploaded flat_map app]. f_equal. apply IH. now inversion H.
Qed.


(** *** The names under which photos are stored *)






Section Photos.
Variable Date_now : nat -> Z.
Variable upload_error : World -> string -> File -> option string.
Variable insert_error : World -> Row.t -> option string.
Variable getPublicUrl : string -> string.

Local Abbreviation upload_photos := (upload_photos Date_now upload_error getPublicUrl).
Local Abbreviation submit := (submit Date_now upload_error insert_error getPublicUrl).
Local Abbreviation handleSubmit :=
  (handleSubmit Date_now upload_error insert_error getPublicUrl).
Local Abbreviation fileNames := (fileNames Date_now).
Local Abbreviation upload_photos_run := (upload_photos_run Date_now upload_error getPublicUrl).
Local Abbreviation submit_run := (submit_run Date_now upload_error insert_error getPublicUrl).

(** The photos handed to the object store are the first photos of the
    form, in order: all of them unless an upload is refused. *)
Lemma submit_uploaded (user_id : option string) (formData : CaptureFormData) (w : World) :
  exists made rest,
    calls (snd (submit user_id formData w)) = calls w ++ made
    /\ photos formData = uploaded made ++ rest
    /\ (forall u, fst (submit user_id formData w) = inr u -> rest = []).
Proof.
  unfold CaptureForm.submit, bind.
  pose proof (upload_photos_run (photos formData) [] w) as U.
  destruct (CaptureForm.upload_photos _ _ _ (photos formData) [] w) as [[e|urls] w1].
  - destruct U as (done & photo & rest & fn & Hp & _ & _ & Hk).
    exists (uploads (fileNames (ticks w) done) done ++ [Upload fn photo (Some e)]), rest.
    cbn [fst snd]. split; [exact Hk|]. split; [|intros u; discriminate].
    rewrite uploaded_app, uploaded_uploads by apply fileNames_length.
    cbn. now rewrite <- app_assoc.
  - destruct U as (_ & _ & _ & Hk).
    unfold insert. cbn [objects captures calls ticks].
    match goal with |- context [insert_error w1 ?r] => set (row := r) end.
    destruct (insert_error w1 row) as [e|]; unfold throw, ret; cbn [fst snd calls];
      eexists; exists []; (split; [rewrite Hk, <- app_assoc; reflexivity|]);
      (split; [|intros; reflexivity]);
      rewrite uploaded_app, uploaded_uploads by apply fileNames_length;
      cbn; now rewrite ?app_nil_r.
Qed.

(** X9. A photo removed from the form is not uploaded: when the form is
    submitted after the removal, the photos handed to the object store are
    the remaining photos in their order, all of them when the submission
    goes through and the first ones when a call is refused. *)
Theorem removed_photo_is_not_uploaded (user_id : option string) (index : nat)
    (formData : CaptureFormData) (ui : UI) (w : World) :
  let run := handleSubmit user_id (removePhoto index formData formData) ui w in
  exists made rest,
    calls (snd run) = calls w ++ made
    /\ without index (photos formData) = uploaded made ++ rest
    /\ (error (fst run) = None -> rest = []).
Proof.
  cbv zeta. rewrite <- (removePhoto_photos index formData formData).
  set (d := removePhoto index formData formData).
  destruct (submit_uploaded user_id d w) as (made & rest & Hk & Hu & Hr).
  exists made, rest. unfold CaptureForm.handleSubmit.
  destruct (CaptureForm.submit _ _ _ _ user_id d w) as [[e|u] w1]; cbn [fst snd] in *.
  - repeat split; try assumption. discriminate.
  - repeat split; try assumption. intros _. now apply (Hr u).
Qed.



End Photos.

(** ** Submitting again *)

Lemma photos_of_combine (names : list string) (photos : list File) :
  List.length names = List.length photos -> map snd (combine names photos) = photos.
Proof.
  revert photos.
  induction names as [|n names IH]; intros [|p photos] H; try discriminate; [reflexivity|].
  cbn [combine map snd]. f_equal. apply IH. now inversion H.
Qed.

Section Retry.
Variable Date_now : nat -> Z.
Variable upload_error : World -> string -> File -> option string.
Variable insert_error : World -> Row.t -> option string.
Variable getPublicUrl : string -> string.

Local Abbreviation handleSubmit :=
  (handleSubmit Date_now upload_error insert_error getPublicUrl).
Local Abbreviation fileNames := (fileNames Date_now).
Local Abbreviation submit_run := (submit_run Date_now upload_error insert_error getPublicUrl).

(** X21. Submitting again after a refused call inserts the one record, a
    draft of the user with the values of the form, but uploads every photo
    once more: the photos stored by the attempt that
    failed stay in the bucket besides their second copies, under names that
    no record refers to. *)
Theorem retry_uploads_every_photo_again (user_id : option string)
    (formData : CaptureFormData) (ui : UI) (w : World) :
  let first := handleSubmit user_id formData ui w in
  let second := handleSubmit user_id formData (fst first) (snd first) in
  error (fst first) <> None ->
  error (fst second) = None ->
  exists done rest row,
    photos formData = done ++ rest
    /\ map snd (objects (snd second)) = map snd (objects w) ++ done ++ photos formData
    /\ captures (snd second) = captures w ++ [row]
    /\ Row.status row = Capture.draft
    /\ Row.user_id row = user_id
    /\ collects formData row
    /\ Capture.photoUrls (Row.data row)
       = map getPublicUrl (fileNames (ticks (snd first)) (photos formData))
    /\ success (fst second) = true.
Proof.
  cbv zeta. unfold CaptureForm.handleSubmit.
  pose proof (submit_run user_id formData w) as R1.
  destruct (CaptureForm.submit _ _ _ _ user_id formData w) as [[e|u] w1];
    cbn [fst snd error]; [intros _ | intros H; now elim H].
  destruct R1 as (done & rest & last & Hp & _ & Ho1 & Hc1 & _).
  pose proof (submit_run user_id formData w1) as R2.
  destruct (CaptureForm.submit _ _ _ _ user_id formData w1) as [[e2|u2] w2];
    cbn [fst snd error success]; [discriminate | intros _].
  destruct R2 as (row & Hu & Hs & Hcol & Hurls & Ho2 & Hc2 & _). cbv zeta in *.
  exists done, rest, row. split; [exact Hp|]. split.
  - rewrite Ho2, Ho1, !map_app, !photos_of_combine by apply fileNames_length.
    now rewrite <- app_assoc.
  - rewrite Hc2, Hc1. repeat split; try assumption; apply Hcol.
Qed.
End Retry.

End CaptureFormFacts.

(* ===================================================================== *)
(** * The aggregation                                                     *)
(* ===================================================================== *)

Module AnalyticsFacts.
Import Capture Analytics Spec JSFacts.

Lemma status_string_plain (s : Status) : inherited (status_string s) = false.
Proof. now destruct s. Qed.

(** Tallying under plain keys counts every record that passes the guard
    once, under its key. *)
Lemma tally_plain (guard : CaptureRecord -> bool) (key : CaptureRecord -> string)
    (l : list CaptureRecord) :
  forall o : JS.object,
    counter o ->
    (forall c, In c l -> guard c = true -> inherited (key c) = false) ->
    let o' := fold_left (fun o c => if guard c then JS.bump o (key c) else o) l o in
    counter o'
    /\ total o' = total o + how_many guard l
    /\ forall k, tallied o' k
                 = tallied o k + how_many (fun c => guard c && String.eqb (key c) k) l.
Proof.
  induction l as [|c l IH]; intros o C P; cbn [fold_left].
  - unfold how_many. cbn. repeat split; try assumption; intros; lia.
  - assert (Pc : guard c = true -> inherited (key c) = false) by (apply P; now left).
    assert (Pl : forall c', In c' l -> guard c' = true -> inherited (key c') = false)
      by (intros c' H; apply P; now right).
    destruct (guard c) eqn:G.
    + specialize (Pc eq_refl).
      destruct (IH (JS.bump o (key c)) (counter_bump _ _ Pc C) Pl) as (C' & T & K).
      split; [exact C'|]. split.
      * rewrite T, (total_bump _ _ Pc C), how_many_cons, G. lia.
      * intros k. rewrite K, (tallied_bump _ _ _ Pc C), how_many_cons, G. cbn [andb].
        lia.
    + destruct (IH o C Pl) as (C' & T & K).
      split; [exact C'|]. split.
      * rewrite T, how_many_cons, G. lia.
      * intros k. rewrite K, how_many_cons, G. cbn [andb]. lia.
Qed.

Lemma how_many_all {A : Type} (l : list A) :
  how_many (fun _ => true) l = Z.of_nat (List.length l).
Proof.
  induction l as [|a l IH]; [reflexivity|].
  rewrite how_many_cons, IH. cbn [List.length]. lia.
Qed.

Lemma counter_empty : counter JS.empty_object.
Proof. constructor. Qed.

Lemma how_many_ext {A : Type} (p q : A -> bool) (l : list A) :
  (forall a, p a = q a) -> how_many p l = how_many q l.
Proof. intros H. unfold how_many. now rewrite (filter_ext p q H). Qed.

Lemma how_many_none {A : Type} (l : list A) : how_many (fun _ => false) l = 0.
Proof.
  induction l as [|a l IH]; [reflexivity|]. now rewrite how_many_cons, IH.
Qed.

(** A counter is read back as the number it has tallied. *)
Lemma own_counter (o : JS.object) (k : string) :
  counter o ->
  JS.own o k = if tallied o k =? 0 then None else Some (JS.Num (tallied o k)).
Proof.
  intros C. unfold tallied. destruct (JS.own o k) as [v|] eqn:O; [|reflexivity].
  destruct (counter_own _ _ _ C O) as [n [-> Hn]].
  destruct (n =? 0) eqn:E; [apply Z.eqb_eq in E; lia | reflexivity].
Qed.

(** *** The mean *)

Lemma fold_left_map {A B C : Type} (f : C -> B -> C) (g : A -> B) (l : list A) :
  forall c, fold_left (fun acc a => f acc (g a)) l c = fold_left f (map g l) c.
Proof. induction l as [|a l IH]; intros c; simpl; [reflexivity | apply IH]. Qed.

Lemma average_mean (field : CaptureRecord -> string) (l : list CaptureRecord) :
  average field l = mean (map (fun c => JS.Number (field c)) (valid field l)).
Proof.
  unfold average, mean. destruct (valid field l) as [|c v]; [reflexivity|].
  cbn [List.length Nat.ltb Nat.leb]. cbv zeta.
  rewrite fold_left_map, length_map. reflexivity.
Qed.

Lemma valid_In (field : CaptureRecord -> string) (l : list CaptureRecord) (c : CaptureRecord) :
  In c (valid field l) <->
  In c l /\ field c <> "" /\ StringNumericLiteral (field c).
Proof.
  unfold valid, JS.truthy. rewrite filter_In, andb_true_iff, !negb_true_iff.
  rewrite String.eqb_neq, NumeralFacts.Number_reads_numerals. reflexivity.
Qed.

Lemma valid_without (field : CaptureRecord -> string) (before behind : list CaptureRecord)
    (c : CaptureRecord) :
  non_numeric (field c) ->
  valid field (before ++ c :: behind) = valid field (before ++ behind).
Proof.
  intros H. apply NumeralFacts.non_numeric_NaN in H.
  unfold valid. rewrite !filter_app. cbn [filter].
  now rewrite H, andb_false_r.
Qed.

Lemma averageOf_analytics getTime toLocaleDateString Date_now timeRange captures m :
  averageOf m (analytics getTime toLocaleDateString Date_now timeRange captures)
  = average (reading m) (filteredCaptures getTime Date_now timeRange captures).
Proof. now destruct m. Qed.

(** *** The window *)

Lemma Qle_bool_days (a w : Z) :
  Qle_bool (inject_Z a / inject_Z msPerDay) (inject_Z w) = (a <=? w * msPerDay).
Proof.
  unfold Qle_bool, Qdiv, Qmult, Qinv, inject_Z, msPerDay. cbn.
  now rewrite !Z.mul_1_r.
Qed.

Lemma parseInt_ranges (timeRange : string) (days : Z) :
  In (timeRange, days) ranges -> JS.parseInt timeRange = Some days.
Proof.
  unfold ranges. cbn [In].
  intros [H|[H|[H|[H|[]]]]]; inversion H; subst; reflexivity.
Qed.

Lemma In_numbered {A : Type} (l : list A) :
  forall (s k : nat) (a : A),
    In (k, a) (numbered s l) <-> (s <= k)%nat /\ nth_error l (k - s) = Some a.
Proof.
  unfold numbered. induction l as [|b l IH]; intros s k a; cbn [List.length seq combine In].
  - split; [intros [] | intros [_ H]]. now destruct (k - s)%nat.
  - rewrite IH. split.
    + intros [[= <- <-] | [Hle Hn]].
      * split; [lia|]. now rewrite Nat.sub_diag.
      * split; [lia|]. replace (k - s)%nat with (S (k - S s)) by lia. exact Hn.
    + intros [Hle Hn]. destruct (Nat.eq_dec k s) as [->|Hne].
      * left. rewrite Nat.sub_diag in Hn. cbn in Hn. congruence.
      * right. split; [lia|]. replace (k - s)%nat with (S (k - S s)) in Hn by lia.
        exact Hn.
Qed.

(** *** Ordering by count *)

Lemma above_zero_by_count (x y : TopLocation.t) (a b : Z) :
  TopLocation.count x = JS.Num a -> TopLocation.count y = JS.Num b ->
  JS.above_zero (by_count x y) = (a <? b).
Proof.
  intros Hx Hy. unfold by_count. rewrite Hx, Hy. cbn.
  destruct (0 <? b - a) eqn:E, (a <? b) eqn:E'; try reflexivity;
    rewrite ?Z.ltb_lt, ?Z.ltb_ge in *; lia.
Qed.

Lemma insert_by_count_sorted (x : TopLocation.t) (l : list TopLocation.t) :
  Forall (fun e => exists n, TopLocation.count e = JS.Num n) (x :: l) ->
  StronglySorted descending l ->
  StronglySorted descending (JS.insert_sorted by_count x l).
Proof.
  intros N S. inversion N as [|? ? [a Hx] Nl]; subst. clear N.
  induction S as [|y l S IH F]; simpl.
  - repeat constructor.
  - inversion Nl as [|? ? [b Hy] Nl']; subst.
    rewrite (above_zero_by_count _ _ _ _ Hx Hy).
    destruct (a <? b) eqn:E.
    + apply Z.ltb_lt in E. constructor; [now apply IH|].
      rewrite Forall_forall in *. intros z Hz.
      apply insert_sorted_In in Hz. destruct Hz as [->|Hz]; [|now apply F].
      exists b, a. repeat split; try assumption; lia.
    + apply Z.ltb_ge in E. constructor; [now constructor|].
      constructor; [exists a, b; now repeat split|].
      rewrite Forall_forall in *. intros z Hz.
      destruct (F z Hz) as (b' & c & Hb' & Hc & Hle).
      rewrite Hy in Hb'. inversion Hb'; subst b'.
      exists a, c. repeat split; try assumption; lia.
Qed.

Lemma sort_by_count_sorted (l : list TopLocation.t) :
  Forall (fun e => exists n, TopLocation.count e = JS.Num n) l ->
  StronglySorted descending (JS.sort by_count l).
Proof.
  induction l as [|x l IH]; intros N; simpl; [constructor|].
  inversion N as [|? ? Hx Nl]; subst.
  apply insert_by_count_sorted; [|now apply IH].
  constructor; [assumption|].
  rewrite Forall_forall in *. intros z Hz. apply Nl.
  now apply (Permutation_in _ (sort_perm by_count l)).
Qed.

(** Entries with the same count keep the order they had. *)
Lemma insert_by_count_stable (n : Z) (x : TopLocation.t) (l : list TopLocation.t) :
  Forall (fun e => exists n, TopLocation.count e = JS.Num n) (x :: l) ->
  filter (has_count n) (JS.insert_sorted by_count x l) = filter (has_count n) (x :: l).
Proof.
  intros N. inversion N as [|? ? [a Hx] Nl]; subst. clear N.
  induction l as [|y l IH]; [reflexivity|].
  inversion Nl as [|? ? [b Hy] Nl']; subst. cbn [JS.insert_sorted].
  rewrite (above_zero_by_count _ _ _ _ Hx Hy).
  destruct (a <? b) eqn:E; [|reflexivity].
  apply Z.ltb_lt in E.
  assert (Cx : has_count n x = (a =? n)) by (unfold has_count; now rewrite Hx).
  assert (Cy : has_count n y = (b =? n)) by (unfold has_count; now rewrite Hy).
  cbn [filter] in *. rewrite (IH Nl'), Cx, Cy.
  destruct (a =? n) eqn:Ea, (b =? n) eqn:Eb; try reflexivity.
  apply Z.eqb_eq in Ea, Eb. lia.
Qed.

Lemma sort_by_count_stable (n : Z) (l : list TopLocation.t) :
  Forall (fun e => exists n, TopLocation.count e = JS.Num n) l ->
  filter (has_count n) (JS.sort by_count l) = filter (has_count n) l.
Proof.
  induction l as [|x l IH]; intros N; [reflexivity|].
  inversion N as [|? ? Hx Nl]; subst. cbn [JS.sort fold_right].
  fold (JS.sort by_count l). rewrite insert_by_count_stable.
  - cbn [filter]. now rewrite IH.
  - constructor; [assumption|].
    rewrite Forall_forall in *. intros z Hz. apply Nl.
    now apply (Permutation_in _ (sort_perm by_count l)).
Qed.

(** A list is determined by being in descending order of count and by the
    order of the entries within each count: with numeric counts, whatever
    stable sort the host runs returns the list computed by [JS.sort]. *)
Lemma descending_stable_unique (l1 : list TopLocation.t) :
  forall l2 : list TopLocation.t,
    Forall (fun e => exists n, TopLocation.count e = JS.Num n) l1 ->
    Forall (fun e => exists n, TopLocation.count e = JS.Num n) l2 ->
    StronglySorted descending l1 ->
    StronglySorted descending l2 ->
    (forall n, filter (has_count n) l1 = filter (has_count n) l2) ->
    l1 = l2.
Proof.
  assert (head_count : forall x a l, TopLocation.count x = JS.Num a ->
            filter (has_count a) (x :: l) = x :: filter (has_count a) l).
  { intros x a l H. cbn [filter]. unfold has_count at 1. now rewrite H, Z.eqb_refl. }
  assert (top : forall x a l z c, TopLocation.count x = JS.Num a ->
            TopLocation.count z = JS.Num c ->
            StronglySorted descending (x :: l) -> In z (x :: l) -> c <= a).
  { intros x a l z c Hx Hz S [<-|Hin].
    - rewrite Hx in Hz. inversion Hz. lia.
    - inversion S as [|? ? _ F]; subst. rewrite Forall_forall in F.
      destruct (F z Hin) as (a' & c' & Ha' & Hc' & Hle).
      rewrite Hx in Ha'. rewrite Hz in Hc'. inversion Ha'; inversion Hc'; subst. lia. }
  assert (found : forall x a l l', TopLocation.count x = JS.Num a ->
            filter (has_count a) (x :: l) = filter (has_count a) l' -> In x l').
  { intros x a l l' Hx E. rewrite (head_count _ _ _ Hx) in E.
    assert (Hin : In x (filter (has_count a) l')) by (rewrite <- E; now left).
    now apply filter_In in Hin. }
  induction l1 as [|x l1 IH]; intros [|y l2] N1 N2 S1 S2 E; [reflexivity| | |].
  - exfalso. inversion N2 as [|? ? [b Hy] _]; subst.
    specialize (E b). rewrite (head_count _ _ _ Hy) in E. discriminate.
  - exfalso. inversion N1 as [|? ? [a Hx] _]; subst.
    specialize (E a). rewrite (head_count _ _ _ Hx) in E. discriminate.
  - inversion N1 as [|? ? [a Hx] N1']; inversion N2 as [|? ? [b Hy] N2']; subst.
    assert (a = b).
    { pose proof (top _ _ _ _ _ Hy Hx S2 (found _ _ _ _ Hx (E a))).
      pose proof (top _ _ _ _ _ Hx Hy S1 (found _ _ _ _ Hy (eq_sym (E b)))). lia. }
    subst b. pose proof (E a) as Ea.
    rewrite (head_count _ _ _ Hx), (head_count _ _ _ Hy) in Ea.
    inversion Ea as [[Exy Et]]. subst y. f_equal.
    inversion S1; inversion S2; subst.
    apply IH; try assumption.
    intros n. destruct (Z.eq_dec n a) as [->|Hn]; [exact Et|].
    assert (Cx : has_count n x = false)
      by (unfold has_count; rewrite Hx; apply Z.eqb_neq; lia).
    specialize (E n). cbn [filter] in E. now rewrite Cx in E.
Qed.

(** Bumping keeps the keys of an object distinct, whatever the key. *)
Lemma tally_NoDup (guard : CaptureRecord -> bool) (key : CaptureRecord -> string)
    (l : list CaptureRecord) :
  forall o : JS.object,
    NoDup (map fst o) ->
    NoDup (map fst (fold_left (fun o c => if guard c then JS.bump o (key c) else o) l o)).
Proof.
  induction l as [|c l IH]; intros o N; cbn [fold_left]; [assumption|].
  apply IH. destruct (guard c); [apply NoDup_Put|]; assumption.
Qed.

Section Host.
Variable getTime : string -> option Z.
Variable toLocaleDateString : string -> string.
Variable Date_now : nat -> Z.

Local Abbreviation filteredCaptures := (filteredCaptures getTime Date_now).
Local Abbreviation analytics := (analytics getTime toLocaleDateString Date_now).

(** The component shows the aggregate of the fetched records, and keeps what
    it showed when the fetch fails. *)
Lemma fetchAnalytics_shows (timeRange : string) (st : State) :
  (forall captures,
      analyticsData (fetchAnalytics getTime toLocaleDateString Date_now timeRange
                       (Data captures) st)
      = Some (analytics timeRange captures))
  /\ (forall message,
        analyticsData (fetchAnalytics getTime toLocaleDateString Date_now timeRange
                         (Error message) st)
        = analyticsData st).
Proof. split; reflexivity. Qed.

(** C1. After every aggregation the status groups hold numbers, the count
    of a status is the number of records of the window with that status,
    and the counts of all groups add up to the total. *)
Theorem status_counts_add_up (timeRange : string) (captures : list CaptureRecord) :
  let a := analytics timeRange captures in
  (exists ns, counts (JS.entries (capturesByStatus a)) = Some ns
              /\ sum ns = Z.of_nat (totalCaptures a))
  /\ forall s : Status,
       tallied (capturesByStatus a) (status_string s)
       = how_many (fun c => String.eqb (status_string (status c)) (status_string s))
                  (filteredCaptures timeRange captures).
Proof.
  cbn [analytics capturesByStatus totalCaptures Analytics.analytics]. unfold tally.
  destruct (tally_plain (fun _ => true) (fun c => status_string (status c))
              (filteredCaptures timeRange captures) JS.empty_object counter_empty)
    as (C & T & K).
  { intros c _ _. apply status_string_plain. }
  split.
  - destruct (counter_counts _ C) as (ns & Hn & Hs). exists ns.
    split; [exact Hn|]. rewrite Hs, T, how_many_all. reflexivity.
  - intros s. rewrite K. reflexivity.
Qed.

(** The window filter keeps a record according to the reading of the clock
    taken at its position. *)
Lemma filter_from_numbered (timeRange : string) (captures : list CaptureRecord) :
  forall k,
    filter_from getTime Date_now timeRange k captures
    = map snd (filter (fun p => inRange getTime Date_now timeRange (fst p) (snd p))
                      (numbered k captures)).
Proof.
  unfold numbered. induction captures as [|c l IH]; intros k; [reflexivity|].
  cbn [filter_from List.length seq combine filter fst snd].
  destruct (inRange getTime Date_now timeRange k c); cbn [map snd]; now rewrite IH.
Qed.

Lemma inRange_within (timeRange : string) (days : Z) (k : nat) (c : CaptureRecord) :
  In (timeRange, days) ranges ->
  inRange getTime Date_now timeRange k c = within getTime Date_now days k c.
Proof.
  intros H. unfold inRange, daysAgo, within. rewrite (parseInt_ranges _ _ H).
  destruct (getTime (created_at c)); [apply Qle_bool_days | reflexivity].
Qed.

(** C5. For each of the windows 7, 30, 90 and 365 the aggregation keeps, in
    order, exactly the fetched records created no more than that many days
    before the clock reading taken when the record is examined; the total is
    their number, so that with the window 7 and three records of which two
    fall within it the total is 2. *)
Theorem window_keeps_recent (timeRange : string) (days : Z)
    (captures : list CaptureRecord) :
  In (timeRange, days) ranges ->
  filteredCaptures timeRange captures
  = map snd (filter (fun p => within getTime Date_now days (fst p) (snd p))
                    (numbered 0 captures))
  /\ (forall c : CaptureRecord,
        In c (filteredCaptures timeRange captures) <->
        exists (k : nat) (t : Z),
          nth_error captures k = Some c
          /\ getTime (created_at c) = Some t
          /\ Date_now k - t <= days * msPerDay)
  /\ totalCaptures (analytics timeRange captures)
     = List.length (filter (fun p => within getTime Date_now days (fst p) (snd p))
                           (numbered 0 captures))
  /\ (days = 7 ->
      List.length captures = 3%nat ->
      List.length (filter (fun p => within getTime Date_now days (fst p) (snd p))
                          (numbered 0 captures)) = 2%nat ->
      totalCaptures (analytics timeRange captures) = 2%nat).
Proof.
  intros R.
  assert (E : filteredCaptures timeRange captures
              = map snd (filter (fun p => within getTime Date_now days (fst p) (snd p))
                                (numbered 0 captures))).
  { unfold Analytics.filteredCaptures. rewrite filter_from_numbered. f_equal.
    apply filter_ext. intros [k c]. now apply inRange_within. }
  assert (T : totalCaptures (analytics timeRange captures)
              = List.length (filter (fun p => within getTime Date_now days (fst p) (snd p))
                                    (numbered 0 captures))).
  { cbn [totalCaptures Analytics.analytics]. now rewrite E, length_map. }
  split; [exact E|]. split; [|split; [exact T|]].
  - intros c. rewrite E, in_map_iff. split.
    + intros [[k c'] [Hs Hin]]. cbn in Hs. subst c'.
      apply filter_In in Hin. destruct Hin as [Hin Hw]. cbn [fst snd] in Hw.
      apply In_numbered in Hin. destruct Hin as [_ Hn]. rewrite Nat.sub_0_r in Hn.
      unfold within in Hw. destruct (getTime (created_at c)) as [t|] eqn:G; [|discriminate].
      exists k, t. repeat split; [assumption | now apply Z.leb_le].
    + intros (k & t & Hn & G & Hle). exists (k, c). split; [reflexivity|].
      apply filter_In. split.
      * apply In_numbered. rewrite Nat.sub_0_r. split; [lia | assumption].
      * cbn [fst snd]. unfold within. rewrite G. now apply Z.leb_le.
  - intros _ _ H. now rewrite T.
Qed.

(** X22. What C2 asks for holds of every text that is not a numeral of the
    host language (the texts for which [Number] gives NaN): a record of the
    window with such a text for a measurement takes no part in the mean of
    that measurement; the mean is that of the numbers read from the valid
    records, it is what it would be with the record left out, and so is the
    denominator.  With two records in the window whose temperatures are "20"
    and "bad", the average temperature is 20 and the denominator is 1.  A
    text of white space only is a numeral, it reads as 0, and is not covered
    here. *)
Theorem non_numeric_excluded_from_mean (timeRange : string)
    (captures : list CaptureRecord) (m : Measurement) :
  let filtered := filteredCaptures timeRange captures in
  let a := analytics timeRange captures in
  averageOf m a
  = mean (map (fun c => JS.Number (reading m c)) (valid (reading m) filtered))
  /\ (forall c, non_numeric (reading m c) -> ~ In c (valid (reading m) filtered))
  /\ (forall before c behind,
        filtered = before ++ c :: behind ->
        non_numeric (reading m c) ->
        averageOf m a = average (reading m) (before ++ behind)
        /\ List.length (valid (reading m) filtered)
           = List.length (valid (reading m) (before ++ behind)))
  /\ (forall c c',
        filtered = [c; c'] ->
        temperature (data c) = "20" ->
        temperature (data c') = "bad" ->
        averageTemperature a = JS.of_Z 20
        /\ List.length (valid (fun c => temperature (data c)) filtered) = 1%nat).
Proof.
  cbv zeta. rewrite averageOf_analytics.
  split; [apply average_mean|]. split; [|split].
  - intros c H Hin. apply valid_In in Hin. now apply H.
  - intros before c behind E H. unfold average.
    rewrite E, (valid_without _ _ _ _ H). split; reflexivity.
  - intros c c' E H20 Hbad.
    change (averageTemperature (analytics timeRange captures))
      with (average (fun c => temperature (data c)) (filteredCaptures timeRange captures)).
    assert (V20 : JS.truthy "20" && negb (JS.isNaN (JS.Number "20")) = true)
      by (vm_compute; reflexivity).
    assert (Vbad : JS.truthy "bad" && negb (JS.isNaN (JS.Number "bad")) = false)
      by (vm_compute; reflexivity).
    rewrite E. unfold average, valid. cbn [filter]. rewrite H20, Hbad, V20, Vbad.
    cbn [List.length fold_left Nat.ltb Nat.leb]. rewrite H20.
    split; [vm_compute; reflexivity | reflexivity].
Qed.

(** C9. When no record of the window has a text for a measurement that is
    non-empty and reads as a number, the mean of that measurement is exactly
    0. *)
Theorem mean_without_values_is_zero (timeRange : string)
    (captures : list CaptureRecord) (m : Measurement) :
  (forall c, In c (filteredCaptures timeRange captures) ->
             reading m c = "" \/ non_numeric (reading m c)) ->
  averageOf m (analytics timeRange captures) = JS.pos_zero.
Proof.
  intros H. rewrite averageOf_analytics. unfold average.
  replace (valid (reading m) (filteredCaptures timeRange captures)) with (@nil CaptureRecord);
    [reflexivity|].
  symmetry. unfold valid.
  induction (filteredCaptures timeRange captures) as [|c l IH]; [reflexivity|].
  cbn [filter].
  assert (F : JS.truthy (reading m c) && negb (JS.isNaN (JS.Number (reading m c))) = false).
  { destruct (H c (or_introl eq_refl)) as [E|E].
    - now rewrite E.
    - apply NumeralFacts.non_numeric_NaN in E. now rewrite E, andb_false_r. }
  rewrite F. apply IH. intros c' Hc'. apply H. now right.
Qed.


(** X11. What C6 asks for holds as long as no location is the name of a
    property that objects inherit: the list has at most five entries, each
    with the number of records of the window at that location, in
    descending order of that number; it is the first five of the list of
    all entries put in descending order of count, entries with equal
    counts in the order in which the object lists them. *)
Lemma top_locations_of_plain_names (timeRange : string) (captures : list CaptureRecord) :
  let filtered := filteredCaptures timeRange captures in
  let listed := map (fun '(l, c) => TopLocation.Build_t l c)
                    (JS.entries (locationCounts filtered)) in
  let top := topLocations (analytics timeRange captures) in
  (forall c, In c filtered -> inherited (location (data c)) = false) ->
  (List.length top <= 5)%nat
  /\ StronglySorted descending top
  /\ (forall e, In e top ->
        TopLocation.count e
        = JS.Num (how_many (fun c => String.eqb (location (data c)) (TopLocation.location e))
                           filtered))
  /\ exists sorted,
       top = firstn 5 sorted
       /\ StronglySorted descending sorted
       /\ Permutation sorted listed
       /\ forall n, filter (has_count n) sorted = filter (has_count n) listed.
Proof.
  cbv zeta. intros P.
  set (filtered := filteredCaptures timeRange captures).
  set (o := locationCounts filtered).
  set (listed := map (fun '(l, c) => TopLocation.Build_t l c) (JS.entries o)).
  assert (Top : topLocations (analytics timeRange captures)
                = firstn 5 (JS.sort by_count listed)) by reflexivity.
  rewrite Top. clear Top.
  destruct (tally_plain (fun c => JS.truthy (location (data c)))
              (fun c => location (data c)) filtered JS.empty_object counter_empty)
    as (C & _ & K).
  { intros c Hin _. now apply P. }
  fold (tally (fun c => JS.truthy (location (data c))) (fun c => location (data c)) filtered) in C, K.
  fold (locationCounts filtered) in C, K. fold o in C, K.
  assert (N : NoDup (map fst o)) by (apply tally_NoDup; constructor).
  assert (Num : Forall (fun e => exists n, TopLocation.count e = JS.Num n) listed).
  { unfold listed, JS.entries. unfold counter in C. clear - C.
    induction C as [|[k v] o' [n [H _]] C IH]; cbn [map]; constructor; [|exact IH].
    cbn in *. now exists n. }
  split; [apply firstn_le_length|].
  split; [apply StronglySorted_firstn, sort_by_count_sorted, Num|].
  split.
  - intros e He.
    assert (Hl : In e listed).
    { apply (Permutation_in _ (sort_perm by_count listed)).
      rewrite <- (firstn_skipn 5 (JS.sort by_count listed)). apply in_or_app. now left. }
    unfold listed, JS.entries in Hl. apply in_map_iff in Hl.
    destruct Hl as [[k v] [<- Hin]]. cbn [TopLocation.count TopLocation.location].
    pose proof (own_In _ _ _ N Hin) as O.
    rewrite (own_counter _ _ C), K in O.
    cbn [tallied JS.own JS.empty_object Z.add] in O.
    destruct (String.eqb k "") eqn:E.
    + apply String.eqb_eq in E. subst k.
      rewrite (how_many_ext _ (fun _ => false)), how_many_none in O; [discriminate|].
      intros c. unfold JS.truthy. now destruct (String.eqb (location (data c)) "").
    + rewrite (how_many_ext _ (fun c => String.eqb (location (data c)) k)) in O.
      * destruct (_ =? 0); [discriminate | now inversion O].
      * intros c. unfold JS.truthy.
        destruct (String.eqb (location (data c)) k) eqn:E'; [|apply andb_false_r].
        apply String.eqb_eq in E'. rewrite E', E. reflexivity.
  - exists (JS.sort by_count listed).
    split; [reflexivity|]. split; [apply sort_by_count_sorted, Num|].
    split; [apply sort_perm|].
    intros n. now apply sort_by_count_stable.
Qed.
End Host.

(** ** The figures of the report *)

(** *** Keys of a tally *)

Lemma keys_Put o k v k' :
  In k' (map fst (JS.Put o k v)) ->
  (k' = k /\ k <> "__proto__") \/ In k' (map fst o).
Proof.
  unfold JS.Put. destruct (String.eqb k "__proto__") eqn:E; [now right|].
  apply String.eqb_neq in E.
  destruct (JS.own o k); [rewrite keys_replace; now right|].
  destruct (JS.array_index k).
  - rewrite keys_insert_index. intros [->|H]; [left | right]; tauto.
  - rewrite map_app, in_app_iff. cbn. intros [H|[<-|[]]]; [right | left]; tauto.
Qed.

Lemma keys_tally (guard : CaptureRecord -> bool) (key : CaptureRecord -> string)
    (l : list CaptureRecord) (k : string) :
  forall o : JS.object,
    In k (map fst (fold_left (fun o c => if guard c then JS.bump o (key c) else o) l o)) ->
    In k (map fst o)
    \/ k <> "__proto__" /\ exists c, In c l /\ guard c = true /\ key c = k.
Proof.
  induction l as [|c l IH]; intros o H; cbn [fold_left] in H; [now left|].
  apply IH in H. destruct H as [H | [Hk (c' & Hin & G & E)]].
  - destruct (guard c) eqn:G; [|now left].
    apply keys_Put in H. destruct H as [[-> Hk]|H]; [right | now left].
    split; [exact Hk|]. exists c. repeat split; [now left | exact G].
  - right. split; [exact Hk|]. exists c'. repeat split; [now right | exact G | exact E].
Qed.

Lemma NoDup_firstn {A : Type} (n : nat) (l : list A) : NoDup l -> NoDup (firstn n l).
Proof.
  intros N. rewrite <- (firstn_skipn n l) in N. now apply NoDup_app_remove_r in N.
Qed.

Lemma own_Some_In o k v : JS.own o k = Some v -> In (k, v) o.
Proof.
  induction o as [|[k0 v0] o IH]; cbn; [discriminate|].
  destruct (String.eqb k0 k) eqn:E; [|now right; apply IH].
  apply String.eqb_eq in E. intros [= ->]. left. now subst.
Qed.

Lemma how_many_pos {A : Type} (p : A -> bool) (l : list A) (a : A) :
  In a l -> p a = true -> 0 < how_many p l.
Proof.
  intros Hin Hp. unfold how_many.
  assert (H : In a (filter p l)) by now apply filter_In.
  destruct (filter p l); [contradiction | cbn [List.length]; lia].
Qed.

Lemma existsb_keys (o : JS.object) (k : string) :
  existsb (String.eqb k) (map fst o)
  = match JS.own o k with Some _ => true | None => false end.
Proof.
  induction o as [|[k0 v0] o IH]; cbn [map fst existsb JS.own]; [reflexivity|].
  rewrite (String.eqb_sym k k0). destruct (String.eqb k0 k); [reflexivity | exact IH].
Qed.

(** Under a key that is neither inherited nor an array index a new group
    is opened behind the groups there are. *)
Lemma keys_bump (o : JS.object) (k : string) :
  inherited k = false -> JS.array_index k = None -> counter o ->
  map fst (JS.bump o k)
  = if existsb (String.eqb k) (map fst o) then map fst o else map fst o ++ [k].
Proof.
  intros P I C. rewrite (bump_plain _ _ P C), existsb_keys. unfold JS.Put.
  rewrite (inherited_proto _ P).
  destruct (JS.own o k); [apply keys_replace|].
  rewrite I, map_app. reflexivity.
Qed.

Lemma keys_tally_ordered (key : CaptureRecord -> string) (l : list CaptureRecord) :
  (forall c, In c l -> inherited (key c) = false /\ JS.array_index (key c) = None) ->
  forall o : JS.object,
    counter o ->
    map fst (fold_left (fun o c => if true then JS.bump o (key c) else o) l o)
    = fold_left (fun seen k => if existsb (String.eqb k) seen then seen else seen ++ [k])
                (map key l) (map fst o).
Proof.
  induction l as [|c l IH]; intros P o C; cbn [fold_left map]; [reflexivity|].
  destruct (P c (or_introl eq_refl)) as [Pc Ic].
  rewrite IH.
  - now rewrite (keys_bump _ _ Pc Ic C).
  - intros c' H. apply P. now right.
  - now apply counter_bump.
Qed.

Lemma status_string_not_index (s : Status) : JS.array_index (status_string s) = None.
Proof. now destruct s. Qed.

Lemma filter_twice {A : Type} (p q : A -> bool) (l : list A) :
  filter p (filter q l) = filter (fun a => q a && p a) l.
Proof.
  induction l as [|a l IH]; cbn [filter]; [reflexivity|].
  destruct (q a); cbn [filter andb]; [destruct (p a)|]; now rewrite IH.
Qed.

(** Collecting keys from the left, skipping those seen, lists them in the
    order of first occurrence. *)
Lemma collect_distinct (l : list string) :
  forall seen : list string,
    fold_left (fun seen k => if existsb (String.eqb k) seen then seen else seen ++ [k])
              l seen
    = seen ++ filter (fun k => negb (existsb (String.eqb k) seen)) (distinct l).
Proof.
  induction l as [|k l IH]; intros seen; cbn [fold_left distinct filter].
  - now rewrite app_nil_r.
  - rewrite filter_twice. destruct (existsb (String.eqb k) seen) eqn:E; cbn [negb].
    + rewrite IH. f_equal. apply filter_ext. intros k'.
      destruct (String.eqb k' k) eqn:E'; [|reflexivity].
      apply String.eqb_eq in E'. subst k'. now rewrite E.
    + rewrite IH, <- app_assoc. cbn [app]. do 2 f_equal. apply filter_ext. intros k'.
      rewrite existsb_app. cbn [existsb]. rewrite orb_false_r, negb_orb.
      apply andb_comm.
Qed.

(** *** The largest count *)

Lemma integers_counter (o : JS.object) :
  counter o ->
  exists ns,
    JS.integers (JS.values o) = Some ns
    /\ List.length ns = List.length o
    /\ forall n, In n ns <-> exists k, In (k, JS.Num n) o.
Proof.
  unfold JS.values.
  intros C. induction C as [|[k v] o [n [H _]] C IH]; cbn in *.
  - exists []. split; [reflexivity|]. split; [reflexivity|].
    intros n. split; [intros [] | intros [k []]].
  - subst v. destruct IH as (ns & -> & L & I). exists (n :: ns). cbn.
    split; [reflexivity|]. split; [now rewrite L|].
    intros m. rewrite I. split.
    + intros [<-|[k' H]]; [exists k; now left | exists k'; now right].
    + intros [k' [[= _ <-]|H]]; [now left | right; now exists k'].
Qed.

Lemma fold_max (zs : list Z) :
  forall z : Z,
    In (fold_left Z.max zs z) (z :: zs)
    /\ forall y, In y (z :: zs) -> y <= fold_left Z.max zs z.
Proof.
  induction zs as [|x zs IH]; intros z; cbn [fold_left].
  - split; [now left | intros y [<-|[]]; lia].
  - destruct (IH (Z.max z x)) as [Hin Hle]. split.
    + destruct Hin as [E|Hin]; [|right; now right].
      rewrite <- E. destruct (Z.max_spec z x) as [[_ ->]|[_ ->]]; [right | ]; now left.
    + intros y Hy.
      assert (Z.max z x <= fold_left Z.max zs (Z.max z x)) by (apply Hle; now left).
      destruct Hy as [<-|[<-|Hy]]; [lia | lia | apply Hle; now right].
Qed.

(** *** Sorting by month *)

Section Calendar.
Variable getTime : string -> option Z.

Lemma insert_by_month_sorted (x : string * JS.value) (l : list (string * JS.value)) :
  Forall (fun e => getTime (fst e) <> None) (x :: l) ->
  StronglySorted (earlier getTime) l ->
  StronglySorted (earlier getTime) (JS.insert_sorted (by_month getTime) x l).
Proof.
  intros N S. inversion N as [|? ? Hx Nl]; subst. clear N.
  destruct (getTime (fst x)) as [tx|] eqn:Ex; [clear Hx | contradiction].
  induction S as [|y l S IH F]; cbn [JS.insert_sorted].
  - repeat constructor.
  - inversion Nl as [|? ? Hy Nl']; subst.
    destruct (getTime (fst y)) as [ty|] eqn:Ey; [clear Hy | contradiction].
    unfold by_month at 1. rewrite Ex, Ey. cbn [JS.above_zero].
    destruct (0 <? tx - ty) eqn:E.
    + apply Z.ltb_lt in E. constructor; [now apply IH|].
      rewrite Forall_forall in *. intros z Hz.
      apply insert_sorted_In in Hz. destruct Hz as [->|Hz]; [|now apply F].
      exists ty, tx. repeat split; try assumption; lia.
    + apply Z.ltb_ge in E. constructor; [now constructor|].
      constructor; [exists tx, ty; repeat split; try assumption; lia|].
      rewrite Forall_forall in *. intros z Hz.
      destruct (F z Hz) as (ty' & tz & Hy' & Hz' & Hle).
      rewrite Ey in Hy'. inversion Hy'; subst ty'.
      exists tx, tz. repeat split; try assumption; lia.
Qed.

Lemma sort_by_month_sorted (l : list (string * JS.value)) :
  Forall (fun e => getTime (fst e) <> None) l ->
  StronglySorted (earlier getTime) (JS.sort (by_month getTime) l).
Proof.
  induction l as [|x l IH]; intros N; cbn; [constructor|].
  inversion N as [|? ? Hx Nl]; subst.
  apply insert_by_month_sorted; [|now apply IH].
  constructor; [assumption|].
  rewrite Forall_forall in *. intros z Hz. apply Nl.
  now apply (Permutation_in _ (sort_perm (by_month getTime) l)).
Qed.
End Calendar.


(** A failed fetch keeps the report, a successful one replaces it, and
    every fetch ends the loading state. *)
Section Refresh.
Variable getTime : string -> option Z.
Variable toLocaleDateString : string -> string.
Variable Date_now : nat -> Z.

Local Abbreviation analytics := (analytics getTime toLocaleDateString Date_now).
Local Abbreviation fetchAnalytics :=
  (fetchAnalytics getTime toLocaleDateString Date_now).

Lemma refresh_data (fetches : list (string * Response)) :
  forall st : State,
    analyticsData
      (fold_left (fun st f => fetchAnalytics (fst f) (snd f) st) fetches st)
    = match last_success fetches with
      | Some (timeRange, captures) => Some (analytics timeRange captures)
      | None => analyticsData st
      end.
Proof.
  induction fetches as [|[t r] l IH]; intros st; cbn [fold_left last_success fst snd];
    [reflexivity|].
  rewrite IH. destruct (last_success l) as [[t' c']|]; [reflexivity|].
  now destruct r.
Qed.

Lemma refresh_loading (fetches : list (string * Response)) :
  forall (st : State),
    loading st = false ->
    loading (fold_left (fun st f => fetchAnalytics (fst f) (snd f) st) fetches st)
    = false.
Proof.
  induction fetches as [|[t r] l IH]; intros st H; cbn [fold_left]; [exact H|].
  apply IH. now destruct r.
Qed.

(** X12. Once the first fetch has been answered the spinner is gone for
    good: after any series of fetches the component shows the report of the
    last fetch that was answered with records, whatever time range has been
    selected since, and the notice that there is no data when every fetch
    has failed. *)
Theorem failed_refresh_keeps_the_report (first : string * Response)
    (others : list (string * Response)) :
  render (fold_left (fun st f => fetchAnalytics (fst f) (snd f) st)
                    (first :: others) initial)
  = match last_success (first :: others) with
    | Some (timeRange, captures) => Report (analytics timeRange captures)
    | None => NoData
    end.
Proof.
  unfold render. rewrite refresh_data.
  cbn [fold_left]. rewrite refresh_loading by now destruct (snd first).
  destruct (last_success (first :: others)) as [[t c]|]; reflexivity.
Qed.
End Refresh.

Section Figures.
Variable getTime : string -> option Z.
Variable toLocaleDateString : string -> string.
Variable Date_now : nat -> Z.

Local Abbreviation filteredCaptures := (filteredCaptures getTime Date_now).
Local Abbreviation analytics := (analytics getTime toLocaleDateString Date_now).

(** *** Months *)

Lemma month_tally (timeRange : string) (captures : list CaptureRecord) :
  let filtered := filteredCaptures timeRange captures in
  let o := capturesByMonth (analytics timeRange captures) in
  (forall c, In c filtered -> inherited (toLocaleDateString (created_at c)) = false) ->
  counter o
  /\ total o = Z.of_nat (List.length filtered)
  /\ forall month,
       tallied o month
       = how_many (fun c => String.eqb (toLocaleDateString (created_at c)) month) filtered.
Proof.
  cbv zeta. intros P.
  cbn [Analytics.analytics capturesByMonth]. unfold tally.
  destruct (tally_plain (fun _ => true) (fun c => toLocaleDateString (created_at c))
              (filteredCaptures timeRange captures) JS.empty_object counter_empty)
    as (C & T & K).
  { intros c Hin _. now apply P. }
  split; [exact C|]. split; [now rewrite T, how_many_all|].
  intros month. now rewrite K.
Qed.

(** X13. As long as no month label is the name of a property that objects
    inherit, the monthly counts are numbers, one group per label, the count
    of a label is the number of records of the window created in that
    month, and the counts add up to the total. *)
Theorem month_counts_add_up (timeRange : string) (captures : list CaptureRecord) :
  let filtered := filteredCaptures timeRange captures in
  let a := analytics timeRange captures in
  (forall c, In c filtered -> inherited (toLocaleDateString (created_at c)) = false) ->
  (exists ns, counts (JS.entries (capturesByMonth a)) = Some ns
              /\ sum ns = Z.of_nat (totalCaptures a))
  /\ NoDup (map fst (JS.entries (capturesByMonth a)))
  /\ forall month,
       tallied (capturesByMonth a) month
       = how_many (fun c => String.eqb (toLocaleDateString (created_at c)) month)
                  filtered.
Proof.
  cbv zeta. intros P. destruct (month_tally timeRange captures P) as (C & T & K).
  split; [|split; [|exact K]].
  - destruct (counter_counts _ C) as (ns & Hn & Hs). exists ns.
    split; [exact Hn|]. now rewrite Hs, T.
  - apply tally_NoDup. constructor.
Qed.

(** X14. Peak Monthly Captures.  With no record in the window the figure is
    [-Infinity].  Otherwise (month labels being plain) it is the number of
    records of the month with the most records: some month has that many
    and no month has more. *)
Theorem peak_is_the_fullest_month (timeRange : string) (captures : list CaptureRecord) :
  let filtered := filteredCaptures timeRange captures in
  let a := analytics timeRange captures in
  let created month :=
    how_many (fun c => String.eqb (toLocaleDateString (created_at c)) month) filtered in
  (forall c, In c filtered -> inherited (toLocaleDateString (created_at c)) = false) ->
  match filtered with
  | [] => peakMonthlyCaptures a = JS.Flt JS.neg_infinity
  | _ :: _ =>
      exists month,
        peakMonthlyCaptures a = JS.Int (created month)
        /\ 0 < created month
        /\ forall month', created month' <= created month
  end.
Proof.
  cbv zeta. intros P. destruct (month_tally timeRange captures P) as (C & T & K).
  unfold peakMonthlyCaptures.
  set (o := capturesByMonth (analytics timeRange captures)) in *.
  assert (N : NoDup (map fst o)) by (apply tally_NoDup; constructor).
  destruct (integers_counter o C) as (ns & Hn & Hl & Hin).
  destruct (filteredCaptures timeRange captures) as [|c l] eqn:F.
  - assert (Ho : o = []).
    { unfold o. cbn [Analytics.analytics capturesByMonth]. now rewrite F. }
    now rewrite Ho.
  - rewrite <- F in *.
    assert (Hc : In c (filteredCaptures timeRange captures)) by (rewrite F; now left).
    unfold JS.Math_max. rewrite Hn.
    destruct ns as [|z zs].
    { exfalso. pose proof (K (toLocaleDateString (created_at c))) as Kc.
      destruct o; [|discriminate]. cbn in Kc.
      pose proof (how_many_pos (fun c0 => String.eqb (toLocaleDateString (created_at c0))
                                            (toLocaleDateString (created_at c)))
                    _ c Hc (String.eqb_refl _)). lia. }
    destruct (fold_max zs z) as [Hm Hle].
    set (m := fold_left Z.max zs z) in *.
    apply Hin in Hm. destruct Hm as [month Hm].
    pose proof (own_In _ _ _ N Hm) as O.
    assert (Em : tallied o month = m) by (unfold tallied; now rewrite O).
    exists month. rewrite <- K, Em. split; [reflexivity|]. split.
    + destruct (counter_own _ _ _ C O) as (n & [= <-] & Hpos). exact Hpos.
    + intros month'. rewrite <- K. unfold tallied.
      destruct (JS.own o month') as [v|] eqn:O'.
      * destruct (counter_own _ _ _ C O') as (n & -> & Hpos).
        apply Hle, Hin. exists month'. now apply own_Some_In.
      * assert (In m (z :: zs)) by (apply Hin; now exists month).
        destruct (counter_own _ _ _ C O) as (n & [= <-] & Hpos). lia.
Qed.

(** X15. Monthly Trend lists every month of the aggregate exactly once with
    its count, and when every month label reads as a date, in the order of
    time. *)
Theorem monthly_trend_is_chronological (timeRange : string)
    (captures : list CaptureRecord) :
  let a := analytics timeRange captures in
  Permutation (monthlyTrend getTime a) (JS.entries (capturesByMonth a))
  /\ NoDup (map fst (monthlyTrend getTime a))
  /\ ((forall e, In e (JS.entries (capturesByMonth a)) -> getTime (fst e) <> None) ->
      StronglySorted (earlier getTime) (monthlyTrend getTime a)).
Proof.
  cbv zeta. unfold monthlyTrend. split; [apply sort_perm|]. split.
  - apply (Permutation_NoDup (l := map fst (JS.entries (capturesByMonth (analytics timeRange captures))))).
    + apply Permutation_map, Permutation_sym, sort_perm.
    + apply tally_NoDup. constructor.
  - intros H. apply sort_by_month_sorted. now apply Forall_forall.
Qed.

(** *** Statuses *)

(** X16. The status breakdown has one row for each status that occurs in the
    window, in the order in which the statuses first occur among the
    window's records. *)
Theorem status_rows_in_order_of_first_occurrence (timeRange : string)
    (captures : list CaptureRecord) :
  map fst (JS.entries (capturesByStatus (analytics timeRange captures)))
  = distinct (map (fun c => status_string (status c))
                  (filteredCaptures timeRange captures)).
Proof.
  cbn [Analytics.analytics capturesByStatus]. unfold tally, JS.entries.
  rewrite (keys_tally_ordered (fun c => status_string (status c))).
  - rewrite collect_distinct. cbn [map JS.empty_object app existsb negb].
    apply forallb_filter_id, forallb_forall. reflexivity.
  - intros c _. split; [apply status_string_plain | apply status_string_not_index].
  - apply counter_empty.
Qed.

(** *** The window *)

Lemma filter_from_wider (t1 t2 : string) (captures : list CaptureRecord) :
  (forall k c, inRange getTime Date_now t1 k c = true ->
               inRange getTime Date_now t2 k c = true) ->
  forall k,
    incl (filter_from getTime Date_now t1 k captures)
         (filter_from getTime Date_now t2 k captures)
    /\ (List.length (filter_from getTime Date_now t1 k captures)
        <= List.length (filter_from getTime Date_now t2 k captures))%nat.
Proof.
  intros H. induction captures as [|c l IH]; intros k; cbn [filter_from].
  - split; [apply incl_refl | lia].
  - destruct (IH (S k)) as [I L].
    destruct (inRange getTime Date_now t1 k c) eqn:E1.
    + rewrite (H _ _ E1). split; [|cbn [List.length]; lia].
      intros x [<-|Hx]; [now left | right; now apply I].
    + destruct (inRange getTime Date_now t2 k c).
      * split; [now apply incl_tl | cbn [List.length]; lia].
      * now split.
Qed.

(** X17. Selecting a longer time range never loses a record: what the
    window keeps under a range is kept under every longer range, so the
    total never goes down. *)
Theorem longer_range_keeps_every_record (timeRange timeRange' : string)
    (days days' : Z) (captures : list CaptureRecord) :
  In (timeRange, days) ranges ->
  In (timeRange', days') ranges ->
  days <= days' ->
  incl (filteredCaptures timeRange captures) (filteredCaptures timeRange' captures)
  /\ (totalCaptures (analytics timeRange captures)
      <= totalCaptures (analytics timeRange' captures))%nat.
Proof.
  intros R R' Hle. cbn [Analytics.analytics totalCaptures].
  apply filter_from_wider. intros k c.
  rewrite (inRange_within _ _ _ _ _ _ R), (inRange_within _ _ _ _ _ _ R').
  unfold within. destruct (getTime (created_at c)); [|discriminate].
  rewrite !Z.leb_le. unfold msPerDay. lia.
Qed.

(** X18. When no record falls into the window (a new user, a short range)
    the report is: total 0, no status, quality or month rows, every average
    0, no top location, "N/A" as the most active location, an empty
    monthly trend, and [-Infinity] as the peak of the monthly captures. *)
Theorem report_of_an_empty_window (timeRange : string) (captures : list CaptureRecord) :
  filteredCaptures timeRange captures = [] ->
  let a := analytics timeRange captures in
  a = {| totalCaptures := 0;
         capturesByStatus := JS.empty_object;
         averageTemperature := JS.pos_zero;
         averageHumidity := JS.pos_zero;
         averageWindSpeed := JS.pos_zero;
         averageWaterLevel := JS.pos_zero;
         waterQualityDistribution := JS.empty_object;
         capturesByMonth := JS.empty_object;
         topLocations := [] |}
  /\ mostActiveLocation a = "N/A"
  /\ monthlyTrend getTime a = []
  /\ peakMonthlyCaptures a = JS.Flt JS.neg_infinity.
Proof.
  intros E. cbv zeta.
  assert (A : analytics timeRange captures
              = {| totalCaptures := 0;
                   capturesByStatus := JS.empty_object;
                   averageTemperature := JS.pos_zero;
                   averageHumidity := JS.pos_zero;
                   averageWindSpeed := JS.pos_zero;
                   averageWaterLevel := JS.pos_zero;
                   waterQualityDistribution := JS.empty_object;
                   capturesByMonth := JS.empty_object;
                   topLocations := [] |}).
  { unfold Analytics.analytics. rewrite E. reflexivity. }
  rewrite A. repeat split.
Qed.

(** *** Locations *)

Lemma location_tally (filtered : list CaptureRecord) :
  let o := locationCounts filtered in
  (forall c, In c filtered -> inherited (location (data c)) = false) ->
  counter o
  /\ NoDup (map fst o)
  /\ (forall k, k <> "" ->
        tallied o k
        = how_many (fun c => String.eqb (location (data c)) k) filtered)
  /\ tallied o "" = 0.
Proof.
  cbv zeta. intros P. unfold locationCounts, tally.
  destruct (tally_plain (fun c => JS.truthy (location (data c)))
              (fun c => location (data c)) filtered JS.empty_object counter_empty)
    as (C & _ & K).
  { intros c Hin _. now apply P. }
  split; [exact C|]. split; [apply tally_NoDup; constructor|]. split.
  - intros k Hk. rewrite K. cbn [tallied JS.own JS.empty_object Z.add].
    apply how_many_ext. intros c. unfold JS.truthy.
    destruct (String.eqb (location (data c)) k) eqn:E; [|apply andb_false_r].
    apply String.eqb_eq in E. rewrite E. apply String.eqb_neq in Hk. now rewrite Hk.
  - rewrite K. cbn [tallied JS.own JS.empty_object Z.add].
    rewrite (how_many_ext _ (fun _ => false)); [apply how_many_none|].
    intros c. unfold JS.truthy. now destruct (String.eqb (location (data c)) "").
Qed.

(** X19. Whatever the locations are called, the list of top locations has
    at most five entries, no location twice, and every entry is a non-empty
    location of some record of the window. *)
Theorem top_locations_are_places_of_the_window (timeRange : string)
    (captures : list CaptureRecord) :
  let top := topLocations (analytics timeRange captures) in
  (List.length top <= 5)%nat
  /\ NoDup (map TopLocation.location top)
  /\ forall e, In e top ->
       TopLocation.location e <> ""
       /\ exists c, In c (filteredCaptures timeRange captures)
                    /\ location (data c) = TopLocation.location e.
Proof.
  cbv zeta. set (filtered := filteredCaptures timeRange captures).
  set (o := locationCounts filtered).
  set (listed := map (fun '(l, c) => TopLocation.Build_t l c) (JS.entries o)).
  assert (Top : topLocations (analytics timeRange captures)
                = firstn 5 (JS.sort by_count listed)) by reflexivity.
  rewrite Top. clear Top.
  assert (L : map TopLocation.location listed = map fst o).
  { unfold listed, JS.entries. rewrite map_map. apply map_ext. now intros [k v]. }
  split; [apply firstn_le_length|]. split.
  - rewrite <- firstn_map. apply NoDup_firstn.
    apply (Permutation_NoDup (l := map TopLocation.location listed)).
    + apply Permutation_map, Permutation_sym, sort_perm.
    + rewrite L. apply tally_NoDup. constructor.
  - intros e He.
    assert (Hl : In e listed).
    { apply (Permutation_in _ (sort_perm by_count listed)).
      rewrite <- (firstn_skipn 5 (JS.sort by_count listed)). apply in_or_app. now left. }
    apply (in_map TopLocation.location) in Hl. rewrite L in Hl.
    unfold o, locationCounts, tally in Hl. apply keys_tally in Hl.
    destruct Hl as [[]|[_ (c & Hc & G & E)]].
    split; [|now exists c].
    rewrite <- E. unfold JS.truthy in G. apply negb_true_iff in G.
    now apply String.eqb_neq.
Qed.

(** X20. Most Active Location.  Without a located record in the window the
    figure reads "N/A".  Otherwise (names being plain) it is a location
    at which the window has at least as many records as at any other. *)
Theorem most_active_location_is_most_frequent (timeRange : string)
    (captures : list CaptureRecord) :
  let filtered := filteredCaptures timeRange captures in
  let a := analytics timeRange captures in
  let taken place :=
    how_many (fun c => String.eqb (location (data c)) place) filtered in
  (forall c, In c filtered -> inherited (location (data c)) = false) ->
  ((forall c, In c filtered -> location (data c) = "") ->
   mostActiveLocation a = "N/A")
  /\ ((exists c, In c filtered /\ location (data c) <> "") ->
      mostActiveLocation a <> ""
      /\ 0 < taken (mostActiveLocation a)
      /\ forall place, place <> "" -> taken place <= taken (mostActiveLocation a)).
Proof.
  cbv zeta. set (filtered := filteredCaptures timeRange captures). intros P.
  destruct (location_tally filtered P) as (C & N & K & K0).
  set (o := locationCounts filtered) in *.
  set (listed := map (fun '(l, c) => TopLocation.Build_t l c) (JS.entries o)).
  assert (Top : topLocations (analytics timeRange captures)
                = firstn 5 (JS.sort by_count listed)) by reflexivity.
  unfold mostActiveLocation. rewrite Top. clear Top.
  assert (Num : Forall (fun e => exists n, TopLocation.count e = JS.Num n) listed).
  { unfold listed, JS.entries. unfold counter in C. clear - C.
    induction C as [|[k v] o' [n [H _]] C IH]; cbn [map]; constructor; [|exact IH].
    cbn in *. now exists n. }
  assert (Listed : forall k n, JS.own o k = Some (JS.Num n) ->
                               In (TopLocation.Build_t k (JS.Num n)) listed).
  { intros k n O. apply own_Some_In in O. unfold listed, JS.entries.
    apply in_map_iff. now exists (k, JS.Num n). }
  pose proof (sort_perm by_count listed) as Perm.
  pose proof (sort_by_count_sorted listed Num) as Sorted.
  split.
  - intros E. assert (o = []) as Ho.
    { destruct o as [|[k v] o'] eqn:Eo; [reflexivity|]. exfalso.
      assert (Hk : In k (map fst o)) by (rewrite Eo; now left).
      unfold o, locationCounts, tally in Hk. apply keys_tally in Hk.
      destruct Hk as [[]|[_ (c & Hc & G & _)]].
      rewrite (E c Hc) in G. discriminate. }
    unfold listed. rewrite Ho. reflexivity.
  - intros (c & Hc & Hloc).
    assert (Pos : 0 < tallied o (location (data c))).
    { rewrite (K _ Hloc). apply (how_many_pos _ _ c Hc). apply String.eqb_refl. }
    destruct (JS.sort by_count listed) as [|x rest] eqn:Es.
    { exfalso. pose proof (own_counter o (location (data c)) C) as O.
      destruct (tallied o (location (data c)) =? 0) eqn:Z0;
        [apply Z.eqb_eq in Z0; lia|].
      apply Listed in O. apply (Permutation_in _ (Permutation_sym Perm)) in O.
      contradiction. }
    cbn [firstn].
    assert (Hx : In x listed) by (apply (Permutation_in _ Perm); now left).
    unfold listed, JS.entries in Hx. apply in_map_iff in Hx.
    destruct Hx as [[k v] [<- Hin]]. cbn [TopLocation.location].
    pose proof (own_In _ _ _ N Hin) as O.
    destruct (counter_own _ _ _ C O) as (n & -> & Hn).
    assert (Tk : tallied o k = n) by (unfold tallied; now rewrite O).
    assert (Hk : k <> "").
    { intros ->. rewrite K0 in Tk. lia. }
    rewrite <- (K k Hk), Tk. split; [exact Hk|]. split; [exact Hn|].
    intros place Hplace. rewrite <- (K place Hplace).
    pose proof (own_counter o place C) as O'.
    destruct (tallied o place =? 0) eqn:Z0; [apply Z.eqb_eq in Z0; lia|].
    apply Listed in O'. apply (Permutation_in _ (Permutation_sym Perm)) in O'.
    destruct O' as [E|Hrest].
    + inversion E. lia.
    + inversion Sorted as [|? ? _ F]; subst. rewrite Forall_forall in F.
      destruct (F _ Hrest) as (a' & b' & Ha & Hb & Hle).
      cbn [TopLocation.count] in Ha, Hb. inversion Ha; inversion Hb; subst. exact Hle.
Qed.
End Figures.

End AnalyticsFacts.

(* ===================================================================== *)
(** * The statements at work                                              *)
(* ===================================================================== *)

Module Scenarios.
Import Capture Spec Sample.

(** Two of the three records are less than seven days old. *)
Lemma window_keeps_recent_witness :
  In ("7", 7) ranges
  /\ Analytics.totalCaptures (Sample.analytics "7" [recent; last_week; stale]) = 2%nat.
Proof.
  assert (R : In ("7", 7) ranges) by (left; reflexivity).
  split; [exact R|].
  apply (AnalyticsFacts.window_keeps_recent
           Sample.getTime Sample.toLocaleDateString Sample.Date_now
           "7" 7 [recent; last_week; stale] R);
    reflexivity.
Defined.

(** Of the two records of the window one has the temperature "20", the
    other the temperature "bad". *)
Lemma non_numeric_excluded_from_mean_witness :
  Analytics.filteredCaptures getTime Date_now "7" [recent; last_week; stale]
  = [recent; last_week]
  /\ non_numeric (temperature (data last_week))
  /\ Analytics.averageTemperature (analytics "7" [recent; last_week; stale]) = JS.of_Z 20
  /\ List.length (Analytics.valid (fun c => temperature (data c)) [recent; last_week])
     = 1%nat.
Proof.
  split; [reflexivity|].
  split; [apply NumeralFacts.non_numeric_NaN; reflexivity|].
  exact (proj2 (proj2 (proj2
           (AnalyticsFacts.non_numeric_excluded_from_mean
              getTime toLocaleDateString Date_now "7" [recent; last_week; stale]
              Temperature)))
           recent last_week eq_refl eq_refl eq_refl).
Defined.

(** C2 at a record whose temperature is a single space.  The text holds no
    number, yet it passes both tests of the component: it is not the empty
    text, and [Number] reads it as 0.  The record is therefore not excluded:
    with the temperatures "20" and " " in the window the denominator is 2 and
    the average temperature is 10, not 20. *)
Theorem blank_reading_is_averaged_as_zero :
  let filtered := [recent; blank] in
  let a := analytics "7" filtered in
  Analytics.filteredCaptures getTime Date_now "7" filtered = filtered
  /\ temperature (data recent) = "20"
  /\ temperature (data blank) = " "
  /\ StrWhiteSpace (temperature (data blank))
  /\ JS.truthy " " = true
  /\ JS.Number " " = JS.pos_zero
  /\ Analytics.valid (fun c => temperature (data c)) filtered = [recent; blank]
  /\ List.length (Analytics.valid (fun c => temperature (data c)) filtered) = 2%nat
  /\ Analytics.averageTemperature a = JS.of_Z 10
  /\ Analytics.averageTemperature a <> JS.of_Z 20.
Proof.
  cbv zeta.
  split; [reflexivity|]. split; [reflexivity|]. split; [reflexivity|].
  split.
  { apply (run_cons JS.StrWhiteSpaceChar " " ""); [|apply run_nil].
    unfold JS.StrWhiteSpaceChar. apply in_map_iff. exists [32%nat].
    split; [reflexivity|]. apply in_or_app. left. cbn. tauto. }
  split; [reflexivity|]. split; [reflexivity|]. split; [reflexivity|].
  split; [reflexivity|]. split; [vm_compute; reflexivity|].
  vm_compute. discriminate.
Qed.

(** No record of the window has a humidity. *)
Lemma mean_without_values_is_zero_witness :
  (forall c, In c (Analytics.filteredCaptures Sample.getTime Sample.Date_now "7"
                     [recent; last_week; stale]) ->
             reading Humidity c = "" \/ non_numeric (reading Humidity c))
  /\ Analytics.averageHumidity (Sample.analytics "7" [recent; last_week; stale])
     = JS.pos_zero.
Proof.
  assert (H : forall c,
             In c (Analytics.filteredCaptures Sample.getTime Sample.Date_now "7"
                     [recent; last_week; stale]) ->
             reading Humidity c = "" \/ non_numeric (reading Humidity c)).
  { intros c [<-|[<-|[]]]; left; reflexivity. }
  split; [exact H|].
  exact (AnalyticsFacts.mean_without_values_is_zero
           Sample.getTime Sample.toLocaleDateString Sample.Date_now
           "7" [recent; last_week; stale] Humidity H).
Defined.



(** C6 at a record set with a location named like an inherited property.
    Of the three records one is at "constructor" and two are at "Lake X"; the
    list puts "constructor" first, with a text where its count should be, and
    so is not in descending order of count. *)
Theorem top_locations_inherited_name :
  let filtered := [at_constructor; recent; last_week] in
  let top := Analytics.topLocations (analytics "7" filtered) in
  Analytics.filteredCaptures getTime Date_now "7" filtered = filtered
  /\ how_many (fun c => String.eqb (location (data c)) "constructor") filtered = 1
  /\ how_many (fun c => String.eqb (location (data c)) "Lake X") filtered = 2
  /\ top = [ {| Analytics.TopLocation.location := "constructor";
                Analytics.TopLocation.count :=
                  JS.Str "function Object() { [native code] }1" |};
             {| Analytics.TopLocation.location := "Lake X";
                Analytics.TopLocation.count := JS.Num 2 |} ]
  /\ ~ StronglySorted descending top.
Proof.
  cbv zeta. repeat split.
  intros S. inversion S as [|x l _ F]; subst.
  inversion F as [|y l' (a & b & Ha & _) _]; subst.
  discriminate Ha.
Qed.

(** The second upload is refused: the first photo stays in the bucket and
    no record is inserted. *)
Lemma failed_submission_leaves_no_record_witness :
  let run := CaptureForm.handleSubmit Sample.clock Sample.full_after_one
               Sample.accept_insert Sample.getPublicUrl
               (Some "user-1") Sample.two_photos Sample.idle Sample.nothing in
  existsb FormSpec.failed (CaptureForm.calls (snd run)) = true
  /\ CaptureForm.captures (snd run) = []
  /\ CaptureForm.objects (snd run)
     = [("1704844800000-shore.jpg",
         {| CaptureForm.name := "shore.jpg"; CaptureForm.contents := "a" |})]
  /\ CaptureForm.success (fst run) = false.
Proof.
  cbv zeta.
  set (run := CaptureForm.handleSubmit Sample.clock Sample.full_after_one
                Sample.accept_insert Sample.getPublicUrl
                (Some "user-1") Sample.two_photos Sample.idle Sample.nothing).
  assert (F : existsb FormSpec.failed (CaptureForm.calls (snd run)) = true)
    by reflexivity.
  destruct (CaptureFormFacts.failed_submission_leaves_no_record
              Sample.clock Sample.full_after_one Sample.accept_insert
              Sample.getPublicUrl (Some "user-1") Sample.two_photos
              Sample.idle (fst run) Sample.nothing (snd run)
              (CaptureForm.calls (snd run)) eq_refl eq_refl F)
    as (_ & Hc & _ & Ho & _ & Hs & _).
  split; [exact F|]. split; [exact Hc|]. split; [exact Ho | exact Hs].
Defined.

(** Both photos are uploaded and one draft record lists their addresses in
    the order of upload. *)
Lemma successful_submission_inserts_draft_witness :
  let run := CaptureForm.handleSubmit Sample.clock Sample.accept_upload
               Sample.accept_insert Sample.getPublicUrl
               (Some "user-1") Sample.two_photos Sample.idle Sample.nothing in
  CaptureForm.error (fst run) = None
  /\ exists row,
       CaptureForm.captures (snd run) = [row]
       /\ CaptureForm.Row.status row = draft
       /\ photoUrls (CaptureForm.Row.data row)
          = [ "https://example.supabase.co/storage/v1/object/public/capture-photos/1704844800000-shore.jpg";
              "https://example.supabase.co/storage/v1/object/public/capture-photos/1704844800001-gauge.jpg" ].
Proof.
  cbv zeta.
  set (run := CaptureForm.handleSubmit Sample.clock Sample.accept_upload
                Sample.accept_insert Sample.getPublicUrl
                (Some "user-1") Sample.two_photos Sample.idle Sample.nothing).
  assert (E : CaptureForm.error (fst run) = None) by reflexivity.
  split; [exact E|].
  destruct (proj1 (CaptureFormFacts.successful_submission_inserts_draft
                     Sample.clock Sample.accept_upload Sample.accept_insert
                     Sample.getPublicUrl)
              (Some "user-1") Sample.two_photos Sample.idle (fst run)
              Sample.nothing (snd run) eq_refl E)
    as (row & Hc & Hs & _ & _ & Hu & _).
  exists row. split; [exact Hc|]. split; [exact Hs | exact Hu].
Defined.

(** What [Number] makes of some texts.  White space alone reads as zero. *)
Example number_readings :
  JS.Number "20" = JS.of_Z 20
  /\ JS.Number " 31.5 " = JS.div (JS.of_Z 63) (JS.of_Z 2)
  /\ JS.Number "1e3" = JS.of_Z 1000
  /\ JS.Number "0x1A" = JS.of_Z 26
  /\ JS.Number " " = JS.pos_zero
  /\ non_numeric "bad"
  /\ non_numeric "12px"
  /\ non_numeric "1,5"
  /\ non_numeric "NaN".
Proof.
  repeat split; try reflexivity; apply NumeralFacts.non_numeric_NaN; reflexivity.
Qed.

(** The average of 0.1 and 0.2 is the binary64 number next above 0.15. *)
Example average_is_binary64 :
  Analytics.average (fun c => temperature (data c))
    [ capture "2024-01-09T12:00:00+00:00" "Lake X" "0.1" "" draft;
      capture "2024-01-09T12:00:00+00:00" "Lake X" "0.2" "" draft ]
  = JS.Number "0.15000000000000002".
Proof. reflexivity. Qed.

(** At both edges of each window the binary64 quotient of the component
    falls on the same side of the bound as the exact one. *)
Example window_edges_in_binary64 :
  forall timeRange days, In (timeRange, days) ranges ->
    JS.leb (JS.div (JS.of_Z (days * Analytics.msPerDay)) (JS.of_Z Analytics.msPerDay))
           (JS.of_Z days) = true
    /\ JS.leb (JS.div (JS.of_Z (days * Analytics.msPerDay + 1)) (JS.of_Z Analytics.msPerDay))
              (JS.of_Z days) = false.
Proof.
  intros timeRange days [H|[H|[H|[H|[]]]]]; inversion H; subst; split; reflexivity.
Qed.

(** The listing filters on plain text. *)
Example search_ignores_case :
  DataList.matchesSearch DataList.ascii_toLowerCase "LAKE" recent = true
  /\ DataList.matchesSearch DataList.ascii_toLowerCase "reAD" recent = true
  /\ DataList.matchesSearch DataList.ascii_toLowerCase "river" recent = false.
Proof. repeat split. Qed.

Example listing_by_status :
  DataList.filteredCaptures DataList.ascii_toLowerCase [recent; last_week; stale]
    "lake" "submitted" = [last_week]
  /\ DataList.filteredCaptures DataList.ascii_toLowerCase [recent; last_week; stale]
       "" "all" = [recent; last_week; stale].
Proof. split; reflexivity. Qed.

(** ** More of the components at work *)

Lemma sample_labels_are_plain (c : CaptureRecord) :
  inherited (Sample.toLocaleDateString (created_at c)) = false.
Proof. unfold Sample.toLocaleDateString. now destruct (Sample.getTime (created_at c)). Qed.

(** The two records of the window were both created in January 2024. *)
Lemma month_counts_add_up_witness :
  (forall c, In c (Analytics.filteredCaptures Sample.getTime Sample.Date_now "7"
                     [recent; last_week; stale]) ->
             inherited (Sample.toLocaleDateString (created_at c)) = false)
  /\ tallied (Analytics.capturesByMonth (Sample.analytics "7" [recent; last_week; stale]))
             "Jan 2024" = 2.
Proof.
  assert (H : forall c,
             In c (Analytics.filteredCaptures Sample.getTime Sample.Date_now "7"
                     [recent; last_week; stale]) ->
             inherited (Sample.toLocaleDateString (created_at c)) = false)
    by (intros c _; apply sample_labels_are_plain).
  split; [exact H|].
  exact (proj2 (proj2 (AnalyticsFacts.month_counts_add_up
                         Sample.getTime Sample.toLocaleDateString Sample.Date_now
                         "7" [recent; last_week; stale] H)) "Jan 2024").
Defined.

(** Both records of the window were taken at Lake X. *)
Lemma top_locations_of_plain_names_witness :
  (forall c, In c (Analytics.filteredCaptures Sample.getTime Sample.Date_now "7"
                     [recent; last_week; stale]) ->
             inherited (location (data c)) = false)
  /\ (List.length (Analytics.topLocations
                     (Sample.analytics "7" [recent; last_week; stale])) <= 5)%nat
  /\ Analytics.topLocations (Sample.analytics "7" [recent; last_week; stale])
     = [ {| Analytics.TopLocation.location := "Lake X";
            Analytics.TopLocation.count := JS.Num 2 |} ].
Proof.
  assert (H : forall c,
             In c (Analytics.filteredCaptures Sample.getTime Sample.Date_now "7"
                     [recent; last_week; stale]) ->
             inherited (location (data c)) = false).
  { intros c [<-|[<-|[]]]; reflexivity. }
  split; [exact H|].
  split; [|reflexivity].
  exact (proj1 (AnalyticsFacts.top_locations_of_plain_names
                  Sample.getTime Sample.toLocaleDateString Sample.Date_now
                  "7" [recent; last_week; stale] H)).
Defined.

(** Lake X, with two records, is the most active location. *)
Lemma most_active_location_is_most_frequent_witness :
  (forall c, In c (Analytics.filteredCaptures Sample.getTime Sample.Date_now "7"
                     [recent; last_week; stale]) ->
             inherited (location (data c)) = false)
  /\ (exists c, In c (Analytics.filteredCaptures Sample.getTime Sample.Date_now "7"
                        [recent; last_week; stale])
                /\ location (data c) <> "")
  /\ Analytics.mostActiveLocation (Sample.analytics "7" [recent; last_week; stale])
     = "Lake X"
  /\ forall place,
       place <> "" ->
       how_many (fun c => String.eqb (location (data c)) place)
                (Analytics.filteredCaptures Sample.getTime Sample.Date_now "7"
                   [recent; last_week; stale])
       <= 2.
Proof.
  assert (H : forall c,
             In c (Analytics.filteredCaptures Sample.getTime Sample.Date_now "7"
                     [recent; last_week; stale]) ->
             inherited (location (data c)) = false).
  { intros c [<-|[<-|[]]]; reflexivity. }
  assert (E : exists c,
             In c (Analytics.filteredCaptures Sample.getTime Sample.Date_now "7"
                     [recent; last_week; stale])
             /\ location (data c) <> "").
  { exists recent. split; [now left | discriminate]. }
  split; [exact H|]. split; [exact E|]. split; [reflexivity|].
  exact (proj2 (proj2 (proj2 (AnalyticsFacts.most_active_location_is_most_frequent
                                Sample.getTime Sample.toLocaleDateString Sample.Date_now
                                "7" [recent; last_week; stale] H) E))).
Defined.

(** January 2024, with two records, is the fullest month. *)
Lemma peak_is_the_fullest_month_witness :
  (forall c, In c (Analytics.filteredCaptures Sample.getTime Sample.Date_now "7"
                     [recent; last_week; stale]) ->
             inherited (Sample.toLocaleDateString (created_at c)) = false)
  /\ Analytics.peakMonthlyCaptures (Sample.analytics "7" [recent; last_week; stale])
     = JS.Int 2
  /\ exists month,
       Analytics.peakMonthlyCaptures (Sample.analytics "7" [recent; last_week; stale])
       = JS.Int (how_many
                   (fun c => String.eqb (Sample.toLocaleDateString (created_at c)) month)
                   (Analytics.filteredCaptures Sample.getTime Sample.Date_now "7"
                      [recent; last_week; stale]))
       /\ 0 < how_many
                (fun c => String.eqb (Sample.toLocaleDateString (created_at c)) month)
                (Analytics.filteredCaptures Sample.getTime Sample.Date_now "7"
                   [recent; last_week; stale])
       /\ forall month',
            how_many
              (fun c => String.eqb (Sample.toLocaleDateString (created_at c)) month')
              (Analytics.filteredCaptures Sample.getTime Sample.Date_now "7"
                 [recent; last_week; stale])
            <= how_many
                 (fun c => String.eqb (Sample.toLocaleDateString (created_at c)) month)
                 (Analytics.filteredCaptures Sample.getTime Sample.Date_now "7"
                    [recent; last_week; stale]).
Proof.
  assert (H : forall c,
             In c (Analytics.filteredCaptures Sample.getTime Sample.Date_now "7"
                     [recent; last_week; stale]) ->
             inherited (Sample.toLocaleDateString (created_at c)) = false)
    by (intros c _; apply sample_labels_are_plain).
  split; [exact H|]. split; [reflexivity|].
  exact (AnalyticsFacts.peak_is_the_fullest_month
           Sample.getTime Sample.toLocaleDateString Sample.Date_now
           "7" [recent; last_week; stale] H).
Defined.

(** The window of 30 days holds the record that the window of 7 days has
    dropped. *)
Lemma longer_range_keeps_every_record_witness :
  In ("7", 7) ranges /\ In ("30", 30) ranges /\ 7 <= 30
  /\ (Analytics.totalCaptures (Sample.analytics "7" [recent; last_week; stale])
      <= Analytics.totalCaptures (Sample.analytics "30" [recent; last_week; stale]))%nat
  /\ Analytics.totalCaptures (Sample.analytics "30" [recent; last_week; stale]) = 3%nat.
Proof.
  assert (R : In ("7", 7) ranges) by (left; reflexivity).
  assert (R' : In ("30", 30) ranges) by (right; left; reflexivity).
  assert (L : 7 <= 30) by lia.
  split; [exact R|]. split; [exact R'|]. split; [exact L|]. split; [|reflexivity].
  exact (proj2 (AnalyticsFacts.longer_range_keeps_every_record
                  Sample.getTime Sample.toLocaleDateString Sample.Date_now
                  "7" "30" 7 30 [recent; last_week; stale] R R' L)).
Defined.

(** A single record older than a week leaves the window of 7 days empty. *)
Lemma report_of_an_empty_window_witness :
  Analytics.filteredCaptures Sample.getTime Sample.Date_now "7" [stale] = []
  /\ Analytics.mostActiveLocation (Sample.analytics "7" [stale]) = "N/A"
  /\ Analytics.peakMonthlyCaptures (Sample.analytics "7" [stale])
     = JS.Flt JS.neg_infinity.
Proof.
  assert (E : Analytics.filteredCaptures Sample.getTime Sample.Date_now "7" [stale] = [])
    by reflexivity.
  split; [exact E|].
  pose proof (AnalyticsFacts.report_of_an_empty_window
                Sample.getTime Sample.toLocaleDateString Sample.Date_now
                "7" [stale] E) as (_ & M & _ & P).
  split; [exact M | exact P].
Defined.

(** Lower-casing leaves the empty text empty. *)
Lemma untouched_filters_list_every_record_witness :
  DataList.ascii_toLowerCase "" = ""
  /\ DataList.filteredCaptures DataList.ascii_toLowerCase [recent; last_week; stale]
       (DataList.searchTerm DataList.initial) (DataList.statusFilter DataList.initial)
     = [recent; last_week; stale].
Proof.
  split; [reflexivity|].
  exact (proj1 (DataListFacts.untouched_filters_list_every_record
                  DataList.ascii_toLowerCase [recent; last_week; stale] eq_refl)).
Defined.

(** Typing on from "Lake" to "Lake X". *)
Lemma longer_search_term_narrows_witness :
  substring (DataList.ascii_toLowerCase "Lake") (DataList.ascii_toLowerCase "Lake X")
  /\ incl (DataList.filteredCaptures DataList.ascii_toLowerCase
             [recent; last_week; stale] "Lake X" "all")
          (DataList.filteredCaptures DataList.ascii_toLowerCase
             [recent; last_week; stale] "Lake" "all").
Proof.
  assert (S : substring (DataList.ascii_toLowerCase "Lake")
                        (DataList.ascii_toLowerCase "Lake X"))
    by (exists "", " x"; reflexivity).
  split; [exact S|].
  exact (proj2 (DataListFacts.longer_search_term_narrows
                  DataList.ascii_toLowerCase [recent; last_week; stale]
                  "Lake" "Lake X" "all" S)).
Defined.

(** Record "a" is deleted from a table of two; record "b" is still listed
    and is not the deleted one. *)
Lemma deleted_record_is_not_listed_witness :
  accept_delete table "a" = None
  /\ DataList.filteredCaptures DataList.ascii_toLowerCase
       (DataList.captures
          (fst (DataList.handleDelete None accept_delete select_all true "a"
                  DataList.initial table)))
       "" "all"
     = [with_id "b" last_week]
  /\ id (with_id "b" last_week) <> "a".
Proof.
  split; [reflexivity|]. split; [reflexivity|].
  apply (DataListFacts.deleted_record_is_not_listed
           DataList.ascii_toLowerCase None accept_delete select_all
           "a" DataList.initial table "" "all" eq_refl eq_refl).
  - intros l [= <-]. apply incl_refl.
  - now left.
Defined.


(** The upload of the second photo is dropped; the second attempt goes
    through, and the first photo is in the bucket twice. *)
Lemma retry_uploads_every_photo_again_witness :
  let first :=
    CaptureForm.handleSubmit clock drop_second_call accept_insert getPublicUrl
      None two_photos idle nothing in
  let second :=
    CaptureForm.handleSubmit clock drop_second_call accept_insert getPublicUrl
      None two_photos (fst first) (snd first) in
  CaptureForm.error (fst first) <> None
  /\ CaptureForm.error (fst second) = None
  /\ map (fun o => CaptureForm.name (snd o)) (CaptureForm.objects (snd second))
     = ["shore.jpg"; "shore.jpg"; "gauge.jpg"]
  /\ exists done rest row,
       CaptureForm.photos two_photos = done ++ rest
       /\ map snd (CaptureForm.objects (snd second))
          = map snd (CaptureForm.objects nothing) ++ done ++ CaptureForm.photos two_photos
       /\ CaptureForm.captures (snd second) = CaptureForm.captures nothing ++ [row]
       /\ CaptureForm.Row.status row = draft
       /\ CaptureForm.Row.user_id row = None
       /\ FormSpec.collects two_photos row
       /\ photoUrls (CaptureForm.Row.data row)
          = map getPublicUrl
              (FormSpec.fileNames clock (CaptureForm.ticks (snd first))
                 (CaptureForm.photos two_photos))
       /\ CaptureForm.success (fst second) = true.
Proof.
  cbv zeta.
  assert (E1 : CaptureForm.error
                 (fst (CaptureForm.handleSubmit clock drop_second_call accept_insert
                         getPublicUrl None two_photos idle nothing)) <> None)
    by (vm_compute; discriminate).
  split; [exact E1|]. split; [reflexivity|]. split; [reflexivity|].
  exact (CaptureFormFacts.retry_uploads_every_photo_again
           clock drop_second_call accept_insert getPublicUrl
           None two_photos idle nothing E1 eq_refl).
Defined.

End Scenarios.
